(** * minitoolapi: the browser-driven completion adapter

  A shallow embedding of the JavaScript sources of the repository
  (app.js, server.js, chat.js, database.js, models.js, index.js) and
  the properties of its catalog store, catalog refresher, completion
  watcher and protocol encoder.

  Layout: part I holds the embedding, one module per source unit;
  part II holds the lemmas and the theorems about it. *)

From Stdlib Require Import ZArith QArith Lia Bool Ascii String List.
From stdpp Require Import base option list strings gmap fin_maps.

Set Warnings "-register-all".
Local Open Scope Z_scope.

(* ===================================================================== *)
(** * Part I: the embedding *)
(* ===================================================================== *)

(** ** JavaScript strings and arrays

  A JS string is modelled as a [string]: a sequence of code units
  (restricted to the code units below 256). *)
Module JS.

(** [s.length] *)
Definition strlen (s : string) : Z := Z.of_nat (String.length s).

(** [s.split(sep)] for a separator of one code unit: the result always
    has at least one element ([''.split(' ')] is [['']]). *)
Fixpoint split (sep : ascii) (s : string) : list string :=
  match s with
  | EmptyString => [EmptyString]
  | String c rest =>
      if Ascii.eqb c sep then EmptyString :: split sep rest
      else match split sep rest with
           | [] => [String c EmptyString]
           | w :: ws => String c w :: ws
           end
  end.

(** [a.join(sep)] *)
Fixpoint join (sep : string) (a : list string) : string :=
  match a with
  | [] => EmptyString
  | [w] => w
  | w :: ws => w +:+ sep +:+ join sep ws
  end.

(** [a.slice(i, j)] for [0 <= i <= j] *)
Definition slice {A} (a : list A) (i j : nat) : list A :=
  take (j - i) (drop i a).

(** Concatenation of a sequence of strings, in order. *)
Fixpoint concat (a : list string) : string :=
  match a with
  | [] => EmptyString
  | w :: ws => w +:+ concat ws
  end.

(** White space in the sense of [String.prototype.trim]: TAB, LF, VT,
    FF, CR, SP and NBSP. *)
Definition isWhiteSpace (c : ascii) : bool :=
  let n := nat_of_ascii c in
  ((9 <=? n)%nat && (n <=? 13)%nat) || (n =? 32)%nat || (n =? 160)%nat.

Fixpoint trimStart (s : string) : string :=
  match s with
  | EmptyString => EmptyString
  | String c rest => if isWhiteSpace c then trimStart rest else s
  end.

(** [trimEnd] keeps a character when it is not white space or when
    something is left after it. *)
Fixpoint trimEnd (s : string) : string :=
  match s with
  | EmptyString => EmptyString
  | String c rest =>
      match trimEnd rest with
      | EmptyString => if isWhiteSpace c then EmptyString else String c EmptyString
      | kept => String c kept
      end
  end.

(** [s.trim()] *)
Definition trim (s : string) : string := trimEnd (trimStart s).

(** Truthiness of a string: [''] is falsy. *)
Definition truthy (s : string) : bool :=
  match s with EmptyString => false | _ => true end.

(** [s.startsWith(p)] *)
Fixpoint startsWith (p s : string) : bool :=
  match p, s with
  | EmptyString, _ => true
  | String a p', String b s' => Ascii.eqb a b && startsWith p' s'
  | String _ _, EmptyString => false
  end.

Fixpoint dropChars (n : nat) (s : string) : string :=
  match n, s with
  | O, _ => s
  | S n', String _ rest => dropChars n' rest
  | S _, EmptyString => EmptyString
  end.

(** [s.replace(pat, '')] for a string pattern: the first occurrence
    of [pat] is removed. *)
Fixpoint removeFirst (pat s : string) : string :=
  if startsWith pat s then dropChars (String.length pat) s
  else match s with
       | EmptyString => EmptyString
       | String c rest => String c (removeFirst pat rest)
       end.

(** [s.replace(/pat$/, '')]: [pat] is removed when it ends [s]. *)
Fixpoint removeSuffix (pat s : string) : string :=
  if String.eqb pat s then EmptyString
  else match s with
       | EmptyString => EmptyString
       | String c rest => String c (removeSuffix pat rest)
       end.

(** [s.toLowerCase()] on the letters A to Z. *)
Definition lowerChar (c : ascii) : ascii :=
  let n := nat_of_ascii c in
  if (65 <=? n)%nat && (n <=? 90)%nat then ascii_of_nat (n + 32) else c.

Fixpoint toLowerCase (s : string) : string :=
  match s with
  | EmptyString => EmptyString
  | String c rest => String (lowerChar c) (toLowerCase rest)
  end.

(** [s.endsWith(p)] for a pattern of one code unit *)
Fixpoint endsWithChar (c : ascii) (s : string) : bool :=
  match s with
  | EmptyString => false
  | String d EmptyString => Ascii.eqb d c
  | String _ rest => endsWithChar c rest
  end.

(** [s.includes(c)] for a pattern of one code unit *)
Fixpoint includesChar (c : ascii) (s : string) : bool :=
  match s with
  | EmptyString => false
  | String d rest => Ascii.eqb d c || includesChar c rest
  end.

(** ASCII white space in the sense of HTML: TAB, LF, FF, CR and SP. *)
Definition isAsciiWhiteSpace (c : ascii) : bool :=
  let n := nat_of_ascii c in
  (n =? 9)%nat || (n =? 10)%nat || (n =? 12)%nat || (n =? 13)%nat || (n =? 32)%nat.

(** The maximal runs of characters that are not ASCII white space. *)
Fixpoint wordsOf (s : string) : list string :=
  match s with
  | EmptyString => []
  | String c rest =>
      if isAsciiWhiteSpace c then wordsOf rest
      else match rest with
           | EmptyString => [String c EmptyString]
           | String d _ =>
               if isAsciiWhiteSpace d then String c EmptyString :: wordsOf rest
               else match wordsOf rest with
                    | w :: ws => String c w :: ws
                    | [] => [String c EmptyString]
                    end
           end
  end.

(** "Strip and collapse ASCII white space" of the HTML standard: the
    white space at both ends is removed and every other run of it
    becomes one space. *)
Definition stripAndCollapse (s : string) : string := join " " (wordsOf s).

(** [`${x}`] for a string that may be [undefined]. *)
Definition template (x : option string) : string := default "undefined" x.

End JS.

(** ** JavaScript values: the objects the handlers build and send *)
Inductive value : Type :=
| VUndefined
| VNull
| VBool (b : bool)
| VNum (n : Z)
| VStr (s : string)
| VArr (items : list value)
| VObj (fields : list (string * value)).

Module Obj.

Fixpoint lookup_field (k : string) (fields : list (string * value)) : value :=
  match fields with
  | [] => VUndefined
  | (k', v) :: rest => if String.eqb k k' then v else lookup_field k rest
  end.

(** [o.k]; a missing property, or a property of something that is not
    an object, reads as [undefined]. *)
Definition get (k : string) (o : value) : value :=
  match o with
  | VObj fields => lookup_field k fields
  | _ => VUndefined
  end.

(** [a[i]] *)
Definition at_index (i : nat) (a : value) : value :=
  match a with
  | VArr items => default VUndefined (items !! i)
  | _ => VUndefined
  end.

Definition has (k : string) (o : value) : bool :=
  match get k o with VUndefined => false | _ => true end.

End Obj.

(** What a handler does with the HTTP response object [res]. *)
Inductive sse : Type :=
| Data (chunk : value)      (* res.write(`data: ${JSON.stringify(chunk)}\n\n`) *)
| Line (raw : string).      (* res.write(raw) *)

Definition DONE : sse := Line "data: [DONE]

".

Record http_response : Type := mkResponse { status : Z; body : value }.

(** ** Reading a chunk sequence back *)
Module Wire.

(** [chunk.choices[0]] *)
Definition choice (chunk : value) : value :=
  Obj.at_index 0 (Obj.get "choices" chunk).

(** [chunk.choices[0].delta] *)
Definition delta (chunk : value) : value := Obj.get "delta" (choice chunk).

(** The text a client appends for a chunk: [delta.content] when it is
    a string. *)
Definition contentPayload (chunk : value) : option string :=
  match Obj.get "content" (delta chunk) with
  | VStr s => Some s
  | _ => None
  end.

Definition contentPayloads (chunks : list value) : list string :=
  omap contentPayload chunks.

(** The JSON chunks among the lines of an event stream. *)
Definition dataChunks (events : list sse) : list value :=
  omap (fun e => match e with Data chunk => Some chunk | Line _ => None end) events.


(** The chunk written just before the terminator line, when the stream
    ends with the literal [data: [DONE]] line. *)
Definition closingChunk (events : list sse) : option value :=
  match rev events with
  | Line raw :: Data final :: _ =>
      if String.eqb raw "data: [DONE]

" then Some final else None
  | _ => None
  end.




(** [usage.total_tokens === usage.prompt_tokens + usage.completion_tokens] *)
Definition usageAddsUp (usage : value) : Prop :=
  exists p c : Z,
    Obj.get "prompt_tokens" usage = VNum p
    /\ Obj.get "completion_tokens" usage = VNum c
    /\ Obj.get "total_tokens" usage = VNum (p + c).

(** An object that carries a usage object carries one that adds up. *)
Definition usageConsistent (o : value) : Prop :=
  Obj.has "usage" o = true -> usageAddsUp (Obj.get "usage" o).

(** The reasoning text a client appends for a chunk:
    [delta.reasoning_content] when it is a string. *)
Definition reasoningPayload (chunk : value) : option string :=
  match Obj.get "reasoning_content" (delta chunk) with
  | VStr s => Some s
  | _ => None
  end.

Definition reasoningPayloads (chunks : list value) : list string :=
  omap reasoningPayload chunks.

End Wire.

(** ** Reading a model listing back *)
Module Listing.

(** [response.data] *)
Definition entries (response : value) : list value :=
  match Obj.get "data" response with
  | VArr items => items
  | _ => []
  end.

(** [response.data.map(m => m.id)] *)
Definition ids (response : value) : list value :=
  map (Obj.get "id") (entries response).

(** [response.data.map(m => m.owned_by)] *)
Definition owners (response : value) : list value :=
  map (Obj.get "owned_by") (entries response).

End Listing.

(** A JavaScript computation that returns or throws. *)
Inductive result (A : Type) : Type :=
| Ok (a : A)
| Throw (message : string).
Arguments Ok {A} a.
Arguments Throw {A} message.

(** What becomes of an asynchronous call: it settles (its promise is
    resolved or rejected, as the value says), or the process dies
    before it does: an ['error'] event is emitted on an object that has
    no listener for it. *)
Inductive async (A : Type) : Type :=
| Settles (a : A)
| Dies.
Arguments Settles {A} a.
Arguments Dies {A}.

(** The decoded remote answer; [null] is [None]. *)
Record CompletionResult : Type :=
  mkCompletion { content : option string; reasoning : option string }.

(** ** config.js *)
Record Config : Type := mkConfig {
  BASE_URL : string;
  MODEL_CACHE_DAYS : Z;
  MODEL_PATHS : list string
}.

(** The defaults of config.js (no environment variable set). *)
Definition default_config : Config :=
  {| BASE_URL := "https://minitoolai.com";
     MODEL_CACHE_DAYS := 7;
     MODEL_PATHS := ["chatGPT"; "deepseek"; "qwen"; "Claude-3"; "Gemini";
                     "grok"; "bytedance-seed"; "gpt-oss"; "llama"] |}.

(** ** The remote site, as the catalog refreshers see it

    A fetched page either has no [#select_model] element or has one
    with a list of options; each option has a text and may carry a
    [value] attribute. A fetch or a parse may throw. *)
Record OptionElement : Type :=
  mkOption { value_attr : option string; text_content : string }.

Inductive Fetched : Type :=
| FetchThrows (message : string)
| Page (select_model : option (list OptionElement)).

(** [$(element).attr('value')] of cheerio on an option element: its
    [value] attribute, or the text of the option when it has none. *)
Definition attrValue (o : OptionElement) : string :=
  default (text_content o) (value_attr o).

(** [option.value] in the browser: the [value] attribute, or the text
    of the option with its ASCII white space stripped and collapsed
    when it has none. *)
Definition domValue (o : OptionElement) : string :=
  match value_attr o with
  | Some v => v
  | None => JS.stripAndCollapse (text_content o)
  end.

(** A failing path: its fetch or its parse throws. *)
Definition fails (site : string -> Fetched) (path : string) : bool :=
  match site path with
  | FetchThrows _ => true
  | Page _ => false
  end.

(** ** JavaScript numbers, as far as the temperature handling needs them

    A finite double is the rational it denotes; [parseFloat] of a
    missing or malformed attribute is [NaN]. *)
Module Num.

Inductive num : Type :=
| NaN
| Fin (q : Q).

(** [a <= b]: false as soon as one side is [NaN]. *)
Definition le (a b : num) : bool :=
  match a, b with
  | Fin x, Fin y => Qle_bool x y
  | _, _ => false
  end.

(** [a || d]: [NaN] and [0] are falsy. *)
Definition orElse (a : num) (d : Q) : Q :=
  match a with
  | NaN => d
  | Fin q => if Qeq_bool q 0 then d else q
  end.

End Num.

(** The [#temperature] input of a chat page: [parseFloat(el.min)],
    [parseFloat(el.max)] and the value the control holds. *)
Inductive ControlValue : Type :=
| RemoteDefault
| Written (t : Q).

Record TemperatureInput : Type := mkTemperatureInput {
  min_attr : Num.num;
  max_attr : Num.num;
  input_value : ControlValue
}.

Definition writeTemperature (t : Q) (input : TemperatureInput) : TemperatureInput :=
  {| min_attr := min_attr input; max_attr := max_attr input; input_value := Written t |}.

(** One chat message of a request. *)
Record Message : Type := mkMessage { role : string; msg_content : string }.

(** [messages.map(msg => `${msg.role}:${msg.content}`).join(';')] *)
Definition formatMessages (messages : list Message) : string :=
  JS.join ";" (map (fun msg => role msg +:+ ":" +:+ msg_content msg) messages).

(** A message whose role holds neither separator of [formatMessages]
    and whose content does not hold the one between messages. *)
Definition separatorFree (msg : Message) : bool :=
  negb (JS.includesChar ":" (role msg))
  && negb (JS.includesChar ";" (role msg))
  && negb (JS.includesChar ";" (msg_content msg)).

(** One element of the array [formatMessages] joins:
    [`${msg.role}:${msg.content}`]. *)
Definition messagePiece (msg : Message) : string :=
  role msg +:+ ":" +:+ msg_content msg.

(** The body of a chat-completion request after destructuring:
    [messages], [model] and [temperature] are [None] when they are
    missing ([undefined]). Bodies whose [messages] is neither missing
    nor an array, or whose [model] is neither missing nor a string, are
    not modelled. *)
Record Request : Type := mkRequest {
  messages : option (list Message);
  model : option string;
  temperature : option Q;
  stream : bool
}.

(** The model of a request that passes the test [!model] of app.js and
    server.js: a string that is not empty. *)
Definition requestedModel (req : Request) : option string :=
  match model req with
  | Some modelId => if JS.truthy modelId then Some modelId else None
  | None => None
  end.

(** What a route sends back. *)
Inductive Reply : Type :=
| Json (response : http_response)                 (* res.status(s).json(body) *)
| EventStream (code : Z) (events : list sse).     (* res.writeHead(code, ...); res.write ... ; res.end() *)

(** The calls a route makes to its collaborators. *)
Inductive Effect : Type :=
| CatalogRefresh      (* the remote paths are fetched *)
| BrowserAutomation.  (* a chat page is driven *)

(** The three programs of the repository. *)
Inductive Program : Type :=
| AppJs       (* app.js *)
| ServerJs    (* server.js *)
| Modular.    (* index.js with chat.js, models.js and database.js *)

(** Whether a call opens a page in the browser. Driving a chat page
    does; the catalog refresh does in server.js only, where
    [discoverModels] opens a page for every path, while app.js and
    models.js fetch the paths with axios. *)
Definition opensBrowserPage (program : Program) (e : Effect) : bool :=
  match e, program with
  | BrowserAutomation, _ => true
  | CatalogRefresh, ServerJs => true
  | CatalogRefresh, _ => false
  end.

(** ** database.js: class Database

    The SQLite tables are finite maps keyed by their PRIMARY KEY. The
    text stored in [cache.value] is kept as the value it serialises
    ([JSON.parse] of [JSON.stringify] is the identity). Statements
    succeed, except a plain INSERT whose key is taken: it fails, and
    since [saveModels] passes [stmt.run] no callback the error is
    emitted on the statement, which has no listener: the process
    dies. *)
Module Database.

Record ModelRow : Type :=
  mkModelRow { group_name : string; created_at : Z; updated_at : Z }.

Record CacheRow : Type := mkCacheRow { cache_value : value; expires_at : Z }.

Record State : Type := mkState {
  models : gmap string ModelRow;
  cache : gmap string CacheRow
}.

(** What [fetchModelsFromPage] pushes: [{ id, group }]. *)
Record Model : Type := mkModel { id : string; group : string }.

(** [stmt.run(...)] of the prepared
    [INSERT INTO models ... VALUES (?, ?, ?, ?)], [id] being the
    primary key: on a taken key the statement fails; [run] was given
    no callback, so the error is emitted on the statement, which has
    no listener, and the process dies. *)
Definition sql_insert (key : string) (row : ModelRow)
    (table : gmap string ModelRow) : async (gmap string ModelRow) :=
  match table !! key with
  | Some _ => Dies
  | None => Settles (<[key := row]> table)
  end.

(** [setCache(key, value, expiresAt)]: INSERT OR REPLACE INTO cache *)
Definition setCache (key : string) (v : value) (expiresAt : Z) (db : State) : State :=
  {| models := models db;
     cache := <[key := mkCacheRow v expiresAt]> (cache db) |}.

(** [getCache(key)]:
    SELECT value FROM cache WHERE key = ? AND expires_at > ?
    with [Date.now()] as the second parameter; [null] is [None]. *)
Definition getCache (key : string) (now : Z) (db : State) : option value :=
  match cache db !! key with
  | Some row => if expires_at row >? now then Some (cache_value row) else None
  | None => None
  end.

(** The statements of [saveModels] run by the prepared INSERT, in
    the order of the list. *)
Fixpoint insertModels (now : Z) (fetched : list Model)
    (table : gmap string ModelRow) : async (gmap string ModelRow) :=
  match fetched with
  | [] => Settles table
  | m :: rest =>
      match sql_insert (id m) (mkModelRow (group m) now now) table with
      | Settles table' => insertModels now rest table'
      | Dies => Dies
      end
  end.

(** [saveModels(models)]: DELETE FROM models, the INSERTs, then the
    cache timestamp. *)
Definition saveModels (cfg : Config) (now : Z) (fetched : list Model) (db : State)
    : async State :=
  let expires := now + MODEL_CACHE_DAYS cfg * 24 * 60 * 60 * 1000 in
  let cleared : gmap string ModelRow := ∅ in
  match insertModels now fetched cleared with
  | Settles table =>
      Settles (setCache "models_updated" (VObj [("timestamp", VNum now)]) expires
                 {| models := table; cache := cache db |})
  | Dies => Dies
  end.

(** [getModels()]: SELECT * FROM models *)
Definition getModels (db : State) : list (string * ModelRow) :=
  map_to_list (models db).

(** [isModelsCacheValid()]; [nowRead] is the clock of [getCache] and
    [now] the clock of the comparison. *)
Definition isModelsCacheValid (cfg : Config) (nowRead now : Z) (db : State) : bool :=
  match getCache "models_updated" nowRead db with
  | Some data =>
      match Obj.get "timestamp" data with
      | VNum timestamp =>
          now <? timestamp + MODEL_CACHE_DAYS cfg * 24 * 60 * 60 * 1000
      | _ => false
      end
  | None => false
  end.

(** [findModelGroup(modelId)] *)
Definition findModelGroup (modelId : string) (db : State) : option string :=
  group_name <$> (models db !! modelId).

End Database.

(** ** models.js: class ModelManager *)
Module ModelManager.

Import Database.

(** [fetchModelsFromPage(path)]: the options of [#select_model] whose
    [attr('value')] is truthy; [[]] when the fetch or the parse
    throws. *)
Definition fetchModelsFromPage (site : string -> Fetched) (path : string) : list Model :=
  match site path with
  | FetchThrows _ => []
  | Page select =>
      omap (fun o =>
              let value := attrValue o in
              if JS.truthy value
              then Some (mkModel value (JS.toLowerCase path))
              else None)
           (default [] select)
  end.

(** [fetchAllModels()]: [Promise.all] keeps the order of the paths. *)
Definition fetchAllModels (cfg : Config) (site : string -> Fetched) : list Model :=
  mjoin (map (fetchModelsFromPage site) (MODEL_PATHS cfg)).

(** [formatModelsResponse(models)]; each element is an id with its
    [model.group_name || model.group]. *)
Definition formatModelsResponse (now : Z) (owned : list (string * value)) : value :=
  VObj [("object", VStr "list");
        ("data", VArr (map (fun m =>
            VObj [("id", VStr m.1);
                  ("object", VStr "model");
                  ("created", VNum now);
                  ("owned_by", m.2)]) owned))].

Definition ownerOfRow (r : string * ModelRow) : string * value :=
  (r.1, if JS.truthy (group_name r.2) then VStr (group_name r.2) else VUndefined).

Definition ownerOfModel (m : Model) : string * value :=
  (id m, VStr (group m)).

(** The clock readings of one call of [getModelsList]. *)
Record Clock : Type := mkClock {
  atCacheRead : Z;   (* Date.now() in getCache *)
  atCacheCheck : Z;  (* Date.now() in isModelsCacheValid *)
  atSave : Z;        (* Date.now() in saveModels *)
  atFormat : Z       (* Math.floor(Date.now() / 1000) in formatModelsResponse *)
}.

(** The tail of [getModelsList], from "Fetch fresh models" on: fetch,
    save when something was fetched, answer with what was fetched. *)
Definition fetchFreshModels (cfg : Config) (site : string -> Fetched) (clk : Clock)
    (db : State) : async (State * value) :=
  let fetched := fetchAllModels cfg site in
  let response := formatModelsResponse (atFormat clk) (map ownerOfModel fetched) in
  if (0 <? length fetched)%nat
  then match saveModels cfg (atSave clk) fetched db with
       | Settles db' => Settles (db', response)
       | Dies => Dies
       end
  else Settles (db, response).

(** [getModelsList(forceRefresh = false)] *)
Definition getModelsList (cfg : Config) (site : string -> Fetched) (clk : Clock)
    (forceRefresh : bool) (db : State) : async (State * value) :=
  if negb forceRefresh
     && isModelsCacheValid cfg (atCacheRead clk) (atCacheCheck clk) db
     && (0 <? length (getModels db))%nat
  then Settles (db, formatModelsResponse (atFormat clk) (map ownerOfRow (getModels db)))
  else fetchFreshModels cfg site clk db.

End ModelManager.

(** ** chat.js: class ChatHandler *)
Module Chat.

(** The [for] loop of [splitIntoChunks]: [i] is the loop index and
    [chunks] the array built so far. The loop does not end when
    [chunkSize] is 0; [None] is the model running out of [fuel]. *)
Fixpoint splitLoop (fuel : nat) (words : list string) (chunkSize i : nat)
    (chunks : list string) : option (list string) :=
  if (i <? length words)%nat then
    match fuel with
    | O => None
    | S fuel' =>
        let chunk := JS.join " " (JS.slice words i (i + chunkSize)) in
        let chunks' :=
          if (i + chunkSize <? length words)%nat
          then chunks ++ [chunk +:+ " "]
          else chunks ++ [chunk] in
        splitLoop fuel' words chunkSize (i + chunkSize) chunks'
    end
  else Some chunks.

(** [splitIntoChunks(text, chunkSize)]; one unit of fuel per word is
    enough whenever [chunkSize] is positive. *)
Definition splitIntoChunks (text : string) (chunkSize : nat) : option (list string) :=
  let words := JS.split " " text in
  splitLoop (length words) words chunkSize 0 [].

(** [response.reasoning ? ... : ...] *)
Definition hasReasoning (response : CompletionResult) : bool :=
  match reasoning response with
  | Some r => JS.truthy r
  | None => false
  end.

Definition roleChunk (messageId : string) (timestamp : Z) (model : string)
    (response : CompletionResult) : value :=
  VObj [("id", VStr messageId);
        ("object", VStr "chat.completion.chunk");
        ("created", VNum timestamp);
        ("model", VStr model);
        ("choices", VArr [VObj
           [("index", VNum 0);
            ("delta", VObj [("role", VStr "assistant");
                            ("content", VNull);
                            ("reasoning_content",
                               if hasReasoning response then VStr EmptyString else VNull)]);
            ("logprobs", VNull);
            ("finish_reason", VNull)]])].

Definition reasoningChunk (messageId : string) (timestamp : Z) (model : string)
    (chunk : string) : value :=
  VObj [("id", VStr messageId);
        ("object", VStr "chat.completion.chunk");
        ("created", VNum timestamp);
        ("model", VStr model);
        ("choices", VArr [VObj
           [("index", VNum 0);
            ("delta", VObj [("content", VNull);
                            ("reasoning_content", VStr chunk)]);
            ("finish_reason", VNull)]])].

Definition contentChunk (messageId : string) (timestamp : Z) (model : string)
    (chunk : string) : value :=
  VObj [("id", VStr messageId);
        ("object", VStr "chat.completion.chunk");
        ("created", VNum timestamp);
        ("model", VStr model);
        ("choices", VArr [VObj
           [("index", VNum 0);
            ("delta", VObj [("content", VStr chunk);
                            ("reasoning_content", VNull)]);
            ("finish_reason", VNull)]])].

Definition finalChunk (messageId : string) (timestamp : Z) (model : string) : value :=
  VObj [("id", VStr messageId);
        ("object", VStr "chat.completion.chunk");
        ("created", VNum timestamp);
        ("model", VStr model);
        ("choices", VArr [VObj
           [("index", VNum 0);
            ("delta", VObj [("content", VStr EmptyString);
                            ("reasoning_content", VNull)]);
            ("finish_reason", VStr "stop")]]);
        ("usage", VObj [("prompt_tokens", VNum 0);
                        ("completion_tokens", VNum 0);
                        ("total_tokens", VNum 0)])].

(** [formatStreamResponse(response, model)]. [messageId] and
    [timestamp] stand for [uuidv4()] and the clock. A [null] content
    makes [text.split] throw; the chunk size is the literal 10. *)
Definition formatStreamResponse (messageId : string) (timestamp : Z)
    (response : CompletionResult) (model : string) : result (list value) :=
  let first := [roleChunk messageId timestamp model response] in
  let reasoningChunks :=
    if hasReasoning response
    then default [] (splitIntoChunks (default EmptyString (reasoning response)) 10)
    else [] in
  match content response with
  | None => Throw "Cannot read properties of null (reading 'split')"
  | Some text =>
      let contentChunks := default [] (splitIntoChunks text 10) in
      Ok (first
          ++ map (reasoningChunk messageId timestamp model) reasoningChunks
          ++ map (contentChunk messageId timestamp model) contentChunks
          ++ [finalChunk messageId timestamp model])
  end.

(** [formatNonStreamResponse(response, model)] *)
Definition formatNonStreamResponse (messageId : string) (timestamp : Z)
    (response : CompletionResult) (model : string) : value :=
  let message :=
    [("role", VStr "assistant");
     ("content", match content response with Some c => VStr c | None => VNull end)]
    ++ (if hasReasoning response
        then [("reasoning_content", VStr (default EmptyString (reasoning response)))]
        else []) in
  VObj [("id", VStr messageId);
        ("object", VStr "chat.completion");
        ("created", VNum timestamp);
        ("model", VStr model);
        ("choices", VArr [VObj
           [("index", VNum 0);
            ("message", VObj message);
            ("finish_reason", VStr "stop")]]);
        ("usage", VObj [("prompt_tokens", VNum 0);
                        ("completion_tokens", VNum 0);
                        ("total_tokens", VNum 0)])].

(** *** sendToBrowser and waitForResponse *)

(** The temperature block of [sendToBrowser]: whenever the request
    carries a temperature and the page has the control, the value is
    written. *)
Definition setTemperature (temperature : option Q)
    (input : option TemperatureInput) : option TemperatureInput :=
  match temperature, input with
  | Some t, Some control => Some (writeTemperature t control)
  | _, _ => input
  end.

(** One test of the [while] condition of [waitForResponse]: the clock
    and, should the body run, what the three [page.evaluate] calls
    give. *)
Record Poll : Type := mkPoll {
  clock : Z;
  hasResponse : result bool;                (* a [.copyres] element exists *)
  responseText : result (option string);    (* the first [.response], without its copy button, trimmed *)
  reasoningContent : result (option string) (* the [.responseReasoning] text, trimmed *)
}.

Definition timeout : Z := 60000.

(** [waitForResponse(page, timeout = 60000)]; an exception inside the
    loop body is caught and the loop goes on. [None] when the list of
    polls ends before the clock reaches the deadline. *)
Fixpoint waitForResponse (startTime : Z) (polls : list Poll)
    : option (result CompletionResult) :=
  match polls with
  | [] => None
  | p :: rest =>
      if clock p - startTime <? timeout then
        match hasResponse p with
        | Ok true =>
            match responseText p, reasoningContent p with
            | Ok text, Ok reason => Some (Ok (mkCompletion text reason))
            | _, _ => waitForResponse startTime rest
            end
        | _ => waitForResponse startTime rest
        end
      else Some (Throw "Response timeout")
  end.

(** The page of one [sendToBrowser] call. *)
Record Browser : Type := mkBrowser {
  navigate : result unit;      (* initBrowser, newPage, goto, select *)
  temperatureInput : option TemperatureInput;
  probe : result unit;         (* the page.evaluate of the temperature block *)
  send : result unit;          (* type, click *)
  startTime : Z;
  polls : list Poll
}.

(** What [sendToBrowser] leaves: its result ([None] when the list of
    polls is too short for [waitForResponse]) and the temperature
    control of the page. *)
Record Sent : Type := mkSent {
  answer : option (result CompletionResult);
  controlAfter : option TemperatureInput
}.

(** [sendToBrowser(modelGroup, modelId, messages, temperature)] *)
Definition sendToBrowser (b : Browser) (temperature : option Q) : Sent :=
  match navigate b with
  | Throw e => mkSent (Some (Throw e)) (temperatureInput b)
  | Ok _ =>
      match (match temperature with Some _ => probe b | None => Ok tt end) with
      | Throw e => mkSent (Some (Throw e)) (temperatureInput b)
      | Ok _ =>
          let control := setTemperature temperature (temperatureInput b) in
          match send b with
          | Throw e => mkSent (Some (Throw e)) control
          | Ok _ => mkSent (waitForResponse (startTime b) (polls b)) control
          end
      end
  end.

(** *** processChat *)

(** What [processChat] returns: the chunk array of a streaming
    request, or the response object. *)
Inductive ChatOutput : Type :=
| Chunks (chunks : list value)
| Response (response : value).

(** [findModelGroup] followed by the test [!modelGroup]. *)
Definition knownGroup (modelId : string) (db : Database.State) : option string :=
  match Database.findModelGroup modelId db with
  | Some g => if JS.truthy g then Some g else None
  | None => None
  end.

(** The lookup of [processChat] for a model id: on a miss,
    [getModelsList(true)] and a second lookup. *)
Definition lookupGroup (cfg : Config) (site : string -> Fetched)
    (clk : ModelManager.Clock) (modelId : string) (db : Database.State)
    : async (Database.State * option string * list Effect) :=
  match knownGroup modelId db with
  | Some g => Settles (db, Some g, [])
  | None =>
      match ModelManager.getModelsList cfg site clk true db with
      | Settles (db', _) => Settles (db', knownGroup modelId db', [CatalogRefresh])
      | Dies => Dies
      end
  end.

(** [processChat(requestBody)]. The process may die in the refresh of
    the lookup. In what is returned, [None] stands for a list of polls
    too short for [waitForResponse]. A request without [model] binds
    [undefined] in both lookups, which then find no row. *)
Definition processChat (cfg : Config) (site : string -> Fetched)
    (clk : ModelManager.Clock) (b : Browser) (messageId : string) (timestamp : Z)
    (req : Request) (db : Database.State)
    : async (Database.State * option (result ChatOutput) * list Effect) :=
  match model req with
  | None =>
      match ModelManager.getModelsList cfg site clk true db with
      | Settles (db', _) =>
          Settles (db', Some (Throw ("Model " +:+ JS.template None +:+ " not found")),
                   [CatalogRefresh])
      | Dies => Dies
      end
  | Some modelId =>
      match lookupGroup cfg site clk modelId db with
      | Dies => Dies
      | Settles (db', None, effects) =>
          Settles (db', Some (Throw ("Model " +:+ JS.template (Some modelId) +:+ " not found")),
                   effects)
      | Settles (db', Some modelGroup, effects) =>
          match messages req with
          | None =>
              Settles (db', Some (Throw "Cannot read properties of undefined (reading 'map')"),
                       effects)
          | Some msgs =>
              let output :=
                match answer (sendToBrowser b (temperature req)) with
                | None => None
                | Some (Throw e) => Some (Throw e)
                | Some (Ok response) =>
                    if stream req then
                      match formatStreamResponse messageId timestamp response modelId with
                      | Ok chunks => Some (Ok (Chunks chunks))
                      | Throw e => Some (Throw e)
                      end
                    else Some (Ok (Response
                           (formatNonStreamResponse messageId timestamp response modelId)))
                end in
              Settles (db', output, effects ++ [BrowserAutomation])
          end
      end
  end.

End Chat.

(** ** index.js: the routes of the modular server *)
Module Index.

(** The error chunk of the streaming route. *)
Definition errorChunk (message : string) : value :=
  VObj [("error", VObj [("message", VStr message); ("type", VStr "error")])].

(** [errorHandler] of utils.js, for a plain [Error]: status 500, type
    ['error'], code [null]. *)
Definition errorHandler (message : string) : http_response :=
  mkResponse 500
    (VObj [("error", VObj [("message", VStr (if JS.truthy message then message
                                             else "Internal Server Error"));
                           ("type", VStr "error");
                           ("code", VNull)])]).

(** What the route POST /v1/chat/completions sends, given what
    [processChat] gave (after [authenticateRequest]). *)
Definition chatCompletions (streaming : bool) (processed : result Chat.ChatOutput) : Reply :=
  if streaming then
    EventStream 200
      match processed with
      | Ok (Chat.Chunks chunks) => map Data chunks ++ [DONE]
      | Ok (Chat.Response _) => [Data (errorChunk "chunks is not iterable")]
      | Throw message => [Data (errorChunk message)]
      end
  else
    match processed with
    | Ok (Chat.Chunks chunks) => Json (mkResponse 200 (VArr chunks))
    | Ok (Chat.Response response) => Json (mkResponse 200 response)
    | Throw message => Json (errorHandler message)
    end.

(** The route POST /v1/chat/completions with its call of
    [processChat]; the reply is [None] only when the list of polls is
    too short for [waitForResponse]. *)
Definition postChatCompletions (cfg : Config) (site : string -> Fetched)
    (clk : ModelManager.Clock) (b : Chat.Browser) (messageId : string) (timestamp : Z)
    (req : Request) (db : Database.State)
    : async (Database.State * option Reply * list Effect) :=
  match Chat.processChat cfg site clk b messageId timestamp req db with
  | Settles (db', processed, effects) =>
      Settles (db', chatCompletions (stream req) <$> processed, effects)
  | Dies => Dies
  end.

End Index.

(** ** app.js: the single-file server *)
Module App.

Record ModelRow : Type :=
  mkModelRow { group_name : string; path : string; created_at : Z }.

Record MetaRow : Type := mkMetaRow { meta_created_at : Z; expires_at : Z }.

Record State : Type := mkState {
  models : gmap string ModelRow;
  cache_metadata : gmap string MetaRow
}.

(** What [fetchModelsFromPath] pushes: [{ id, group, path }]. *)
Record Model : Type := mkModel { id : string; group : string; model_path : string }.

(** [fetchModelsFromPath(pathName)]: the options of [#select_model]
    whose [attr('value')] has something in it, under the trimmed
    value; [[]] when the fetch or the parse throws. *)
Definition fetchModelsFromPath (site : string -> Fetched) (pathName : string) : list Model :=
  match site pathName with
  | FetchThrows _ => []
  | Page None => []
  | Page (Some options) =>
      omap (fun o =>
              let value := attrValue o in
              if JS.truthy value && JS.truthy (JS.trim value)
              then Some (mkModel (JS.trim value) (JS.toLowerCase pathName) pathName)
              else None)
           options
  end.

(** [stmt.run(...)] of the prepared
    [INSERT INTO models (id, group_name, path, created_at) VALUES ...]:
    on a taken key the statement fails; [run] was given no callback, so
    the error is emitted on the statement, which has no listener, and
    the process dies. *)
Definition sql_insert (key : string) (row : ModelRow)
    (table : gmap string ModelRow) : async (gmap string ModelRow) :=
  match table !! key with
  | Some _ => Dies
  | None => Settles (<[key := row]> table)
  end.

Fixpoint insertModels (now : Z) (allModels : list Model)
    (table : gmap string ModelRow) : async (gmap string ModelRow) :=
  match allModels with
  | [] => Settles table
  | m :: rest =>
      match sql_insert (id m) (mkModelRow (group m) (model_path m) now) table with
      | Settles table' => insertModels now rest table'
      | Dies => Dies
      end
  end.

(** [fetchAllModels()]; [now] is [Math.floor(Date.now() / 1000)]. *)
Definition fetchAllModels (cfg : Config) (site : string -> Fetched) (now : Z)
    (db : State) : async (State * result (list Model)) :=
  let results := map (fetchModelsFromPath site) (MODEL_PATHS cfg) in
  let allModels := mjoin results in
  if (length allModels =? 0)%nat
  then Settles (db, Throw "No models found from any path")
  else
    let cleared : gmap string ModelRow := ∅ in
    let expiresAt := now + MODEL_CACHE_DAYS cfg * 24 * 60 * 60 in
    match insertModels now allModels cleared with
    | Settles table =>
        Settles ({| models := table;
                    cache_metadata :=
                      <["models" := mkMetaRow now expiresAt]> (cache_metadata db) |},
                 Ok allModels)
    | Dies => Dies
    end.

(** The validity test of [getModels]: [row && row.expires_at > now]. *)
Definition cacheValid (now : Z) (db : State) : bool :=
  match cache_metadata db !! "models" with
  | Some row => expires_at row >? now
  | None => false
  end.

(** [findModelById(modelId)] *)
Definition findModelById (modelId : string) (db : State) : option ModelRow :=
  models db !! modelId.

(** *** simulateBrowserInteraction *)

(** What one pass of the wait loop finds on the page; each probe may
    throw. The two texts are the [textContent] of the last [.response]
    element ([''] when there is none) at the two reads. *)
Record Attempt : Type := mkAttempt {
  copyButton : result bool;          (* page.$('.copyres') *)
  responseText : result string;      (* first page.evaluate *)
  loadingIndicators : result nat;    (* page.$$('.loading, ...').length *)
  tempResponseText : result string   (* second page.evaluate *)
}.

(** The chat page during one interaction: its [#temperature] input
    ([None] when the page has none) and whether each group of
    automation calls returns or throws. *)
Record Browser : Type := mkBrowser {
  navigate : result unit;              (* launch, newPage, goto, waitForSelector (2), select *)
  temperatureInput : option TemperatureInput;
  probe : result unit;                 (* page.$('#temperature'), $eval (2), evaluate *)
  send : result unit;                  (* type, click, waitForSelector('.chatbot-message') *)
  attemptAt : nat -> Attempt
}.

(** [x && x.trim()] *)
Definition hasText (s : string) : bool := JS.truthy s && JS.truthy (JS.trim s).

(** [r.replace(/Copy$/, '').replace(/Copied!$/, '').trim()] *)
Definition clean (r : string) : string :=
  JS.trim (JS.removeSuffix "Copied!" (JS.removeSuffix "Copy" r)).

Inductive Step : Type :=
| Break (response : string)
| Next (response : string).

(** The second half of the loop body, from "Check for loading
    indicators" on. *)
Definition checkLoading (a : Attempt) (response : string) : Step :=
  match loadingIndicators a with
  | Throw _ => Next response
  | Ok n =>
      if (n =? 0)%nat then
        match tempResponseText a with
        | Throw _ => Next response
        | Ok tempResponse =>
            if hasText tempResponse then Break (clean tempResponse)
            else Next response
        end
      else Next response
  end.

(** The body of the [while] loop; [Next] covers both ends of a pass
    that does not break ([attempts++] after the sleep and in the
    [catch]). *)
Definition attemptStep (a : Attempt) (response : string) : Step :=
  match copyButton a with
  | Throw _ => Next response
  | Ok true =>
      match responseText a with
      | Throw _ => Next response
      | Ok r => if hasText r then Break (clean r) else checkLoading a r
      end
  | Ok false => checkLoading a response
  end.

(** Whether a pass of the loop reads a text with something in it: at
    the first read, made when the copy button is there, or at the
    second, made when no loading indicator is. *)
Definition seesText (a : Attempt) : bool :=
  let atSecondRead :=
    match loadingIndicators a, tempResponseText a with
    | Ok n, Ok tempResponse => (n =? 0)%nat && hasText tempResponse
    | _, _ => false
    end in
  match copyButton a with
  | Throw _ => false
  | Ok true =>
      match responseText a with
      | Throw _ => false
      | Ok r => hasText r || atSecondRead
      end
  | Ok false => atSecondRead
  end.

Inductive LoopEnd : Type :=
| Broke (response : string)       (* left by [break] *)
| Exhausted (response : string).  (* attempts reached maxAttempts *)

Definition maxAttempts : nat := 120.

(** [while (attempts < maxAttempts)], on [remaining = maxAttempts - attempts]. *)
Fixpoint waitLoop (page : nat -> Attempt) (remaining attempts : nat)
    (response : string) : LoopEnd :=
  match remaining with
  | O => Exhausted response
  | S remaining' =>
      match attemptStep (page attempts) response with
      | Break r => Broke r
      | Next r => waitLoop page remaining' (S attempts) r
      end
  end.

Definition loopResponse (e : LoopEnd) : string :=
  match e with Broke r => r | Exhausted r => r end.

(** After the loop: [if (!response) throw ...; return response]. *)
Definition afterLoop (e : LoopEnd) : result string :=
  if JS.truthy (loopResponse e) then Ok (loopResponse e)
  else Throw "No response received within timeout period".

(** The temperature block: the request value is written when it is
    defined, within the literal range 0.0 to 2.0, the control exists and
    the value is within [parseFloat(el.min) || 0.0] and
    [parseFloat(el.max) || 2.0]. *)
Definition setTemperature (temperature : option Q)
    (input : option TemperatureInput) : option TemperatureInput :=
  match temperature, input with
  | Some t, Some control =>
      if Qle_bool 0 t && Qle_bool t 2 then
        let minVal := Num.orElse (min_attr control) 0 in
        let maxVal := Num.orElse (max_attr control) 2 in
        if Qle_bool minVal t && Qle_bool t maxVal
        then Some (writeTemperature t control)
        else input
      else input
  | _, _ => input
  end.

(** The guard of the temperature block. *)
Definition probesTemperature (temperature : option Q) : bool :=
  match temperature with
  | Some t => Qle_bool 0 t && Qle_bool t 2
  | None => false
  end.

(** What an interaction leaves: its outcome and the temperature
    control of the page. *)
Record Interaction : Type := mkInteraction {
  outcome : result string;
  controlAfter : option TemperatureInput
}.

(** [simulateBrowserInteraction(modelPath, modelId, temperature,
    formattedMessages, stream)] *)
Definition simulateBrowserInteraction (b : Browser) (temperature : option Q) : Interaction :=
  match navigate b with
  | Throw e => mkInteraction (Throw e) (temperatureInput b)
  | Ok _ =>
      match (if probesTemperature temperature then probe b else Ok tt) with
      | Throw e => mkInteraction (Throw e) (temperatureInput b)
      | Ok _ =>
          let control := setTemperature temperature (temperatureInput b) in
          match send b with
          | Throw e => mkInteraction (Throw e) control
          | Ok _ =>
              mkInteraction (afterLoop (waitLoop (attemptAt b) maxAttempts 0 EmptyString)) control
          end
      end
  end.

(** The text of a pass that leaves the loop: the first read when the
    copy button is there and that read has something in it, else the
    second read. *)
Definition textRead (a : Attempt) : string :=
  let second :=
    match tempResponseText a with
    | Ok tempResponse => tempResponse
    | Throw _ => EmptyString
    end in
  match copyButton a, responseText a with
  | Ok true, Ok r => if hasText r then r else second
  | _, _ => second
  end.

(** *** POST /v1/chat/completions *)

Definition errorBody (message type : string) : value :=
  VObj [("error", VObj [("message", VStr message); ("type", VStr type)])].

Definition initialChunk (responseId : string) (created : Z) (model : string) : value :=
  VObj [("id", VStr responseId);
        ("object", VStr "chat.completion.chunk");
        ("created", VNum created);
        ("model", VStr model);
        ("choices", VArr [VObj
           [("index", VNum 0);
            ("delta", VObj [("role", VStr "assistant"); ("content", VNull)]);
            ("logprobs", VNull);
            ("finish_reason", VNull)]])].

Definition wordChunk (responseId : string) (created : Z) (model : string)
    (payload : string) : value :=
  VObj [("id", VStr responseId);
        ("object", VStr "chat.completion.chunk");
        ("created", VNum created);
        ("model", VStr model);
        ("choices", VArr [VObj
           [("index", VNum 0);
            ("delta", VObj [("content", VStr payload)]);
            ("logprobs", VNull);
            ("finish_reason", VNull)]])].

(** The payloads of the word loop, from index [i] on:
    [(i === 0 ? words[i] : ' ' + words[i])]. *)
Fixpoint wordPayloads (i : nat) (words : list string) : list string :=
  match words with
  | [] => []
  | w :: rest => (if (i =? 0)%nat then w else " " +:+ w) :: wordPayloads (S i) rest
  end.

Definition usage (formattedMessages response : string) : value :=
  VObj [("prompt_tokens", VNum (JS.strlen formattedMessages));
        ("completion_tokens", VNum (JS.strlen response));
        ("total_tokens", VNum (JS.strlen formattedMessages + JS.strlen response))].

Definition finishChunk (responseId : string) (created : Z) (model : string)
    (formattedMessages response : string) : value :=
  VObj [("id", VStr responseId);
        ("object", VStr "chat.completion.chunk");
        ("created", VNum created);
        ("model", VStr model);
        ("choices", VArr [VObj
           [("index", VNum 0);
            ("delta", VObj []);
            ("logprobs", VNull);
            ("finish_reason", VStr "stop")]]);
        ("usage", usage formattedMessages response)].

Definition errorChunk (responseId : string) (created : Z) (model : string)
    (message : string) : value :=
  VObj [("id", VStr responseId);
        ("object", VStr "chat.completion.chunk");
        ("created", VNum created);
        ("model", VStr model);
        ("choices", VArr [VObj
           [("index", VNum 0);
            ("delta", VObj [("content", VStr ("Error: " +:+ message))]);
            ("logprobs", VNull);
            ("finish_reason", VStr "stop")]])].

Definition completionResponse (responseId : string) (created : Z) (model : string)
    (formattedMessages response : string) : value :=
  VObj [("id", VStr responseId);
        ("object", VStr "chat.completion");
        ("created", VNum created);
        ("model", VStr model);
        ("choices", VArr [VObj
           [("index", VNum 0);
            ("message", VObj [("role", VStr "assistant"); ("content", VStr response)]);
            ("finish_reason", VStr "stop")]]);
        ("usage", usage formattedMessages response)].

(** The streaming branch, from [res.writeHead(200, ...)] to [res.end()]. *)
Definition streamingBranch (responseId : string) (created : Z) (model : string)
    (formattedMessages : string) (browserResult : result string) : list sse :=
  Data (initialChunk responseId created model) ::
  match browserResult with
  | Ok response =>
      map (fun payload => Data (wordChunk responseId created model payload))
          (wordPayloads 0 (JS.split " " response))
      ++ [Data (finishChunk responseId created model formattedMessages response); DONE]
  | Throw message =>
      [Data (errorChunk responseId created model message); DONE]
  end.

(** The non-streaming branch. *)
Definition nonStreamingBranch (responseId : string) (created : Z) (model : string)
    (formattedMessages : string) (browserResult : result string) : http_response :=
  match browserResult with
  | Ok response =>
      mkResponse 200 (completionResponse responseId created model formattedMessages response)
  | Throw message => mkResponse 500 (errorBody message "internal_server_error")
  end.

(** The model lookup: [findModelById], and on a miss [fetchAllModels]
    (whose rejection is caught and logged) followed by a second
    lookup. *)
Definition lookupModel (cfg : Config) (site : string -> Fetched) (now : Z)
    (modelId : string) (db : State) : async (State * option ModelRow * list Effect) :=
  match findModelById modelId db with
  | Some info => Settles (db, Some info, [])
  | None =>
      match fetchAllModels cfg site now db with
      | Settles (db', Ok _) => Settles (db', findModelById modelId db', [CatalogRefresh])
      | Settles (db', Throw _) => Settles (db', None, [CatalogRefresh])
      | Dies => Dies
      end
  end.

(** The route handler (after [authMiddleware]). [now], [responseId] and
    [created] stand for the clock and [uuidv4()]. The process may die
    in the refresh of the lookup. *)
Definition chatCompletions (cfg : Config) (site : string -> Fetched) (b : Browser)
    (now : Z) (responseId : string) (created : Z) (req : Request) (db : State)
    : async (State * Reply * list Effect) :=
  match messages req with
  | None | Some [] =>
      Settles (db, Json (mkResponse 400
         (errorBody "Messages array is required and must not be empty"
                    "invalid_request_error")), [])
  | Some msgs =>
      match requestedModel req with
      | None =>
          Settles (db, Json (mkResponse 400
             (errorBody "Model is required" "invalid_request_error")), [])
      | Some modelId =>
          match lookupModel cfg site now modelId db with
          | Dies => Dies
          | Settles (db', None, effects) =>
              Settles (db', Json (mkResponse 400
                 (errorBody ("Model '" +:+ modelId +:+ "' not found")
                            "invalid_request_error")), effects)
          | Settles (db', Some modelInfo, effects) =>
              let formattedMessages := formatMessages msgs in
              let interaction := simulateBrowserInteraction b (temperature req) in
              let reply :=
                if stream req
                then EventStream 200
                       (streamingBranch responseId created modelId
                          formattedMessages (outcome interaction))
                else Json (nonStreamingBranch responseId created modelId
                             formattedMessages (outcome interaction)) in
              Settles (db', reply, effects ++ [BrowserAutomation])
          end
      end
  end.

(** *** getModels and GET /v1/models *)

(** What [getModels] resolves with: the rows of the models table when
    the cache is valid, else the objects [fetchAllModels] resolves
    with. *)
Inductive Listed : Type :=
| Rows (rows : list (string * ModelRow))
| FetchedModels (fetched : list Model).

(** [getModels()]; [now] is [Math.floor(Date.now() / 1000)]. *)
Definition getModels (cfg : Config) (site : string -> Fetched) (now : Z) (db : State)
    : async (State * result Listed * list Effect) :=
  if cacheValid now db
  then Settles (db, Ok (Rows (map_to_list (models db))), [])
  else match fetchAllModels cfg site now db with
       | Settles (db', Ok fetched) =>
           Settles (db', Ok (FetchedModels fetched), [CatalogRefresh])
       | Settles (db', Throw e) => Settles (db', Throw e, [CatalogRefresh])
       | Dies => Dies
       end.

(** The element of [data] the route builds for a model: a row has
    [created_at] and [group_name], a fetched object has neither. *)
Definition listingOfRow (r : string * ModelRow) : value :=
  VObj [("id", VStr r.1);
        ("object", VStr "model");
        ("created", VNum (created_at r.2));
        ("owned_by", VStr (group_name r.2))].

Definition listingOfFetched (m : Model) : value :=
  VObj [("id", VStr (id m));
        ("object", VStr "model");
        ("created", VUndefined);
        ("owned_by", VUndefined)].

(** The route handler of GET /v1/models (after [authMiddleware]). *)
Definition listModels (cfg : Config) (site : string -> Fetched) (now : Z) (db : State)
    : async (State * http_response * list Effect) :=
  match getModels cfg site now db with
  | Settles (db', Ok (Rows rows), effects) =>
      Settles (db', mkResponse 200
                 (VObj [("object", VStr "list"); ("data", VArr (map listingOfRow rows))]),
               effects)
  | Settles (db', Ok (FetchedModels fetched), effects) =>
      Settles (db', mkResponse 200
                 (VObj [("object", VStr "list");
                        ("data", VArr (map listingOfFetched fetched))]),
               effects)
  | Settles (db', Throw _, effects) =>
      Settles (db', mkResponse 500
                 (errorBody "Failed to fetch models" "internal_server_error"),
               effects)
  | Dies => Dies
  end.

End App.

(** ** server.js: the server with a browser-backed catalog *)
Module Server.

Record ModelRow : Type :=
  mkModelRow { group_name : string; created_at : Z; updated_at : Z }.

(** An element of the list [discoverModels] returns:
    [{ id, text, group }]. *)
Record Model : Type := mkModel { id : string; text : string; group : string }.

(** A row of [model_cache]; the stored text is kept as the list it
    serialises. *)
Record CacheRow : Type := mkCacheRow { cache_value : list Model; expires_at : Z }.

Record State : Type := mkState {
  models : gmap string ModelRow;
  model_cache : gmap string CacheRow
}.

(** [option.value] of an option element in the page. *)
Definition optionValue (o : OptionElement) : string := domValue o.

(** The task [discoverModels] runs for one path: the options found are
    written with INSERT OR REPLACE and returned tagged with the group;
    a throw gives [[]]. *)
Definition discoverPath (site : string -> Fetched) (timestamp : Z)
    (table : gmap string ModelRow) (modelPath : string)
    : gmap string ModelRow * list Model :=
  match site modelPath with
  | FetchThrows _ => (table, [])
  | Page select =>
      let modelOptions := default [] select in
      let groupName := JS.toLowerCase modelPath in
      let table' :=
        foldl (fun t o => <[optionValue o := mkModelRow groupName timestamp timestamp]> t)
              table modelOptions in
      (table',
       map (fun o => mkModel (optionValue o) (JS.trim (text_content o)) groupName)
           modelOptions)
  end.

(** The tasks of all paths; their writes are taken in the order of the
    paths. *)
Fixpoint discoverPaths (site : string -> Fetched) (timestamp : Z)
    (paths : list string) (table : gmap string ModelRow)
    : gmap string ModelRow * list (list Model) :=
  match paths with
  | [] => (table, [])
  | p :: rest =>
      let '(table1, found) := discoverPath site timestamp table p in
      let '(table2, results) := discoverPaths site timestamp rest table1 in
      (table2, found :: results)
  end.

(** [discoverModels()]: [results.flat()] *)
Definition discoverModels (cfg : Config) (site : string -> Fetched) (timestamp : Z)
    (db : State) : State * list Model :=
  let '(table, results) := discoverPaths site timestamp (MODEL_PATHS cfg) (models db) in
  ({| models := table; model_cache := model_cache db |}, mjoin results).

(** The cache read of [getModels]:
    SELECT value FROM model_cache WHERE key = ? AND expires_at > ? *)
Definition readCache (cacheKey : string) (now : Z) (db : State) : option (list Model) :=
  match model_cache db !! cacheKey with
  | Some row => if expires_at row >? now then Some (cache_value row) else None
  | None => None
  end.

(** [getModels()]; [now] is [Date.now()]. *)
Definition getModels (cfg : Config) (site : string -> Fetched) (now : Z) (db : State)
    : State * list Model * list Effect :=
  match readCache "model_list" now db with
  | Some cached => (db, cached, [])
  | None =>
      let '(db1, found) := discoverModels cfg site now db in
      let db2 :=
        if (0 <? length found)%nat then
          let expiresAt := now + MODEL_CACHE_DAYS cfg * 24 * 60 * 60 * 1000 in
          {| models := models db1;
             model_cache := <["model_list" := mkCacheRow found expiresAt]> (model_cache db1) |}
        else db1 in
      (db2, found, [CatalogRefresh])
  end.

(** *** The watchers *)

(** A [.response] element of the page. *)
Record ResponseElement : Type :=
  mkResponseElement { textContent : string; hasCopyButton : bool }.

(** [content.replace('Copy', '').replace('Copied!', '').trim()] *)
Definition stripLabels (content : string) : string :=
  JS.trim (JS.removeFirst "Copied!" (JS.removeFirst "Copy" content)).

(** The extractor of [handleNonStreamingResponse]: [null] unless the
    last response element has its copy button. *)
Definition extractCompleted (responses : list ResponseElement) : option string :=
  match last responses with
  | None => None
  | Some lastResponse =>
      if hasCopyButton lastResponse
      then Some (stripLabels (textContent lastResponse))
      else None
  end.

(** The extractor of [handleStreamingResponse]:
    [{ content, isComplete }], or [null] without a response element. *)
Definition extractStreaming (responses : list ResponseElement) : option (string * bool) :=
  match last responses with
  | None => None
  | Some lastResponse =>
      Some (stripLabels (textContent lastResponse), hasCopyButton lastResponse)
  end.

(** One test of the [while] condition of [handleNonStreamingResponse]:
    the clock it reads and, should the body run, what [page.evaluate]
    finds. *)
Record Poll : Type := mkPoll {
  clock : Z;
  page : result (list ResponseElement)
}.

Definition maxWaitTime : Z := 60000.
Definition maxNoChangeCount : Z := 10.

Definition usage (completion : string) : value :=
  VObj [("prompt_tokens", VNum 10);
        ("completion_tokens", VNum (JS.strlen completion));
        ("total_tokens", VNum (10 + JS.strlen completion))].

Definition completionResponse (chatId : string) (created : Z) (model : string)
    (answer : string) : value :=
  VObj [("id", VStr chatId);
        ("object", VStr "chat.completion");
        ("created", VNum created);
        ("model", VStr model);
        ("choices", VArr [VObj
           [("index", VNum 0);
            ("message", VObj [("role", VStr "assistant"); ("content", VStr answer)]);
            ("finish_reason", VStr "stop")]]);
        ("usage", usage answer)].

(** How the polling loop is left. *)
Inductive LoopEnd : Type :=
| Completed (answer : string)      (* the [return res.json(response)] inside the loop *)
| TimedOut (lastContent : string)  (* the loop condition failed *)
| Threw (message : string).        (* page.evaluate threw *)

(** The [while] loop of [handleNonStreamingResponse]; [None] when the
    list of polls ends before the clock reaches the deadline. *)
Fixpoint pollLoop (startTime : Z) (polls : list Poll) (lastContent : string)
    (noChangeCount : Z) : option LoopEnd :=
  match polls with
  | [] => None
  | p :: rest =>
      if clock p - startTime <? maxWaitTime then
        match page p with
        | Throw e => Some (Threw e)
        | Ok responses =>
            match extractCompleted responses with
            | Some responseContent =>
                if JS.truthy responseContent then
                  if String.eqb responseContent lastContent then
                    if noChangeCount + 1 >=? maxNoChangeCount
                    then Some (Completed responseContent)
                    else pollLoop startTime rest lastContent (noChangeCount + 1)
                  else pollLoop startTime rest responseContent 0
                else pollLoop startTime rest lastContent noChangeCount
            | None => pollLoop startTime rest lastContent noChangeCount
            end
        end
      else Some (TimedOut lastContent)
  end.

(** [handleNonStreamingResponse(page, res, model)]: what it sends, or
    the exception it lets through. *)
Definition handleNonStreamingResponse (chatId : string) (created : Z) (model : string)
    (startTime : Z) (polls : list Poll) : option (result http_response) :=
  match pollLoop startTime polls EmptyString 0 with
  | None => None
  | Some (Completed answer) =>
      Some (Ok (mkResponse 200 (completionResponse chatId created model answer)))
  | Some (TimedOut lastContent) =>
      if JS.truthy lastContent
      then Some (Ok (mkResponse 200 (completionResponse chatId created model lastContent)))
      else Some (Ok (mkResponse 500 (VObj [("error", VStr "Response timeout")])))
  | Some (Threw e) => Some (Throw e)
  end.

(** The contents the extractor of [handleNonStreamingResponse] gives
    its loop before the deadline, in order: the non-empty texts of a
    last response element that carries its copy button. *)
Fixpoint extracted (startTime : Z) (polls : list Poll) : list string :=
  match polls with
  | [] => []
  | p :: rest =>
      if clock p - startTime <? maxWaitTime then
        match page p with
        | Ok responses =>
            match extractCompleted responses with
            | Some responseContent =>
                if JS.truthy responseContent
                then responseContent :: extracted startTime rest
                else extracted startTime rest
            | None => extracted startTime rest
            end
        | Throw _ => []
        end
      else []
  end.

(** The text the page shows: that of its last response element, labels
    stripped, whether or not the element has its copy button. *)
Definition shownText (responses : list ResponseElement) : option string :=
  match last responses with
  | Some lastResponse => Some (stripLabels (textContent lastResponse))
  | None => None
  end.

(** The non-empty texts the page shows at the polls of
    [handleNonStreamingResponse] made before the deadline, in order. *)
Fixpoint shown (startTime : Z) (polls : list Poll) : list string :=
  match polls with
  | [] => []
  | p :: rest =>
      if clock p - startTime <? maxWaitTime then
        match page p with
        | Ok responses =>
            match shownText responses with
            | Some text =>
                if JS.truthy text then text :: shown startTime rest
                else shown startTime rest
            | None => shown startTime rest
            end
        | Throw _ => []
        end
      else []
  end.

(** A poll at which the page is read without a throw and its last
    response element, if there is one, has no copy button. *)
Definition withoutCopyButton (p : Poll) : Prop :=
  exists responses,
    page p = Ok responses
    /\ forall lastResponse,
         last responses = Some lastResponse -> hasCopyButton lastResponse = false.

(** *** handleStreamingResponse *)

Definition initialChunk (chatId : string) (created : Z) (model : string) : value :=
  VObj [("id", VStr chatId);
        ("object", VStr "chat.completion.chunk");
        ("created", VNum created);
        ("model", VStr model);
        ("choices", VArr [VObj
           [("index", VNum 0);
            ("delta", VObj [("role", VStr "assistant"); ("content", VNull)]);
            ("finish_reason", VNull)]])].

Definition contentChunk (chatId : string) (created : Z) (model : string)
    (newContent : string) : value :=
  VObj [("id", VStr chatId);
        ("object", VStr "chat.completion.chunk");
        ("created", VNum created);
        ("model", VStr model);
        ("choices", VArr [VObj
           [("index", VNum 0);
            ("delta", VObj [("content", VStr newContent)]);
            ("finish_reason", VNull)]])].

Definition finishChunk (chatId : string) (created : Z) (model : string)
    (lastContent : string) : value :=
  VObj [("id", VStr chatId);
        ("object", VStr "chat.completion.chunk");
        ("created", VNum created);
        ("model", VStr model);
        ("choices", VArr [VObj
           [("index", VNum 0);
            ("delta", VObj []);
            ("finish_reason", VStr "stop")]]);
        ("usage", usage lastContent)].

(** The interval callback, run once per element of [ticks]: the
    callbacks that fire before the 60 s timer does. The empty list is
    that timer ([clearInterval; res.end()]); a throw ends the stream
    the same way. *)
Fixpoint streamLoop (chatId : string) (created : Z) (model : string)
    (ticks : list (result (list ResponseElement)))
    (lastContent : string) (noChangeCount : Z) : list sse :=
  match ticks with
  | [] => []
  | Throw _ :: _ => []
  | Ok responses :: rest =>
      match extractStreaming responses with
      | None => streamLoop chatId created model rest lastContent noChangeCount
      | Some (content, isComplete) =>
          let changed := negb (String.eqb content lastContent) in
          let newContent := JS.dropChars (String.length lastContent) content in
          let writes := changed && JS.truthy newContent in
          let emitted :=
            if writes then [Data (contentChunk chatId created model newContent)] else [] in
          let lastContent' := if writes then content else lastContent in
          let noChangeCount' := if changed then 0 else noChangeCount + 1 in
          if isComplete || (noChangeCount' >=? maxNoChangeCount)
          then emitted ++ [Data (finishChunk chatId created model lastContent'); DONE]
          else emitted ++ streamLoop chatId created model rest lastContent' noChangeCount'
      end
  end.

(** [handleStreamingResponse(page, res, model)]: everything written
    after [res.writeHead(200, ...)]. *)
Definition handleStreamingResponse (chatId : string) (created : Z) (model : string)
    (ticks : list (result (list ResponseElement))) : list sse :=
  Data (initialChunk chatId created model) :: streamLoop chatId created model ticks EmptyString 0.

(** *** handleChatCompletion *)

(** The temperature block: written when the control exists and the
    value is within [parseFloat(el.min)] and [parseFloat(el.max)]. *)
Definition setTemperature (temperature : Q)
    (input : option TemperatureInput) : option TemperatureInput :=
  match input with
  | Some control =>
      if Num.le (min_attr control) (Num.Fin temperature)
         && Num.le (Num.Fin temperature) (max_attr control)
      then Some (writeTemperature temperature control)
      else input
  | None => None
  end.

(** The chat page during one request. *)
Record Browser : Type := mkBrowser {
  prepare : result unit;     (* getPage, setRequestInterception, goto, waitForSelector (3), select *)
  temperatureInput : option TemperatureInput;
  probe : result unit;       (* page.$('#temperature'), $eval (2), evaluate *)
  send : result unit;        (* clear, type, click (3 tries), keyboard fallback *)
  startTime : Z;             (* Date.now() at the start of handleNonStreamingResponse *)
  polls : list Poll;
  ticks : list (result (list ResponseElement))
}.

Definition internalError (details : string) : http_response :=
  mkResponse 500 (VObj [("error", VStr "Internal server error"); ("details", VStr details)]).

(** What the automation leaves: the reply ([None] when the list of
    polls is too short for the non-streaming watcher) and the
    temperature control of the page. *)
Record Driven : Type := mkDriven {
  reply : option Reply;
  controlAfter : option TemperatureInput
}.

(** The automation of [handleChatCompletion], from [getPage] on; a
    throw lands in the [catch] of the handler. *)
Definition driveBrowser (b : Browser) (chatId : string) (created : Z)
    (model : string) (temperature : Q) (stream : bool) : Driven :=
  match prepare b with
  | Throw e => mkDriven (Some (Json (internalError e))) (temperatureInput b)
  | Ok _ =>
      match probe b with
      | Throw e => mkDriven (Some (Json (internalError e))) (temperatureInput b)
      | Ok _ =>
          let control := setTemperature temperature (temperatureInput b) in
          match send b with
          | Throw e => mkDriven (Some (Json (internalError e))) control
          | Ok _ =>
              if stream
              then mkDriven
                     (Some (EventStream 200
                        (handleStreamingResponse chatId created model (ticks b))))
                     control
              else mkDriven
                     match handleNonStreamingResponse chatId created model
                             (startTime b) (polls b) with
                     | None => None
                     | Some (Ok response) => Some (Json response)
                     | Some (Throw e) => Some (Json (internalError e))
                     end
                     control
          end
      end
  end.

(** [models.find(m => m.id === model)] *)
Definition findModel (modelId : string) (listed : list Model) : option Model :=
  find (fun m => String.eqb (id m) modelId) listed.

(** [handleChatCompletion(req, res)] (after [authenticate]); the
    browser is taken to launch, and [temperature] defaults to 0.7.
    [None] only when the list of polls is too short for the
    non-streaming watcher. *)
Definition handleChatCompletion (cfg : Config) (site : string -> Fetched) (b : Browser)
    (now : Z) (chatId : string) (created : Z) (req : Request) (db : State)
    : State * option Reply * list Effect :=
  match messages req, requestedModel req with
  | Some msgs, Some modelId =>
      let '(db', listed, effects) := getModels cfg site now db in
      match findModel modelId listed with
      | None =>
          (db', Some (Json (mkResponse 400
             (VObj [("error", VStr ("Model " +:+ modelId +:+ " not found"))]))), effects)
      | Some modelInfo =>
          (db', reply (driveBrowser b chatId created modelId
                         (default (7 # 10)%Q (temperature req)) (stream req)),
           effects ++ [BrowserAutomation])
      end
  | _, _ =>
      (db, Some (Json (mkResponse 400 (VObj [("error", VStr "Missing required parameters")]))), [])
  end.

(** The page path of a listed model in [handleChatCompletion]:
    [MODEL_PATHS.find(p => p.toLowerCase() === modelInfo.group)] *)
Definition findPath (cfg : Config) (modelInfo : Model) : option string :=
  find (fun p => String.eqb (JS.toLowerCase p) (group modelInfo)) (MODEL_PATHS cfg).

(** *** What the streaming watcher reads *)

(** Whether the page only ever appends to the answer: each content
    the interval callback reads starts with the one read before it
    ([prev] at first). Ticks after a throw are never run. *)
Fixpoint growing (prev : string) (ticks : list (result (list ResponseElement))) : bool :=
  match ticks with
  | [] => true
  | Throw _ :: _ => true
  | Ok responses :: rest =>
      match extractStreaming responses with
      | None => growing prev rest
      | Some (content, _) => JS.startsWith prev content && growing content rest
      end
  end.

(** *** GET /v1/models *)

(** The route handler (after [authenticate]); [created_at] is not a
    property of the listed models, so [created] is the clock of the
    route. [timestamp] is [Math.floor(Date.now() / 1000)]. *)
Definition listModels (cfg : Config) (site : string -> Fetched) (now timestamp : Z)
    (db : State) : State * http_response * list Effect :=
  let '(db', listed, effects) := getModels cfg site now db in
  (db',
   mkResponse 200
     (VObj [("object", VStr "list");
            ("data", VArr (map (fun m =>
               VObj [("id", VStr (id m));
                     ("object", VStr "model");
                     ("created", VNum timestamp);
                     ("owned_by", VStr (group m))]) listed))]),
   effects).

End Server.

(** ** Authentication: app.js, server.js and utils.js *)
Module Auth.

(** [(process.env.AUTH_TOKENS || 'sk-default,sk-none').split(',')] *)
Definition AUTH_TOKENS (env : option string) : list string :=
  JS.split ","
    match env with
    | Some configured => if JS.truthy configured then configured else "sk-default,sk-none"
    | None => "sk-default,sk-none"
    end.

(** What a middleware does: call [next()] or answer. *)
Inductive Verdict : Type :=
| Next
| Reject (response : http_response).

Definition unauthorized (message : string) : Verdict :=
  Reject (mkResponse 401 (VObj [("error", VStr message)])).

(** [isTokenValid(token)]: [AUTH_TOKENS.includes(token)] *)
Definition isTokenValid (tokens : list string) (token : string) : bool :=
  existsb (String.eqb token) tokens.

(** [authMiddleware] of app.js; [authorization] is
    [req.headers.authorization]. *)
Definition authMiddleware (tokens : list string) (authorization : option string) : Verdict :=
  match authorization with
  | None => unauthorized "Missing or invalid authorization header"
  | Some authHeader =>
      if negb (JS.truthy authHeader) || negb (JS.startsWith "Bearer " authHeader)
      then unauthorized "Missing or invalid authorization header"
      else
        let token := JS.dropChars 7 authHeader in
        if isTokenValid tokens token then Next else unauthorized "Invalid token"
  end.

(** [authenticate] of server.js *)
Definition authenticate (tokens : list string) (authorization : option string) : Verdict :=
  match authorization with
  | None => unauthorized "Unauthorized"
  | Some authHeader =>
      if negb (JS.truthy authHeader) || negb (JS.startsWith "Bearer " authHeader)
      then unauthorized "Unauthorized"
      else
        let token := JS.dropChars 7 authHeader in
        if existsb (String.eqb token) tokens then Next else unauthorized "Invalid token"
  end.

(** [authenticateRequest] of utils.js *)
Definition authenticateRequest (tokens : list string) (authorization : option string)
    : Verdict :=
  match authorization with
  | None => unauthorized "Unauthorized"
  | Some authHeader =>
      if negb (JS.truthy authHeader) || negb (JS.startsWith "Bearer " authHeader)
      then unauthorized "Unauthorized"
      else
        let token := JS.dropChars 7 authHeader in
        if existsb (String.eqb token) tokens then Next else unauthorized "Invalid token"
  end.

End Auth.

(** ** Sample inputs *)
Module Samples.

(** A site where only the chatGPT page answers, with one model. *)
Definition oneModelSite (p : string) : Fetched :=
  if String.eqb p "chatGPT"
  then Page (Some [mkOption (Some "gpt-4o") "GPT-4o"])
  else FetchThrows "timeout of 30000ms exceeded".

(** A server.js database left by an earlier refresh that had found the
    model [retired-model]. *)
Definition staleServerDb : Server.State :=
  {| Server.models := {["retired-model" := Server.mkModelRow "chatgpt" 1 1]};
     Server.model_cache := ∅ |}.

(** The same for database.js. *)
Definition staleDatabase : Database.State :=
  {| Database.models := {["retired-model" := Database.mkModelRow "chatgpt" 1 1]};
     Database.cache := ∅ |}.

(** A site where the chatGPT page answers without a model selector and
    every other path throws. *)
Definition noSelectorSite (p : string) : Fetched :=
  if String.eqb p "chatGPT"
  then Page None
  else FetchThrows "timeout of 30000ms exceeded".

(** A site where every path throws. *)
Definition downSite (p : string) : Fetched := FetchThrows "connect ECONNREFUSED".

(** A temperature control that accepts 0 to 1, and one that accepts
    0 to 5. *)
Definition narrowControl : TemperatureInput :=
  mkTemperatureInput (Num.Fin 0) (Num.Fin 1) RemoteDefault.

Definition wideControl : TemperatureInput :=
  mkTemperatureInput (Num.Fin 0) (Num.Fin 5) RemoteDefault.

(** A chat page that shows a loading indicator and nothing else, for
    as long as it is watched. *)
Definition silentAttempt : App.Attempt :=
  App.mkAttempt (Ok false) (Ok EmptyString) (Ok 1%nat) (Ok EmptyString).

Definition silentBrowser : App.Browser :=
  App.mkBrowser (Ok tt) None (Ok tt) (Ok tt) (fun _ => silentAttempt).

(** An app.js database that knows the model [gpt-4o]. *)
Definition appDb : App.State :=
  {| App.models := {["gpt-4o" := App.mkModelRow "chatgpt" "chatGPT" 1]};
     App.cache_metadata := {["models" := App.mkMetaRow 1 604801]} |}.

Definition hello : list Message := [mkMessage "user" "hi"].

Definition streamingRequest : Request := mkRequest (Some hello) (Some "gpt-4o") None true.

(** A page of chat.js on which no copy button ever shows: the second
    clock reading is past the deadline. *)
Definition silentChatBrowser : Chat.Browser :=
  Chat.mkBrowser (Ok tt) None (Ok tt) (Ok tt) 0
    [Chat.mkPoll 500 (Ok false) (Ok None) (Ok None);
     Chat.mkPoll 60000 (Ok false) (Ok None) (Ok None)].

(** A database.js database that knows the model [gpt-4o]. *)
Definition database : Database.State :=
  {| Database.models := {["gpt-4o" := Database.mkModelRow "chatgpt" 1 1]};
     Database.cache := ∅ |}.

(** A server.js database whose cached model list is valid until
    999999 and lists [gpt-4o]. *)
Definition serverDb : Server.State :=
  {| Server.models := ∅;
     Server.model_cache :=
       {["model_list" := Server.mkCacheRow [Server.mkModel "gpt-4o" "GPT-4o" "chatgpt"] 999999]} |}.

Definition idleServerBrowser : Server.Browser :=
  Server.mkBrowser (Ok tt) None (Ok tt) (Ok tt) 0 [] [].

Definition unknownModelRequest : Request := mkRequest (Some hello) (Some "no-such-model") None false.

(** A response element that carries its copy button and 40 characters
    of text, followed by the label of the button. *)
Definition fortyChars : string := "0123456789012345678901234567890123456789".

Definition partialAnswer : list Server.ResponseElement :=
  [Server.mkResponseElement (fortyChars +:+ "Copy") true].

(** The page shows nothing until second 55, then the 40 characters;
    the loop reads the clock past the deadline at second 60. *)
Definition latePolls : list Server.Poll :=
  [Server.mkPoll 500 (Ok []);
   Server.mkPoll 55000 (Ok partialAnswer);
   Server.mkPoll 55500 (Ok partialAnswer);
   Server.mkPoll 60000 (Ok partialAnswer)].

(** A page of chat.js with the control 0 to 1, on which the answer is
    complete at the first poll; a page of app.js with the control 0 to
    5, on which the answer is complete at the first attempt. *)
Definition narrowChatBrowser : Chat.Browser :=
  Chat.mkBrowser (Ok tt) (Some narrowControl) (Ok tt) (Ok tt) 0
    [Chat.mkPoll 500 (Ok true) (Ok (Some "Hello")) (Ok None)].

Definition wideAppBrowser : App.Browser :=
  App.mkBrowser (Ok tt) (Some wideControl) (Ok tt) (Ok tt)
    (fun _ => App.mkAttempt (Ok true) (Ok "HelloCopy") (Ok 0%nat) (Ok "HelloCopy")).

Definition clockAt (t : Z) : ModelManager.Clock := ModelManager.mkClock t t t (t / 1000).

(** A page whose answer grows from "He" to "Hello" and then shows its
    copy button. *)
Definition growingTicks : list (result (list Server.ResponseElement)) :=
  [Ok [];
   Ok [Server.mkResponseElement "He" false];
   Ok [Server.mkResponseElement "Hello" false];
   Ok [Server.mkResponseElement "HelloCopy" true]].

(** A poll of server.js at clock [t] that finds the finished answer
    "Hello", and eleven of them half a second apart. *)
Definition settledPoll (t : Z) : Server.Poll :=
  Server.mkPoll t (Ok [Server.mkResponseElement "HelloCopy" true]).

Definition settledPolls : list Server.Poll :=
  map (fun k => settledPoll (500 * Z.of_nat k)) (seq 1 11).

(** The database of a server.js that has not fetched anything yet. *)
Definition emptyServerDb : Server.State :=
  {| Server.models := ∅; Server.model_cache := ∅ |}.

(** A page of app.js that shows a loading indicator at the first pass
    and, from the second pass on, a response element that holds nothing
    but the label of its copy button. *)
Definition labelOnlyBrowser : App.Browser :=
  App.mkBrowser (Ok tt) None (Ok tt) (Ok tt)
    (fun n => match n with
              | O => silentAttempt
              | S _ => App.mkAttempt (Ok true) (Ok "Copy") (Ok 0%nat) (Ok "Copy")
              end).

(** A non-streaming request for the model [gpt-4o]. *)
Definition plainRequest : Request := mkRequest (Some hello) (Some "gpt-4o") None false.

(** A site where the chatGPT page offers [gpt-4o], the deepseek and the
    qwen pages both offer [shared-model], and every other path throws. *)
Definition sharedModelSite (p : string) : Fetched :=
  if String.eqb p "chatGPT" then Page (Some [mkOption (Some "gpt-4o") "GPT-4o"])
  else if String.eqb p "deepseek" then Page (Some [mkOption (Some "shared-model") "Shared"])
  else if String.eqb p "qwen" then Page (Some [mkOption (Some "shared-model") "Shared"])
  else FetchThrows "timeout of 30000ms exceeded".

(** A site whose chatGPT page offers one model in an option without
    [value] attribute; every other path throws. *)
Definition textOnlySite (p : string) : Fetched :=
  if String.eqb p "chatGPT"
  then Page (Some [mkOption None " GPT-4o mini "])
  else FetchThrows "timeout of 30000ms exceeded".

(** A request without [model]. *)
Definition modelessRequest : Request := mkRequest (Some hello) None None false.

(** The page shows a text that never gets its copy button; the loop
    reads the clock past the deadline at second 60. *)
Definition unfinishedPolls : list Server.Poll :=
  [Server.mkPoll 500 (Ok [Server.mkResponseElement "partial answer" false]);
   Server.mkPoll 59500 (Ok [Server.mkResponseElement "partial answer, longer" false]);
   Server.mkPoll 60000 (Ok [Server.mkResponseElement "partial answer, longer" false])].

End Samples.

(* ===================================================================== *)
(** * Part II: properties *)
(* ===================================================================== *)

(** ** Strings *)
Section StringFacts.

Lemma append_cons (c : ascii) (s t : string) : String c s +:+ t = String c (s +:+ t).
Proof. reflexivity. Qed.

Lemma append_nil (t : string) : EmptyString +:+ t = t.
Proof. reflexivity. Qed.

Lemma append_empty_r (s : string) : s +:+ EmptyString = s.
Proof.
  induction s as [|c s IH]; [reflexivity |].
  now rewrite append_cons, IH.
Qed.

Lemma append_assoc' (a b c : string) : (a +:+ b) +:+ c = a +:+ (b +:+ c).
Proof.
  induction a as [|x a IH]; [reflexivity |].
  now rewrite !append_cons, IH.
Qed.

Lemma split_not_nil (sep : ascii) (s : string) : JS.split sep s <> [].
Proof.
  destruct s as [|c s]; simpl; [discriminate |].
  destruct (Ascii.eqb c sep); [discriminate |].
  destruct (JS.split sep s); discriminate.
Qed.

(** Joining what [split] gave with the separator gives the string back. *)
Lemma join_split (sep : ascii) (s : string) :
  JS.join (String sep EmptyString) (JS.split sep s) = s.
Proof.
  induction s as [|c s IH]; simpl; [reflexivity |].
  destruct (Ascii.eqb_spec c sep) as [-> | Hne].
  - pose proof (split_not_nil sep s) as Hnil.
    destruct (JS.split sep s) as [|w ws]; [congruence |].
    simpl. now rewrite <- IH.
  - pose proof (split_not_nil sep s) as Hnil.
    destruct (JS.split sep s) as [|w ws]; [congruence |].
    rewrite <- IH. destruct ws; reflexivity.
Qed.

Lemma join_cons (sep w : string) (ws : list string) :
  ws <> [] -> JS.join sep (w :: ws) = w +:+ sep +:+ JS.join sep ws.
Proof. destruct ws; [congruence | reflexivity]. Qed.

Lemma join_app (sep : string) (a b : list string) :
  a <> [] -> b <> [] ->
  JS.join sep (a ++ b) = JS.join sep a +:+ sep +:+ JS.join sep b.
Proof.
  intros Ha Hb. induction a as [|w a IH]; [congruence |].
  destruct a as [|w' a].
  - simpl app. now rewrite join_cons.
  - rewrite <- app_comm_cons. rewrite !join_cons by discriminate.
    rewrite IH by discriminate. now rewrite !append_assoc'.
Qed.

Lemma concat_app (a b : list string) :
  JS.concat (a ++ b) = JS.concat a +:+ JS.concat b.
Proof.
  induction a as [|w a IH]; simpl; [reflexivity |].
  now rewrite IH, append_assoc'.
Qed.

Lemma endsWithChar_append (c : ascii) (s : string) :
  JS.endsWithChar c (s +:+ String c EmptyString) = true.
Proof.
  induction s as [|d s IH].
  - simpl. apply Ascii.eqb_refl.
  - rewrite append_cons. simpl.
    destruct (s +:+ String c EmptyString) eqn:E; [destruct s; discriminate | exact IH].
Qed.

End StringFacts.

(** ** The word chunkers *)
Section Chunking.

Lemma splitLoop_done (fuel : nat) (words : list string) (k i : nat) (chunks : list string) :
  (length words <= i)%nat -> Chat.splitLoop fuel words k i chunks = Some chunks.
Proof.
  intros Hi. assert ((i <? length words)%nat = false) as E by (apply Nat.ltb_ge; lia).
  destruct fuel; simpl; now rewrite E.
Qed.

(** The chunks already pushed stay in front of what the loop adds. *)
Lemma splitLoop_acc (fuel : nat) (words : list string) (k i : nat) (chunks : list string) :
  Chat.splitLoop fuel words k i chunks
  = (fun tail => chunks ++ tail) <$> Chat.splitLoop fuel words k i [].
Proof.
  revert i chunks. induction fuel as [|f IH]; intros i chunks; simpl.
  - destruct (i <? length words)%nat; simpl; [reflexivity | now rewrite app_nil_r].
  - destruct (i <? length words)%nat; simpl; [| now rewrite app_nil_r].
    destruct (i + k <? length words)%nat;
      rewrite (IH _ (chunks ++ _)), (IH _ [_]);
      destruct (Chat.splitLoop f words k (i + k) []); simpl; try reflexivity;
      now rewrite <- app_assoc.
Qed.

(** What the loop adds from index [i] on: chunk [j] is the group of
    the [chunkSize] words from [i + j * chunkSize] on, joined with
    spaces, with a space after it unless it is the last group. *)
Lemma splitLoop_spec (fuel : nat) (words : list string) (k i : nat) :
  (0 < k)%nat -> (length words - i <= fuel)%nat ->
  exists tail,
    Chat.splitLoop fuel words k i [] = Some tail
    /\ JS.concat tail = JS.join " " (drop i words)
    /\ (forall j c, tail !! j = Some c ->
          c = JS.join " " (JS.slice words (i + j * k) (i + j * k + k))
              +:+ (if (i + j * k + k <? length words)%nat then " " else EmptyString)).
Proof.
  intros Hk. revert i. induction fuel as [|f IH]; intros i Hfuel.
  - exists []. rewrite splitLoop_done by lia.
    rewrite drop_ge by lia. repeat split. intros j c Hj. now rewrite lookup_nil in Hj.
  - destruct (Nat.ltb_spec i (length words)) as [Hlt | Hge].
    2:{ exists []. rewrite splitLoop_done by lia.
        rewrite drop_ge by lia. repeat split. intros j c Hj. now rewrite lookup_nil in Hj. }
    simpl. apply Nat.ltb_lt in Hlt as E. rewrite E. clear E.
    destruct (Nat.ltb_spec (i + k) (length words)) as [Hmore | Hlast].
    + destruct (IH (i + k)%nat ltac:(lia)) as (tail & Hrun & Hcat & Hgroup).
      rewrite splitLoop_acc, Hrun. simpl.
      eexists. split; [reflexivity |]. split.
      * simpl. rewrite Hcat, append_assoc'.
        unfold JS.slice. replace (i + k - i)%nat with k by lia.
        rewrite <- (take_drop k (drop i words)) at 2.
        rewrite drop_drop.
        rewrite join_app; [reflexivity | |].
        -- intros Hnil. apply (f_equal length) in Hnil.
           rewrite length_take, length_drop in Hnil. simpl in Hnil. lia.
        -- intros Hnil. apply (f_equal length) in Hnil.
           rewrite length_drop in Hnil. simpl in Hnil. lia.
      * intros [|j] c Hj; simpl in Hj.
        -- inversion Hj. rewrite Nat.mul_0_l, Nat.add_0_r.
           apply Nat.ltb_lt in Hmore as ->. reflexivity.
        -- rewrite (Hgroup j c Hj).
           now replace (i + S j * k)%nat with (i + k + j * k)%nat by lia.
    + rewrite splitLoop_done by lia. simpl.
      eexists. split; [reflexivity |]. split.
      * simpl. rewrite append_empty_r.
        unfold JS.slice. replace (i + k - i)%nat with k by lia.
        rewrite take_ge; [reflexivity |]. rewrite length_drop. lia.
      * intros [|j] c Hj; simpl in Hj; [| now rewrite lookup_nil in Hj].
        inversion Hj. rewrite Nat.mul_0_l, Nat.add_0_r.
        apply Nat.ltb_ge in Hlast as ->. now rewrite append_empty_r.
Qed.

(** Every chunk but the last ends with a space. *)
Lemma splitLoop_trailing_space (words : list string) (k i : nat) (tail : list string) :
  (forall j c, tail !! j = Some c ->
     c = JS.join " " (JS.slice words (i + j * k) (i + j * k + k))
         +:+ (if (i + j * k + k <? length words)%nat then " " else EmptyString)) ->
  (forall j, is_Some (tail !! j) -> (i + j * k < length words)%nat) ->
  forall j c, tail !! j = Some c -> (S j < length tail)%nat ->
              JS.endsWithChar " " c = true.
Proof.
  intros Hgroup Hbound j c Hj Hlen.
  rewrite (Hgroup j c Hj).
  assert (is_Some (tail !! S j)) as Hnext by (apply lookup_lt_is_Some; lia).
  apply Hbound in Hnext.
  assert ((i + j * k + k <? length words)%nat = true) as -> by (apply Nat.ltb_lt; lia).
  apply endsWithChar_append.
Qed.

(** Each chunk the loop adds starts inside the word list. *)
Lemma splitLoop_bound (fuel : nat) (words : list string) (k i : nat) (tail : list string) :
  Chat.splitLoop fuel words k i [] = Some tail ->
  forall j, is_Some (tail !! j) -> (i + j * k < length words)%nat.
Proof.
  revert i tail. induction fuel as [|f IH]; intros i tail; simpl.
  - destruct (Nat.ltb_spec i (length words)); [discriminate |].
    intros [= <-] j [c Hc]. now rewrite lookup_nil in Hc.
  - destruct (Nat.ltb_spec i (length words)) as [Hlt | Hge].
    2:{ intros [= <-] j [c Hc]. now rewrite lookup_nil in Hc. }
    rewrite splitLoop_acc.
    destruct (Chat.splitLoop f words k (i + k) []) as [tail' |] eqn:Erun;
      [| now destruct (_ <? _)%nat].
    intros Htail j Hj.
    assert (exists c0, tail = c0 :: tail') as [c0 ->].
    { destruct (_ <? _)%nat; simpl in Htail; inversion Htail; eauto. }
    destruct j as [|j]; [lia |].
    specialize (IH _ _ Erun j Hj). lia.
Qed.

(** The loop never ends for a chunk size of 0: no amount of fuel
    gives a result. *)
Lemma splitLoop_zero_diverges (fuel : nat) (words chunks : list string) :
  words <> [] -> Chat.splitLoop fuel words 0 0 chunks = None.
Proof.
  intros Hne. revert chunks. induction fuel as [|f IH]; intros chunks.
  - destruct words; [congruence | reflexivity].
  - destruct words as [|w ws]; [congruence |].
    simpl. apply IH.
Qed.

Lemma wordPayloads_succ (i : nat) (words : list string) :
  JS.concat (App.wordPayloads (S i) words)
  = match words with [] => EmptyString | _ => " " +:+ JS.join " " words end.
Proof.
  revert i. induction words as [|w ws IH]; intros i; [reflexivity |].
  simpl App.wordPayloads. simpl JS.concat. rewrite IH.
  destruct ws as [|w' ws]; [now rewrite !append_empty_r |].
  rewrite (join_cons _ w) by discriminate. now rewrite !append_assoc'.
Qed.

Lemma wordPayloads_concat (words : list string) :
  JS.concat (App.wordPayloads 0 words) = JS.join " " words.
Proof.
  destruct words as [|w ws]; [reflexivity |].
  simpl App.wordPayloads. simpl JS.concat. rewrite wordPayloads_succ.
  destruct ws as [|w' ws]; [now rewrite append_empty_r |].
  now rewrite (join_cons _ w) by discriminate.
Qed.

End Chunking.

(** ** The streams of the encoders, read back *)
Section Payloads.

Lemma contentPayloads_app (a b : list value) :
  Wire.contentPayloads (a ++ b) = Wire.contentPayloads a ++ Wire.contentPayloads b.
Proof. apply omap_app. Qed.

Lemma payloads_reasoningChunks (messageId : string) (timestamp : Z) (model : string)
    (chunks : list string) :
  Wire.contentPayloads (map (Chat.reasoningChunk messageId timestamp model) chunks) = [].
Proof. induction chunks as [|c cs IH]; [reflexivity | exact IH]. Qed.

Lemma payloads_contentChunks (messageId : string) (timestamp : Z) (model : string)
    (chunks : list string) :
  Wire.contentPayloads (map (Chat.contentChunk messageId timestamp model) chunks) = chunks.
Proof.
  induction chunks as [|c cs IH]; [reflexivity |].
  change (c :: Wire.contentPayloads (map (Chat.contentChunk messageId timestamp model) cs)
          = c :: cs).
  now rewrite IH.
Qed.

Lemma payloads_wordChunks (responseId : string) (created : Z) (model : string)
    (payloads : list string) :
  Wire.contentPayloads
    (Wire.dataChunks (map (fun p => Data (App.wordChunk responseId created model p)) payloads))
  = payloads.
Proof.
  induction payloads as [|c cs IH]; [reflexivity |].
  change (c :: Wire.contentPayloads (Wire.dataChunks
            (map (fun p => Data (App.wordChunk responseId created model p)) cs)) = c :: cs).
  now rewrite IH.
Qed.

Lemma dataChunks_app (a b : list sse) :
  Wire.dataChunks (a ++ b) = Wire.dataChunks a ++ Wire.dataChunks b.
Proof. apply omap_app. Qed.

(** With the chunk size 10 of [formatStreamResponse] the chunker always
    returns. *)
Lemma splitIntoChunks_total (text : string) (k : nat) :
  (0 < k)%nat ->
  exists chunks,
    Chat.splitIntoChunks text k = Some chunks
    /\ JS.concat chunks = text
    /\ (forall j c, chunks !! j = Some c ->
          c = JS.join " " (JS.slice (JS.split " " text) (j * k) (j * k + k))
              +:+ (if (j * k + k <? length (JS.split " " text))%nat then " " else EmptyString))
    /\ (forall j c, chunks !! j = Some c -> (S j < length chunks)%nat ->
                    JS.endsWithChar " " c = true).
Proof.
  intros Hk. unfold Chat.splitIntoChunks.
  destruct (splitLoop_spec (length (JS.split " " text)) (JS.split " " text) k 0 Hk
              ltac:(lia)) as (tail & Hrun & Hcat & Hgroup).
  exists tail. split; [exact Hrun |]. split; [| split].
  - rewrite Hcat. simpl drop. apply (join_split " " text).
  - exact Hgroup.
  - apply (splitLoop_trailing_space (JS.split " " text) k 0); [exact Hgroup |].
    now apply (splitLoop_bound _ _ _ _ _ Hrun).
Qed.

End Payloads.

(** ** The claims about the protocol encoder *)

(** C2. Word-chunking round trip. For every completion text, the
    chunker [splitIntoChunks] returns for every positive chunk size,
    the concatenation of its chunks in order is the text, chunk [j] is
    the group of [chunkSize] words from word [j * chunkSize] on (the
    words being the text split on the space character) joined with
    spaces, and every chunk but the last ends with a space. The content-chunk payloads
    of the stream built by [formatStreamResponse], and those written
    by the streaming branch of app.js, concatenate in order to the
    completion text. *)
Theorem chunk_payloads_concat_to_text (text : string) (chunkSize : nat) :
  (0 < chunkSize)%nat ->
  (exists chunks,
      Chat.splitIntoChunks text chunkSize = Some chunks
      /\ JS.concat chunks = text
      /\ (forall j c, chunks !! j = Some c ->
            c = JS.join " " (JS.slice (JS.split " " text)
                               (j * chunkSize) (j * chunkSize + chunkSize))
                +:+ (if (j * chunkSize + chunkSize <? length (JS.split " " text))%nat
                     then " " else EmptyString))
      /\ (forall j c, chunks !! j = Some c -> (S j < length chunks)%nat ->
                      JS.endsWithChar " " c = true))
  /\ (forall messageId timestamp reasoning model,
        exists stream,
          Chat.formatStreamResponse messageId timestamp
            (mkCompletion (Some text) reasoning) model = Ok stream
          /\ JS.concat (Wire.contentPayloads stream) = text)
  /\ (forall responseId created model formattedMessages,
        JS.concat (Wire.contentPayloads (Wire.dataChunks
          (App.streamingBranch responseId created model formattedMessages (Ok text))))
        = text).
Proof.
  intros Hk. split; [now apply splitIntoChunks_total |]. split.
  - intros messageId timestamp reasoning model.
    destruct (splitIntoChunks_total text 10 ltac:(lia)) as (chunks & Hrun & Hcat & _ & _).
    unfold Chat.formatStreamResponse. cbn [content]. rewrite Hrun. simpl default.
    eexists. split; [reflexivity |].
    rewrite !contentPayloads_app, payloads_reasoningChunks, payloads_contentChunks.
    change (Wire.contentPayloads [Chat.roleChunk messageId timestamp model
              (mkCompletion (Some text) reasoning)]) with (@nil string).
    change (Wire.contentPayloads [Chat.finalChunk messageId timestamp model]) with [EmptyString].
    simpl app. rewrite concat_app. simpl JS.concat.
    now rewrite !append_empty_r.
  - intros responseId created model formattedMessages.
    unfold App.streamingBranch.
    change (Wire.dataChunks (?x :: ?l)) with (Wire.dataChunks ([x] ++ l)).
    rewrite !dataChunks_app, !contentPayloads_app, payloads_wordChunks.
    change (Wire.contentPayloads (Wire.dataChunks
              [Data (App.initialChunk responseId created model)])) with (@nil string).
    change (Wire.contentPayloads (Wire.dataChunks
              [Data (App.finishChunk responseId created model formattedMessages text); DONE]))
      with (@nil string).
    rewrite app_nil_r. simpl app.
    rewrite wordPayloads_concat. apply (join_split " " text).
Qed.

(** The chunker at a sample text and chunk size 2. *)
Lemma chunk_payloads_concat_to_text_witness :
  (0 < 2)%nat
  /\ Chat.splitIntoChunks "a b  c d e" 2 = Some ["a b "; " c "; "d e"]
  /\ JS.concat (Wire.contentPayloads (Wire.dataChunks
       (App.streamingBranch "id" 0 "m" "user:hi" (Ok "a b  c d e")))) = "a b  c d e".
Proof.
  split; [lia |]. split; [reflexivity |].
  exact (proj2 (proj2 (chunk_payloads_concat_to_text "a b  c d e" 2 ltac:(lia)))
           "id" 0 "m" "user:hi").
Defined.

(** ** Usage accounting *)
Section Usage.

Lemma no_usage_consistent (o : value) :
  Obj.has "usage" o = false -> Wire.usageConsistent o.
Proof. intros Hno Hhas. congruence. Qed.

Lemma app_usage_adds_up (formattedMessages response : string) :
  Wire.usageAddsUp (App.usage formattedMessages response).
Proof.
  exists (JS.strlen formattedMessages), (JS.strlen response).
  repeat split; reflexivity.
Qed.

Lemma server_usage_adds_up (completion : string) :
  Wire.usageAddsUp (Server.usage completion).
Proof. exists 10, (JS.strlen completion). repeat split; reflexivity. Qed.

Lemma chat_finalChunk_usage (messageId : string) (timestamp : Z) (model : string) :
  Wire.usageAddsUp (Obj.get "usage" (Chat.finalChunk messageId timestamp model)).
Proof. exists 0, 0. repeat split; reflexivity. Qed.

Lemma chat_nonStream_usage (messageId : string) (timestamp : Z)
    (response : CompletionResult) (model : string) :
  Wire.usageAddsUp
    (Obj.get "usage" (Chat.formatNonStreamResponse messageId timestamp response model)).
Proof. exists 0, 0. repeat split; reflexivity. Qed.

Lemma dataChunks_map (f : string -> value) (l : list string) :
  Wire.dataChunks (map (fun p => Data (f p)) l) = map f l.
Proof. induction l as [|x l IH]; [reflexivity | simpl; now f_equal]. Qed.

Lemma app_stream_usage (responseId : string) (created : Z) (model formattedMessages : string)
    (browserResult : result string) :
  Forall Wire.usageConsistent
    (Wire.dataChunks
       (App.streamingBranch responseId created model formattedMessages browserResult)).
Proof.
  unfold App.streamingBranch.
  change (Wire.dataChunks (?x :: ?l)) with (Wire.dataChunks ([x] ++ l)).
  rewrite dataChunks_app. apply Forall_app. split.
  - repeat constructor. now apply no_usage_consistent.
  - destruct browserResult as [response | message].
    + rewrite dataChunks_app, dataChunks_map. apply Forall_app. split.
      * apply Forall_forall. intros chunk Hin. apply list_elem_of_In, in_map_iff in Hin.
        destruct Hin as (payload & <- & _). now apply no_usage_consistent.
      * repeat constructor. intros _. apply app_usage_adds_up.
    + repeat constructor. now apply no_usage_consistent.
Qed.

Lemma server_stream_usage (chatId : string) (created : Z) (model : string)
    (ticks : list (result (list Server.ResponseElement)))
    (lastContent : string) (noChangeCount : Z) :
  Forall Wire.usageConsistent
    (Wire.dataChunks (Server.streamLoop chatId created model ticks lastContent noChangeCount)).
Proof.
  revert lastContent noChangeCount.
  induction ticks as [|tick rest IH]; intros lastContent noChangeCount; [constructor |].
  destruct tick as [responses | e]; [| constructor].
  simpl. destruct (Server.extractStreaming responses) as [[content isComplete] |]; [| apply IH].
  match goal with
  | |- context [if ?c then ?a ++ ?fin else ?a ++ ?loop] =>
      assert (Forall Wire.usageConsistent (Wire.dataChunks a)) as Hemitted
  end.
  { destruct (_ && _); repeat constructor. now apply no_usage_consistent. }
  destruct (_ || _); rewrite dataChunks_app; apply Forall_app; split; try exact Hemitted.
  - repeat constructor. intros _. apply server_usage_adds_up.
  - apply IH.
Qed.

Lemma chat_stream_usage (messageId : string) (timestamp : Z)
    (response : CompletionResult) (model : string) :
  match Chat.formatStreamResponse messageId timestamp response model with
  | Ok stream => Forall Wire.usageConsistent stream
  | Throw _ => True
  end.
Proof.
  unfold Chat.formatStreamResponse. destruct (content response) as [text |]; [| exact I].
  repeat (apply Forall_app; split).
  - repeat constructor. now apply no_usage_consistent.
  - apply Forall_forall. intros chunk Hin. apply list_elem_of_In, in_map_iff in Hin.
    destruct Hin as (c & <- & _). now apply no_usage_consistent.
  - apply Forall_forall. intros chunk Hin. apply list_elem_of_In, in_map_iff in Hin.
    destruct Hin as (c & <- & _). now apply no_usage_consistent.
  - repeat constructor. intros _. apply chat_finalChunk_usage.
Qed.

Lemma server_nonStream_usage (chatId : string) (created : Z) (model : string)
    (startTime : Z) (polls : list Server.Poll) :
  match Server.handleNonStreamingResponse chatId created model startTime polls with
  | Some (Ok response) => Wire.usageConsistent (body response)
  | _ => True
  end.
Proof.
  unfold Server.handleNonStreamingResponse.
  destruct (Server.pollLoop startTime polls EmptyString 0) as [[answer | lastContent | e] |];
    try exact I.
  - intros _. apply server_usage_adds_up.
  - destruct (JS.truthy lastContent).
    + intros _. apply server_usage_adds_up.
    + now apply no_usage_consistent.
Qed.

End Usage.

(** C10. In every usage object the encoders emit, [total_tokens] is
    [prompt_tokens] plus [completion_tokens]: in the completion
    response and the finish chunk of app.js, in the completion
    responses and the finish chunk of server.js, and in the response
    and the final chunk of chat.js; and every object of the streams
    that carries a usage object carries one that adds up. *)
Theorem usage_total_is_prompt_plus_completion :
  (forall responseId created model formattedMessages response,
      Wire.usageAddsUp (Obj.get "usage"
        (App.completionResponse responseId created model formattedMessages response))
      /\ Wire.usageAddsUp (Obj.get "usage"
        (App.finishChunk responseId created model formattedMessages response)))
  /\ (forall chatId created model answer,
      Wire.usageAddsUp (Obj.get "usage" (Server.completionResponse chatId created model answer))
      /\ Wire.usageAddsUp (Obj.get "usage" (Server.finishChunk chatId created model answer)))
  /\ (forall messageId timestamp response model,
      Wire.usageAddsUp (Obj.get "usage" (Chat.finalChunk messageId timestamp model))
      /\ Wire.usageAddsUp (Obj.get "usage"
           (Chat.formatNonStreamResponse messageId timestamp response model)))
  /\ (forall responseId created model formattedMessages browserResult,
      Forall Wire.usageConsistent (Wire.dataChunks
        (App.streamingBranch responseId created model formattedMessages browserResult)))
  /\ (forall chatId created model ticks,
      Forall Wire.usageConsistent (Wire.dataChunks
        (Server.handleStreamingResponse chatId created model ticks)))
  /\ (forall chatId created model startTime polls,
      match Server.handleNonStreamingResponse chatId created model startTime polls with
      | Some (Ok response) => Wire.usageConsistent (body response)
      | _ => True
      end)
  /\ (forall messageId timestamp response model,
      match Chat.formatStreamResponse messageId timestamp response model with
      | Ok stream => Forall Wire.usageConsistent stream
      | Throw _ => True
      end).
Proof.
  split; [| split; [| split; [| split; [| split; [| split]]]]];
    [| | | | | intros; apply server_nonStream_usage | intros; apply chat_stream_usage].
  - intros. split; apply app_usage_adds_up.
  - intros. split; apply server_usage_adds_up.
  - intros. split; [apply chat_finalChunk_usage | apply chat_nonStream_usage].
  - intros. apply app_stream_usage.
  - intros. unfold Server.handleStreamingResponse.
    change (Wire.dataChunks (?x :: ?l)) with (Wire.dataChunks ([x] ++ l)).
    rewrite dataChunks_app. apply Forall_app. split.
    + repeat constructor. now apply no_usage_consistent.
    + apply server_stream_usage.
Qed.

(** ** The catalog store *)
Section CacheExpiry.

Lemma getCache_spec (db : Database.State) (key : string) (now : Z) (v : value) :
  Database.getCache key now db = Some v
  <-> exists row, Database.cache db !! key = Some row
                  /\ now < Database.expires_at row
                  /\ v = Database.cache_value row.
Proof.
  unfold Database.getCache. split.
  - destruct (Database.cache db !! key) as [row |]; [| discriminate].
    destruct (Z.gtb_spec (Database.expires_at row) now); [| discriminate].
    intros [= <-]. exists row. repeat split. lia.
  - intros (row & -> & Hlt & ->).
    destruct (Z.gtb_spec (Database.expires_at row) now); [reflexivity | lia].
Qed.

Lemma readCache_spec (db : Server.State) (key : string) (now : Z) (cached : list Server.Model) :
  Server.readCache key now db = Some cached
  <-> exists row, Server.model_cache db !! key = Some row
                  /\ now < Server.expires_at row
                  /\ cached = Server.cache_value row.
Proof.
  unfold Server.readCache. split.
  - destruct (Server.model_cache db !! key) as [row |]; [| discriminate].
    destruct (Z.gtb_spec (Server.expires_at row) now); [| discriminate].
    intros [= <-]. exists row. repeat split. lia.
  - intros (row & -> & Hlt & ->).
    destruct (Z.gtb_spec (Server.expires_at row) now); [reflexivity | lia].
Qed.

End CacheExpiry.

(** C7. Cache validity. For every key and every read time [now], the
    cache read of database.js ([getCache]) and the cache read of
    server.js ([getModels]) treat an entry whose [expires_at] is at
    most [now] as absent, and return the value of an entry exactly
    when [now] is strictly before its [expires_at]; this holds for an
    entry written by [setCache] at any earlier or later time, and the
    validity test of app.js does not look at [created_at]. *)
Theorem expired_cache_entry_reads_as_absent :
  (forall (db : Database.State) (key : string) (now : Z) (row : Database.CacheRow),
      Database.cache db !! key = Some row ->
      (Database.expires_at row <= now -> Database.getCache key now db = None)
      /\ (now < Database.expires_at row ->
          Database.getCache key now db = Some (Database.cache_value row)))
  /\ (forall (db : Database.State) (key : string) (now : Z) (v : value),
      Database.getCache key now db = Some v ->
      exists row, Database.cache db !! key = Some row
                  /\ now < Database.expires_at row /\ v = Database.cache_value row)
  /\ (forall (db : Database.State) (key : string) (v : value) (expiresAt now : Z),
      expiresAt <= now ->
      Database.getCache key now (Database.setCache key v expiresAt db) = None)
  /\ (forall (db : Server.State) (key : string) (now : Z) (row : Server.CacheRow),
      Server.model_cache db !! key = Some row ->
      (Server.expires_at row <= now -> Server.readCache key now db = None)
      /\ (now < Server.expires_at row ->
          Server.readCache key now db = Some (Server.cache_value row)))
  /\ (forall (db : App.State) (now created expires : Z),
      App.cache_metadata db !! "models" = Some (App.mkMetaRow created expires) ->
      App.cacheValid now db = (expires >? now)).
Proof.
  split; [| split; [| split; [| split]]].
  - intros db key now row Hrow. split; intros Hcmp.
    + destruct (Database.getCache key now db) as [v |] eqn:E; [| reflexivity].
      apply getCache_spec in E as (row' & Hrow' & Hlt & _).
      rewrite Hrow in Hrow'. inversion Hrow'; subst. lia.
    + apply getCache_spec. now exists row.
  - intros db key now v. apply getCache_spec.
  - intros db key v expiresAt now Hle.
    destruct (Database.getCache key now _) as [v' |] eqn:E; [| reflexivity].
    apply getCache_spec in E as (row & Hrow & Hlt & _).
    simpl in Hrow. rewrite lookup_insert_eq in Hrow. inversion Hrow; subst.
    simpl in Hlt. lia.
  - intros db key now row Hrow. split; intros Hcmp.
    + destruct (Server.readCache key now db) as [v |] eqn:E; [| reflexivity].
      apply readCache_spec in E as (row' & Hrow' & Hlt & _).
      rewrite Hrow in Hrow'. inversion Hrow'; subst. lia.
    + apply readCache_spec. now exists row.
  - intros db now created expires Hrow. unfold App.cacheValid. now rewrite Hrow.
Qed.

(** An entry that expires at 100 is absent when read at 100 and
    present when read at 99. *)
Lemma expired_cache_entry_reads_as_absent_witness :
  let db := Database.setCache "models_updated" (VStr "x") 100 (Database.mkState ∅ ∅) in
  Database.getCache "models_updated" 100 db = None
  /\ Database.getCache "models_updated" 99 db = Some (VStr "x").
Proof.
  intros db.
  pose proof (proj1 expired_cache_entry_reads_as_absent db "models_updated") as H.
  split.
  - apply (proj1 (H 100 (Database.mkCacheRow (VStr "x") 100)
                    ltac:(reflexivity))). simpl. lia.
  - apply (proj2 (H 99 (Database.mkCacheRow (VStr "x") 100)
                    ltac:(reflexivity))). simpl. lia.
Defined.

(** ** Replacing the catalog *)
Section Replace.

(** The prepared INSERT of database.js, run over the fetched list on
    a table. When every statement succeeds, a key already there kept
    its row and a new key got the row of the fetched record that
    carries it. *)
Lemma database_insertModels_lookup (now : Z) (fetched : list Database.Model)
    (table table' : gmap string Database.ModelRow) (i : string) :
  Database.insertModels now fetched table = Settles table' ->
  table' !! i
  = match table !! i with
    | Some row => Some row
    | None =>
        (fun m => Database.mkModelRow (Database.group m) now now)
          <$> List.find (fun m => String.eqb (Database.id m) i) fetched
    end.
Proof.
  revert table. induction fetched as [|m ms IH]; intros table; simpl.
  - intros [= <-]. now destruct (table !! i).
  - unfold Database.sql_insert.
    destruct (table !! Database.id m) eqn:E; [discriminate |].
    intros Hrun. rewrite (IH _ Hrun).
    destruct (String.eqb_spec (Database.id m) i) as [<- | Hne].
    + now rewrite lookup_insert_eq, E.
    + now rewrite lookup_insert_ne.
Qed.

(** Every statement succeeds exactly when the fetched ids are distinct
    and none of them is in the table. *)
Lemma database_insertModels_settles (now : Z) (fetched : list Database.Model)
    (table : gmap string Database.ModelRow) :
  (exists table', Database.insertModels now fetched table = Settles table')
  <-> NoDup (map Database.id fetched)
      /\ (forall m, m ∈ fetched -> table !! Database.id m = None).
Proof.
  revert table. induction fetched as [|m ms IH]; intros table; simpl.
  - split; [| eauto]. intros _. split; [constructor |]. intros m Hm. inversion Hm.
  - unfold Database.sql_insert. destruct (table !! Database.id m) eqn:E.
    + split; [intros [table' H]; discriminate |].
      intros [_ Hfree]. rewrite Hfree in E by left. discriminate.
    + rewrite IH. split.
      * intros [Hnodup Hfree]. split.
        -- constructor; [| exact Hnodup]. intros Hin.
           apply list_elem_of_In, in_map_iff in Hin as (m' & Hid & Hm').
           specialize (Hfree m' ltac:(now apply list_elem_of_In)).
           rewrite Hid, lookup_insert_eq in Hfree. discriminate.
        -- intros m' Hm'. inversion Hm' as [| ? ? ? Hin]; subst; [exact E |].
           specialize (Hfree m' Hin).
           destruct (String.eqb_spec (Database.id m) (Database.id m')) as [Heq | Hne].
           ++ rewrite Heq, lookup_insert_eq in Hfree. discriminate.
           ++ now rewrite lookup_insert_ne in Hfree.
      * intros [Hnodup Hfree]. apply NoDup_cons in Hnodup as [Hfresh Hnodup].
        split; [exact Hnodup |]. intros m' Hm'.
        rewrite lookup_insert_ne; [apply Hfree; now right |].
        intros Heq. apply Hfresh. rewrite Heq.
        apply list_elem_of_In, in_map. now apply list_elem_of_In.
Qed.

Lemma app_insertModels_lookup (now : Z) (fetched : list App.Model)
    (table table' : gmap string App.ModelRow) (i : string) :
  App.insertModels now fetched table = Settles table' ->
  table' !! i
  = match table !! i with
    | Some row => Some row
    | None =>
        (fun m => App.mkModelRow (App.group m) (App.model_path m) now)
          <$> List.find (fun m => String.eqb (App.id m) i) fetched
    end.
Proof.
  revert table. induction fetched as [|m ms IH]; intros table; simpl.
  - intros [= <-]. now destruct (table !! i).
  - unfold App.sql_insert.
    destruct (table !! App.id m) eqn:E; [discriminate |].
    intros Hrun. rewrite (IH _ Hrun).
    destruct (String.eqb_spec (App.id m) i) as [<- | Hne].
    + now rewrite lookup_insert_eq, E.
    + now rewrite lookup_insert_ne.
Qed.

Lemma app_insertModels_settles (now : Z) (fetched : list App.Model)
    (table : gmap string App.ModelRow) :
  (exists table', App.insertModels now fetched table = Settles table')
  <-> NoDup (map App.id fetched)
      /\ (forall m, m ∈ fetched -> table !! App.id m = None).
Proof.
  revert table. induction fetched as [|m ms IH]; intros table; simpl.
  - split; [| eauto]. intros _. split; [constructor |]. intros m Hm. inversion Hm.
  - unfold App.sql_insert. destruct (table !! App.id m) eqn:E.
    + split; [intros [table' H]; discriminate |].
      intros [_ Hfree]. rewrite Hfree in E by left. discriminate.
    + rewrite IH. split.
      * intros [Hnodup Hfree]. split.
        -- constructor; [| exact Hnodup]. intros Hin.
           apply list_elem_of_In, in_map_iff in Hin as (m' & Hid & Hm').
           specialize (Hfree m' ltac:(now apply list_elem_of_In)).
           rewrite Hid, lookup_insert_eq in Hfree. discriminate.
        -- intros m' Hm'. inversion Hm' as [| ? ? ? Hin]; subst; [exact E |].
           specialize (Hfree m' Hin).
           destruct (String.eqb_spec (App.id m) (App.id m')) as [Heq | Hne].
           ++ rewrite Heq, lookup_insert_eq in Hfree. discriminate.
           ++ now rewrite lookup_insert_ne in Hfree.
      * intros [Hnodup Hfree]. apply NoDup_cons in Hnodup as [Hfresh Hnodup].
        split; [exact Hnodup |]. intros m' Hm'.
        rewrite lookup_insert_ne; [apply Hfree; now right |].
        intros Heq. apply Hfresh. rewrite Heq.
        apply list_elem_of_In, in_map. now apply list_elem_of_In.
Qed.

(** [saveModels] of database.js and [fetchAllModels] of app.js start
    from the emptied table: they settle exactly when the ids are
    distinct. *)
Lemma saveModels_settles (cfg : Config) (now : Z) (R : list Database.Model)
    (db : Database.State) :
  (exists db', Database.saveModels cfg now R db = Settles db')
  <-> NoDup (map Database.id R).
Proof.
  unfold Database.saveModels.
  pose proof (database_insertModels_settles now R ∅) as Hiff.
  destruct (Database.insertModels now R ∅) as [table |].
  - split; [| eauto]. intros _. apply Hiff. eauto.
  - split; [intros [db' H]; discriminate |].
    intros Hnodup. destruct (proj2 Hiff) as [table' H]; [| discriminate].
    split; [exact Hnodup |]. intros m _. apply lookup_empty.
Qed.

Lemma saveModels_settled (cfg : Config) (now : Z) (R : list Database.Model)
    (db db' : Database.State) :
  Database.saveModels cfg now R db = Settles db' ->
  Database.insertModels now R ∅ = Settles (Database.models db')
  /\ db' = Database.setCache "models_updated" (VObj [("timestamp", VNum now)])
             (now + MODEL_CACHE_DAYS cfg * 24 * 60 * 60 * 1000)
             {| Database.models := Database.models db'; Database.cache := Database.cache db |}.
Proof.
  unfold Database.saveModels.
  destruct (Database.insertModels now R ∅) as [table |]; [| discriminate].
  intros [= <-]. split; reflexivity.
Qed.

Lemma saveModels_lookup (cfg : Config) (now : Z) (R : list Database.Model)
    (db db' : Database.State) (i : string) :
  Database.saveModels cfg now R db = Settles db' ->
  Database.models db' !! i
  = (fun m => Database.mkModelRow (Database.group m) now now)
      <$> List.find (fun m => String.eqb (Database.id m) i) R.
Proof.
  intros Hrun. apply saveModels_settled in Hrun as [Hrun _].
  now rewrite (database_insertModels_lookup _ _ _ _ i Hrun), lookup_empty.
Qed.

(** The three ways [fetchAllModels] of app.js ends. *)
Lemma app_fetchAllModels_cases (cfg : Config) (site : string -> Fetched) (now : Z)
    (db : App.State) :
  let R := mjoin (map (App.fetchModelsFromPath site) (MODEL_PATHS cfg)) in
  (R = [] /\ App.fetchAllModels cfg site now db
             = Settles (db, Throw "No models found from any path"))
  \/ (R <> [] /\ NoDup (map App.id R)
      /\ exists table,
           App.insertModels now R ∅ = Settles table
           /\ App.fetchAllModels cfg site now db
              = Settles ({| App.models := table;
                            App.cache_metadata :=
                              <["models" := App.mkMetaRow now
                                              (now + MODEL_CACHE_DAYS cfg * 24 * 60 * 60)]>
                                (App.cache_metadata db) |},
                         Ok R))
  \/ (R <> [] /\ ~ NoDup (map App.id R) /\ App.fetchAllModels cfg site now db = Dies).
Proof.
  cbv zeta. unfold App.fetchAllModels.
  destruct (mjoin (map (App.fetchModelsFromPath site) (MODEL_PATHS cfg))) as [|m ms] eqn:ER;
    [left; auto |].
  right. cbn [length Nat.eqb].
  pose proof (app_insertModels_settles now (m :: ms) ∅) as Hiff.
  destruct (App.insertModels now (m :: ms) ∅) as [table |].
  - left. split; [discriminate |]. split; [apply Hiff; eauto |]. eauto.
  - right. split; [discriminate |]. split; [| reflexivity].
    intros Hnodup. destruct (proj2 Hiff) as [table' H]; [| discriminate].
    split; [exact Hnodup |]. intros m' _. apply lookup_empty.
Qed.

Lemma find_id_is_Some {A} (key : A -> string) (l : list A) (i : string) :
  is_Some (List.find (fun m => String.eqb (key m) i) l) <-> i ∈ map key l.
Proof.
  induction l as [|m ms IH]; simpl.
  - split; [intros [x Hx]; discriminate | intros H; inversion H].
  - destruct (String.eqb_spec (key m) i) as [-> | Hne].
    + split; [intros _; left | intros _; eauto].
    + rewrite IH. split; [now right |].
      intros H. inversion H; subst; [congruence | assumption].
Qed.

Lemma find_id_NoDup {A} (key : A -> string) (l : list A) (m : A) :
  NoDup (map key l) -> m ∈ l ->
  List.find (fun x => String.eqb (key x) (key m)) l = Some m.
Proof.
  induction l as [|x xs IH]; intros Hnodup Hin; [inversion Hin |].
  simpl in *. apply NoDup_cons in Hnodup as [Hfresh Hnodup].
  inversion Hin as [| ? ? ? Hin']; subst.
  - now rewrite String.eqb_refl.
  - destruct (String.eqb_spec (key x) (key m)) as [Heq | Hne]; [| now apply IH].
    exfalso. apply Hfresh. rewrite Heq.
    apply list_elem_of_In, in_map. now apply list_elem_of_In.
Qed.

(** The INSERT OR REPLACE statements of one path of [discoverModels]. *)
Lemma server_upserts_other (groupName : string) (timestamp : Z)
    (options : list OptionElement) (table : gmap string Server.ModelRow) (i : string) :
  i ∉ map Server.optionValue options ->
  foldl (fun t o => <[Server.optionValue o
                      := Server.mkModelRow groupName timestamp timestamp]> t)
        table options !! i
  = table !! i.
Proof.
  revert table. induction options as [|o os IH]; intros table Hnot; [reflexivity |].
  cbn [foldl map] in *. rewrite IH.
  - apply lookup_insert_ne. intros Heq. apply Hnot. rewrite Heq. left.
  - intros Hin. apply Hnot. now right.
Qed.

Lemma server_upserts_member (groupName : string) (timestamp : Z)
    (options : list OptionElement) (table : gmap string Server.ModelRow) (i : string) :
  i ∈ map Server.optionValue options ->
  foldl (fun t o => <[Server.optionValue o
                      := Server.mkModelRow groupName timestamp timestamp]> t)
        table options !! i
  = Some (Server.mkModelRow groupName timestamp timestamp).
Proof.
  revert table. induction options as [|o os IH]; intros table Hin; [inversion Hin |].
  cbn [foldl map] in *.
  destruct (decide (i ∈ map Server.optionValue os)) as [Hlater | Hnot].
  - now apply IH.
  - rewrite server_upserts_other by assumption.
    inversion Hin; subst; [apply lookup_insert_eq | contradiction].
Qed.

Lemma discoverPath_ids (site : string -> Fetched) (timestamp : Z)
    (table : gmap string Server.ModelRow) (p : string) :
  map Server.id (Server.discoverPath site timestamp table p).2
  = match site p with
    | FetchThrows _ => []
    | Page select => map Server.optionValue (default [] select)
    end.
Proof.
  unfold Server.discoverPath. destruct (site p) as [e | select]; [reflexivity |].
  simpl. rewrite map_map. reflexivity.
Qed.

Lemma discoverPath_other (site : string -> Fetched) (timestamp : Z)
    (table : gmap string Server.ModelRow) (p i : string) :
  i ∉ map Server.id (Server.discoverPath site timestamp table p).2 ->
  (Server.discoverPath site timestamp table p).1 !! i = table !! i.
Proof.
  rewrite discoverPath_ids. unfold Server.discoverPath.
  destruct (site p) as [e | select]; [reflexivity |].
  simpl. apply server_upserts_other.
Qed.

Lemma discoverPath_member (site : string -> Fetched) (timestamp : Z)
    (table : gmap string Server.ModelRow) (p i : string) :
  i ∈ map Server.id (Server.discoverPath site timestamp table p).2 ->
  is_Some ((Server.discoverPath site timestamp table p).1 !! i).
Proof.
  rewrite discoverPath_ids. unfold Server.discoverPath.
  destruct (site p) as [e | select]; [intros H; inversion H |].
  simpl. intros Hin. eexists. now apply server_upserts_member.
Qed.

Lemma discoverPath_keeps (site : string -> Fetched) (timestamp : Z)
    (table : gmap string Server.ModelRow) (p i : string) :
  is_Some (table !! i) ->
  is_Some ((Server.discoverPath site timestamp table p).1 !! i).
Proof.
  intros Hsome.
  destruct (decide (i ∈ map Server.id (Server.discoverPath site timestamp table p).2)).
  - now apply discoverPath_member.
  - now rewrite discoverPath_other.
Qed.

Lemma discoverPaths_other (site : string -> Fetched) (timestamp : Z)
    (paths : list string) (table : gmap string Server.ModelRow) (i : string) :
  i ∉ map Server.id (mjoin (Server.discoverPaths site timestamp paths table).2) ->
  (Server.discoverPaths site timestamp paths table).1 !! i = table !! i.
Proof.
  revert table. induction paths as [|p ps IH]; intros table; [reflexivity |].
  simpl.
  destruct (Server.discoverPath site timestamp table p) as [table1 found] eqn:E1.
  destruct (Server.discoverPaths site timestamp ps table1) as [table2 results] eqn:E2.
  simpl. rewrite map_app. intros Hnot.
  pose proof (IH table1) as IH1. rewrite E2 in IH1. simpl in IH1.
  rewrite IH1 by (intros H; apply Hnot, elem_of_app; now right).
  pose proof (discoverPath_other site timestamp table p i) as H1.
  rewrite E1 in H1. simpl in H1. apply H1.
  intros H; apply Hnot, elem_of_app; now left.
Qed.

Lemma discoverPaths_keeps (site : string -> Fetched) (timestamp : Z)
    (paths : list string) (table : gmap string Server.ModelRow) (i : string) :
  is_Some (table !! i) ->
  is_Some ((Server.discoverPaths site timestamp paths table).1 !! i).
Proof.
  revert table. induction paths as [|p ps IH]; intros table Hsome; [exact Hsome |].
  simpl.
  pose proof (discoverPath_keeps site timestamp table p i Hsome) as H1.
  destruct (Server.discoverPath site timestamp table p) as [table1 found].
  pose proof (IH table1 H1) as H2.
  destruct (Server.discoverPaths site timestamp ps table1) as [table2 results].
  exact H2.
Qed.

Lemma discoverPaths_member (site : string -> Fetched) (timestamp : Z)
    (paths : list string) (table : gmap string Server.ModelRow) (i : string) :
  i ∈ map Server.id (mjoin (Server.discoverPaths site timestamp paths table).2) ->
  is_Some ((Server.discoverPaths site timestamp paths table).1 !! i).
Proof.
  revert table. induction paths as [|p ps IH]; intros table; [intros H; inversion H |].
  simpl.
  pose proof (discoverPath_member site timestamp table p i) as H1.
  destruct (Server.discoverPath site timestamp table p) as [table1 found].
  pose proof (discoverPaths_keeps site timestamp ps table1 i) as H2.
  pose proof (IH table1) as IH1.
  destruct (Server.discoverPaths site timestamp ps table1) as [table2 results].
  cbn [fst snd mjoin list_join] in *. rewrite map_app, elem_of_app.
  intros [Hin | Hin]; [apply H2, H1, Hin | apply IH1, Hin].
Qed.

End Replace.

(** C4, as amended. A successful refresh through [saveModels] of
    database.js or [fetchAllModels] of app.js leaves in the models
    table exactly the ids of the fetched records [R]: no id absent
    from [R] remains, the ids of [R] are distinct and every record of
    [R] has its row. ([saveModels] completes exactly when the ids of
    [R] are distinct: a repeated id makes its INSERT fail.)
    [discoverModels] of server.js deletes nothing: the rows
    whose id is absent from [R] stay as they were, next to a row for
    each id of [R]; the list server.js caches under [model_list] is
    [R] itself. *)
Theorem catalog_refresh_table_contents :
  (forall cfg now (R : list Database.Model) db db' i,
      Database.saveModels cfg now R db = Settles db' ->
      Database.models db' !! i
      = (fun m => Database.mkModelRow (Database.group m) now now)
          <$> List.find (fun m => String.eqb (Database.id m) i) R)
  /\ (forall cfg now (R : list Database.Model) db db' i,
      Database.saveModels cfg now R db = Settles db' ->
      is_Some (Database.models db' !! i) <-> i ∈ map Database.id R)
  /\ (forall cfg now (R : list Database.Model) db db' m,
      Database.saveModels cfg now R db = Settles db' -> m ∈ R ->
      NoDup (map Database.id R)
      /\ Database.models db' !! Database.id m
         = Some (Database.mkModelRow (Database.group m) now now))
  /\ (forall cfg now (R : list Database.Model) db,
      (exists db', Database.saveModels cfg now R db = Settles db')
      <-> NoDup (map Database.id R))
  /\ (forall cfg site now db db' (R : list App.Model),
      App.fetchAllModels cfg site now db = Settles (db', Ok R) ->
      (forall i,
         App.models db' !! i
         = (fun m => App.mkModelRow (App.group m) (App.model_path m) now)
             <$> List.find (fun m => String.eqb (App.id m) i) R)
      /\ NoDup (map App.id R)
      /\ (forall m, m ∈ R ->
           App.models db' !! App.id m
           = Some (App.mkModelRow (App.group m) (App.model_path m) now)))
  /\ (forall cfg site timestamp db i,
      let refreshed := Server.discoverModels cfg site timestamp db in
      (i ∉ map Server.id refreshed.2 ->
       Server.models refreshed.1 !! i = Server.models db !! i)
      /\ (i ∈ map Server.id refreshed.2 -> is_Some (Server.models refreshed.1 !! i)))
  /\ (forall cfg site now db,
      Server.readCache "model_list" now db = None ->
      let refreshed := Server.getModels cfg site now db in
      refreshed.1.2 <> [] ->
      Server.cache_value <$> (Server.model_cache refreshed.1.1 !! "model_list")
      = Some refreshed.1.2).
Proof.
  split; [| split; [| split; [| split; [| split; [| split]]]]].
  - intros cfg now R db db' i Hrun. now apply (saveModels_lookup cfg now R db).
  - intros cfg now R db db' i Hrun. rewrite (saveModels_lookup cfg now R db db' i Hrun).
    rewrite <- (find_id_is_Some Database.id). apply fmap_is_Some.
  - intros cfg now R db db' m Hrun Hin.
    assert (NoDup (map Database.id R)) as Hnodup
      by (apply (saveModels_settles cfg now R db); eauto).
    split; [exact Hnodup |].
    rewrite (saveModels_lookup cfg now R db db' _ Hrun).
    now rewrite (find_id_NoDup Database.id R m).
  - intros cfg now R db. apply saveModels_settles.
  - intros cfg site now db db' R Hrun.
    destruct (app_fetchAllModels_cases cfg site now db)
      as [[_ H] | [(_ & Hnodup & table & Htable & H) | (_ & _ & H)]];
      rewrite H in Hrun; try discriminate.
    injection Hrun as <- <-. cbn [App.models].
    assert (forall i,
              table !! i
              = (fun m => App.mkModelRow (App.group m) (App.model_path m) now)
                  <$> List.find (fun m => String.eqb (App.id m) i)
                        (mjoin (map (App.fetchModelsFromPath site) (MODEL_PATHS cfg))))
      as Hlookup.
    { intros i. now rewrite (app_insertModels_lookup _ _ _ _ i Htable), lookup_empty. }
    split; [exact Hlookup |]. split; [exact Hnodup |].
    intros m Hin. rewrite Hlookup. now rewrite (find_id_NoDup App.id _ m).
  - intros cfg site timestamp db i refreshed. subst refreshed.
    unfold Server.discoverModels.
    pose proof (discoverPaths_other site timestamp (MODEL_PATHS cfg) (Server.models db) i) as Ho.
    pose proof (discoverPaths_member site timestamp (MODEL_PATHS cfg) (Server.models db) i) as Hm.
    destruct (Server.discoverPaths site timestamp (MODEL_PATHS cfg) (Server.models db))
      as [table results].
    simpl in *. split; assumption.
  - intros cfg site now db Hmiss refreshed. subst refreshed.
    unfold Server.getModels. rewrite Hmiss.
    destruct (Server.discoverModels cfg site now db) as [db1 found].
    simpl. intros Hne.
    destruct found as [|m ms]; [congruence |].
    simpl. now rewrite lookup_insert_eq.
Qed.

(** C4, counterexample to the claim as stated: after a refresh of
    server.js that finds only [gpt-4o], the models table still holds
    the row of [retired-model], which the refresh did not find. *)
Lemma catalog_refresh_keeps_stale_row :
  let refreshed :=
    Server.discoverModels default_config Samples.oneModelSite 1000 Samples.staleServerDb in
  map Server.id refreshed.2 = ["gpt-4o"]
  /\ is_Some (Server.models Samples.staleServerDb !! "retired-model")
  /\ ("retired-model" ∉ map Server.id refreshed.2)
  /\ Server.models refreshed.1 !! "retired-model" = Some (Server.mkModelRow "chatgpt" 1 1).
Proof.
  assert (map Server.id
            (Server.discoverModels default_config Samples.oneModelSite 1000
               Samples.staleServerDb).2 = ["gpt-4o"]) as E by reflexivity.
  cbv zeta. rewrite E. split; [reflexivity |]. split; [eexists; reflexivity |]. split.
  - intros H. inversion H as [| ? ? ? H']; subst. inversion H'.
  - reflexivity.
Qed.

(** The same inputs through the amended statement: the stale row of
    server.js stays, the one of database.js goes. *)
Lemma catalog_refresh_table_contents_witness :
  Server.models
    (Server.discoverModels default_config Samples.oneModelSite 1000 Samples.staleServerDb).1
    !! "retired-model"
  = Server.models Samples.staleServerDb !! "retired-model"
  /\ exists db',
       Database.saveModels default_config 1000
         [Database.mkModel "gpt-4o" "chatgpt"] Samples.staleDatabase = Settles db'
       /\ Database.models db' !! "retired-model" = None.
Proof.
  split.
  - apply (proj1 (proj1 (proj2 (proj2 (proj2 (proj2 (proj2 catalog_refresh_table_contents)))))
                    default_config Samples.oneModelSite 1000 Samples.staleServerDb
                    "retired-model")).
    intros H. vm_compute in H. inversion H as [| ? ? ? H']; subst. inversion H'.
  - eexists. split; [reflexivity |].
    now rewrite (proj1 catalog_refresh_table_contents default_config 1000
                   [Database.mkModel "gpt-4o" "chatgpt"] Samples.staleDatabase _
                   "retired-model" eq_refl).
Defined.

(** ** Refreshing the catalog *)
Section Refresh.

Variable site : string -> Fetched.

(** Leaving out the paths that contribute nothing does not change the
    union. *)
Lemma union_skips_failing {A} (fetch : string -> list A) (paths : list string) :
  (forall p, fails site p = true -> fetch p = []) ->
  mjoin (map fetch paths)
  = mjoin (map fetch (List.filter (fun p => negb (fails site p)) paths)).
Proof.
  intros Hfail. induction paths as [|p ps IH]; [reflexivity |].
  simpl. destruct (fails site p) eqn:E; simpl.
  - now rewrite (Hfail p E).
  - now rewrite IH.
Qed.

Lemma page_failing_contributes_nothing (p : string) :
  fails site p = true -> ModelManager.fetchModelsFromPage site p = [].
Proof.
  unfold fails, ModelManager.fetchModelsFromPage.
  destruct (site p); [reflexivity | discriminate].
Qed.

Lemma path_failing_contributes_nothing (p : string) :
  fails site p = true -> App.fetchModelsFromPath site p = [].
Proof.
  unfold fails, App.fetchModelsFromPath.
  destruct (site p); [reflexivity | discriminate].
Qed.

Lemma mjoin_nil_iff {A} (ls : list (list A)) :
  mjoin ls = [] <-> Forall (fun l => l = []) ls.
Proof.
  induction ls as [|l ls IH]; simpl.
  - split; [constructor | reflexivity].
  - split.
    + intros H. apply app_eq_nil in H as [-> H]. constructor; [reflexivity | now apply IH].
    + intros H. inversion H; subst. simpl. now apply IH.
Qed.

(** The two ways [fetchAllModels] of app.js settles. *)
Lemma app_fetchAllModels_empty (cfg : Config) (now : Z) (db : App.State) :
  mjoin (map (App.fetchModelsFromPath site) (MODEL_PATHS cfg)) = [] ->
  App.fetchAllModels cfg site now db = Settles (db, Throw "No models found from any path").
Proof. intros H. unfold App.fetchAllModels. now rewrite H. Qed.

Lemma app_fetchAllModels_found (cfg : Config) (now : Z) (db : App.State) :
  mjoin (map (App.fetchModelsFromPath site) (MODEL_PATHS cfg)) <> [] ->
  NoDup (map App.id (mjoin (map (App.fetchModelsFromPath site) (MODEL_PATHS cfg)))) ->
  exists db',
    App.fetchAllModels cfg site now db
    = Settles (db', Ok (mjoin (map (App.fetchModelsFromPath site) (MODEL_PATHS cfg))))
    /\ App.insertModels now (mjoin (map (App.fetchModelsFromPath site) (MODEL_PATHS cfg))) ∅
       = Settles (App.models db')
    /\ App.cache_metadata db'
       = <["models" := App.mkMetaRow now (now + MODEL_CACHE_DAYS cfg * 24 * 60 * 60)]>
           (App.cache_metadata db).
Proof.
  intros Hsome Hnodup.
  destruct (app_fetchAllModels_cases cfg site now db)
    as [[Hnil _] | [(_ & _ & table & Htable & H) | (_ & Hdup & _)]];
    [congruence | | contradiction].
  eexists. split; [exact H |]. split; [exact Htable | reflexivity].
Qed.

End Refresh.

(** C6, as amended. In a catalog refresh a path whose fetch or parse
    throws contributes no model and the other paths are still
    collected: the result is the concatenation, in the order of the
    paths, of what the non-failing paths give. [fetchAllModels] of
    models.js is a total function of the site (it never raises);
    [fetchAllModels] of app.js returns that list whenever some path
    gives a model and the ids collected are distinct. *)
Theorem refresh_isolates_failing_paths (cfg : Config) (site : string -> Fetched) :
  (forall p, fails site p = true ->
             ModelManager.fetchModelsFromPage site p = []
             /\ App.fetchModelsFromPath site p = [])
  /\ ModelManager.fetchAllModels cfg site
     = mjoin (map (ModelManager.fetchModelsFromPage site)
                (List.filter (fun p => negb (fails site p)) (MODEL_PATHS cfg)))
  /\ (forall now db p,
        p ∈ MODEL_PATHS cfg -> App.fetchModelsFromPath site p <> [] ->
        NoDup (map App.id (mjoin (map (App.fetchModelsFromPath site) (MODEL_PATHS cfg)))) ->
        exists db',
          App.fetchAllModels cfg site now db
          = Settles (db',
                     Ok (mjoin (map (App.fetchModelsFromPath site)
                                  (List.filter (fun p => negb (fails site p))
                                     (MODEL_PATHS cfg)))))).
Proof.
  split; [| split].
  - intros p Hp. split;
      [now apply page_failing_contributes_nothing
      | now apply path_failing_contributes_nothing].
  - unfold ModelManager.fetchAllModels.
    apply union_skips_failing, page_failing_contributes_nothing.
  - intros now db p Hin Hsome Hnodup.
    destruct (app_fetchAllModels_found site cfg now db) as (db' & Hrun & _).
    + intros Hnil. apply mjoin_nil_iff in Hnil.
      rewrite Forall_forall in Hnil. apply Hsome, Hnil.
      apply list_elem_of_In, in_map. now apply list_elem_of_In.
    + exact Hnodup.
    + exists db'. rewrite Hrun. do 3 f_equal.
      apply union_skips_failing, path_failing_contributes_nothing.
Qed.

(** C6, counterexample to the claim as stated: the chatGPT page is
    fetched and parsed without a throw (it has no model selector),
    every other path throws, and [fetchAllModels] of app.js raises. *)
Lemma refresh_raises_though_a_path_succeeds :
  fails Samples.noSelectorSite "chatGPT" = false
  /\ "chatGPT" ∈ MODEL_PATHS default_config
  /\ App.fetchAllModels default_config Samples.noSelectorSite 1000 (App.mkState ∅ ∅)
     = Settles (App.mkState ∅ ∅, Throw "No models found from any path").
Proof. split; [reflexivity |]. split; [left | reflexivity]. Qed.

(** With eight of the nine paths throwing, the refresh of app.js
    returns the model of the ninth. *)
Lemma refresh_isolates_failing_paths_witness :
  exists db',
    App.fetchAllModels default_config Samples.oneModelSite 1000 (App.mkState ∅ ∅)
    = Settles (db', Ok [App.mkModel "gpt-4o" "chatgpt" "chatGPT"]).
Proof.
  apply (proj2 (proj2 (refresh_isolates_failing_paths default_config Samples.oneModelSite))
           1000 (App.mkState ∅ ∅) "chatGPT"); [left | discriminate |].
  repeat constructor. intros Hin. inversion Hin.
Defined.




(** ** The temperature control *)
Section Temperature.

Lemma Qle_bool_false (x y : Q) : Qle_bool x y = false <-> ~ (x <= y)%Q.
Proof.
  rewrite <- Qle_bool_iff. destruct (Qle_bool x y); split; intros H; congruence.
Qed.






End Temperature.




(** ** The shape of the streams *)
Section Streams.

Lemma closingChunk_end (events : list sse) (final : value) :
  Wire.closingChunk (events ++ [Data final; DONE]) = Some final.
Proof. unfold Wire.closingChunk. now rewrite rev_app_distr. Qed.

Lemma closingChunk_cons_end (e : sse) (events : list sse) (final : value) :
  Wire.closingChunk (e :: events ++ [Data final; DONE]) = Some final.
Proof. apply (closingChunk_end (e :: events)). Qed.


End Streams.




(** ** Looking a model up *)
Section Lookup.

(** The lookup of app.js refreshes exactly when the first lookup
    misses, and once; it settles when the refresh does. *)
Lemma app_lookupModel_miss (cfg : Config) (site : string -> Fetched) (now : Z)
    (modelId : string) (db : App.State) :
  App.findModelById modelId db = None ->
  App.lookupModel cfg site now modelId db
  = match App.fetchAllModels cfg site now db with
    | Settles (db', _) => Settles (db', App.findModelById modelId db', [CatalogRefresh])
    | Dies => Dies
    end.
Proof.
  intros Hmiss. unfold App.lookupModel. rewrite Hmiss.
  destruct (app_fetchAllModels_cases cfg site now db)
    as [[_ H] | [(_ & _ & table & _ & H) | (_ & _ & H)]]; rewrite H; try reflexivity.
  now rewrite Hmiss.
Qed.

Lemma server_getModels_effects (cfg : Config) (site : string -> Fetched) (now : Z)
    (db : Server.State) :
  (Server.getModels cfg site now db).2
  = match Server.readCache "model_list" now db with
    | Some _ => []
    | None => [CatalogRefresh]
    end.
Proof.
  unfold Server.getModels. destruct (Server.readCache "model_list" now db); [reflexivity |].
  now destruct (Server.discoverModels cfg site now db).
Qed.

End Lookup.

(** C3, as amended. In app.js a request with a non-empty message list
    and a model id that the catalog does not hold makes the handler
    refresh the catalog exactly once, over HTTP; when the refresh
    completes (it does whenever the ids it collects are distinct, or
    it collects none) the handler looks the id up again; when the id
    is then absent the request fails with status 400 and [error.type]
    equal to ["invalid_request_error"], no chat page is driven and no
    browser page is opened. In server.js the handler looks the id up
    in the list [getModels] returns, which is refreshed only when the
    cached list is missing or expired: an id absent from that list
    fails with status 400 and the body [{ error: "Model <id> not
    found" }], and no chat page is driven; a browser page is opened
    exactly when the list was refreshed, by the discovery itself. *)
Theorem unknown_model_is_rejected
    (cfg : Config) (site : string -> Fetched) (now : Z) (req : Request) (modelId : string) :
  requestedModel req = Some modelId ->
  (forall b responseId created db m msgs,
      messages req = Some (m :: msgs) ->
      App.findModelById modelId db = None ->
      (NoDup (map App.id (mjoin (map (App.fetchModelsFromPath site) (MODEL_PATHS cfg)))) ->
       exists handled,
         App.chatCompletions cfg site b now responseId created req db = Settles handled)
      /\ forall handled,
           App.chatCompletions cfg site b now responseId created req db = Settles handled ->
           (exists fetched,
              App.fetchAllModels cfg site now db = Settles (handled.1.1, fetched))
           /\ (App.findModelById modelId handled.1.1 = None ->
               handled.2 = [CatalogRefresh]
               /\ existsb (opensBrowserPage AppJs) handled.2 = false
               /\ exists body,
                    handled.1.2 = Json (mkResponse 400 body)
                    /\ Obj.get "type" (Obj.get "error" body) = VStr "invalid_request_error")
           /\ (is_Some (App.findModelById modelId handled.1.1) ->
               handled.2 = [CatalogRefresh; BrowserAutomation]))
  /\ (forall b chatId created db msgs,
      messages req = Some msgs ->
      Server.findModel modelId (Server.getModels cfg site now db).1.2 = None ->
      let handled := Server.handleChatCompletion cfg site b now chatId created req db in
      handled.1.2 = Some (Json (mkResponse 400
                       (VObj [("error", VStr ("Model " +:+ modelId +:+ " not found"))])))
      /\ handled.2 = match Server.readCache "model_list" now db with
                     | Some _ => []
                     | None => [CatalogRefresh]
                     end
      /\ (BrowserAutomation ∉ handled.2)
      /\ existsb (opensBrowserPage ServerJs) handled.2
         = match Server.readCache "model_list" now db with
           | Some _ => false
           | None => true
           end).
Proof.
  intros Hmodel. split.
  - intros b responseId created db m msgs Hmsgs Hmiss.
    unfold App.chatCompletions. rewrite Hmsgs, Hmodel.
    rewrite (app_lookupModel_miss cfg site now modelId db Hmiss). split.
    + intros Hnodup.
      destruct (app_fetchAllModels_cases cfg site now db)
        as [[_ H] | [(_ & _ & table & _ & H) | (_ & Hdup & _)]];
        [rewrite H | rewrite H | contradiction];
        match goal with
        | |- context [App.findModelById modelId ?d] =>
            destruct (App.findModelById modelId d)
        end; eauto.
    + intros handled.
      destruct (App.fetchAllModels cfg site now db) as [[db' fetched] |];
        [| discriminate].
      destruct (App.findModelById modelId db') as [info |] eqn:Efound;
        intros [= <-]; cbn [fst snd].
      * split; [eauto |]. rewrite Efound. split; [discriminate | reflexivity].
      * split; [eauto |]. rewrite Efound. split.
        -- intros _. split; [reflexivity |]. split; [reflexivity |].
           eexists. split; reflexivity.
        -- intros [info Hinfo]. discriminate.
  - intros b chatId created db msgs Hmsgs Hmiss handled. subst handled.
    unfold Server.handleChatCompletion. rewrite Hmsgs, Hmodel.
    pose proof (server_getModels_effects cfg site now db) as Heff.
    destruct (Server.getModels cfg site now db) as [[db' listed] effects].
    cbn [fst snd] in *. rewrite Hmiss. cbn [fst snd]. subst effects.
    split; [reflexivity |]. split; [reflexivity |].
    destruct (Server.readCache "model_list" now db); split; try reflexivity.
    + intros Hin. inversion Hin.
    + intros Hin. apply list_elem_of_singleton in Hin. discriminate.
Qed.

(** C3, counterexample to the claim as stated: server.js holds a valid
    cached list without the requested id. The request is answered 400
    without any catalog refresh, and the error of the body is a string:
    it has no [type]. *)
Lemma unknown_model_without_refresh :
  let handled :=
    Server.handleChatCompletion default_config Samples.oneModelSite
      Samples.idleServerBrowser 1000 "chatcmpl-1" 1 Samples.unknownModelRequest
      Samples.serverDb in
  Server.findModel "no-such-model" [Server.mkModel "gpt-4o" "GPT-4o" "chatgpt"] = None
  /\ handled.2 = []
  /\ exists body,
       handled.1.2 = Some (Json (mkResponse 400 body))
       /\ Obj.get "error" body = VStr "Model no-such-model not found"
       /\ Obj.get "type" (Obj.get "error" body) = VUndefined.
Proof.
  cbv zeta. split; [reflexivity |]. split; [vm_compute; reflexivity |].
  eexists. split; [vm_compute; reflexivity |]. split; reflexivity.
Qed.

(** The same request to app.js, with the model absent from the catalog
    and from the site: one refresh, status 400, no automation. *)
Lemma unknown_model_is_rejected_witness :
  exists handled,
    App.chatCompletions default_config Samples.oneModelSite Samples.silentBrowser
      1000 "chatcmpl-1" 1 Samples.unknownModelRequest Samples.appDb = Settles handled
    /\ handled.2 = [CatalogRefresh]
    /\ exists body,
         handled.1.2 = Json (mkResponse 400 body)
         /\ Obj.get "type" (Obj.get "error" body) = VStr "invalid_request_error".
Proof.
  destruct (proj1 (unknown_model_is_rejected default_config Samples.oneModelSite 1000
                     Samples.unknownModelRequest "no-such-model" eq_refl)
              Samples.silentBrowser "chatcmpl-1" 1 Samples.appDb
              (mkMessage "user" "hi") [] eq_refl eq_refl) as [Hsettles Hhandled].
  destruct Hsettles as [handled Hrun].
  { repeat constructor. intros Hin. inversion Hin. }
  exists handled. split; [exact Hrun |].
  destruct (Hhandled handled Hrun) as (_ & Hmiss & _).
  destruct Hmiss as (Heffects & _ & Hbody).
  { vm_compute in Hrun. injection Hrun as <-. reflexivity. }
  auto.
Defined.

(** ** Timeouts of the watchers *)
Section Timeouts.

Lemma last_cons_default {A} (d x : A) (l : list A) :
  default d (last (x :: l)) = default x (last l).
Proof. rewrite last_cons. now destruct (last l). Qed.

Lemma extracted_truthy (startTime : Z) (polls : list Server.Poll) :
  Forall (fun c => JS.truthy c = true) (Server.extracted startTime polls).
Proof.
  induction polls as [|p rest IH]; simpl; [constructor |].
  destruct (_ <? _); [| constructor].
  destruct (Server.page p) as [responses | e]; [| constructor].
  destruct (Server.extractCompleted responses) as [c |]; [| exact IH].
  destruct (JS.truthy c) eqn:E; [| exact IH]. now constructor.
Qed.

(** When the loop is left through its condition, [lastContent] is the
    last content it saw, or what it held at the start. *)
Lemma pollLoop_timed_out (startTime : Z) (polls : list Server.Poll)
    (lastContent0 : string) (noChangeCount : Z) (lastContent : string) :
  Server.pollLoop startTime polls lastContent0 noChangeCount
  = Some (Server.TimedOut lastContent) ->
  lastContent = default lastContent0 (last (Server.extracted startTime polls)).
Proof.
  revert lastContent0 noChangeCount.
  induction polls as [|p rest IH]; intros lastContent0 noChangeCount; simpl;
    [discriminate |].
  destruct (_ <? _); [| now intros [= <-]].
  destruct (Server.page p) as [responses | e]; [| discriminate].
  destruct (Server.extractCompleted responses) as [c |]; [| apply IH].
  destruct (JS.truthy c); [| apply IH].
  rewrite last_cons_default.
  destruct (String.eqb_spec c lastContent0) as [-> | Hne].
  - destruct (_ >=? _); [discriminate | apply IH].
  - apply IH.
Qed.

(** The loop ends as soon as the clock is read past the deadline. *)
Lemma pollLoop_returns (startTime : Z) (polls : list Server.Poll)
    (lastContent0 : string) (noChangeCount : Z) :
  Exists (fun p => Server.maxWaitTime <= Server.clock p - startTime) polls ->
  is_Some (Server.pollLoop startTime polls lastContent0 noChangeCount).
Proof.
  intros Hdeadline. revert lastContent0 noChangeCount.
  induction Hdeadline as [p rest Hp | p rest _ IH]; intros lastContent0 noChangeCount; simpl.
  - destruct (Z.ltb_spec (Server.clock p - startTime) Server.maxWaitTime); [lia | eauto].
  - destruct (_ <? _); [| eauto].
    destruct (Server.page p) as [responses | e]; [| eauto].
    destruct (Server.extractCompleted responses) as [c |]; [| apply IH].
    destruct (JS.truthy c); [| apply IH].
    destruct (String.eqb c lastContent0); [| apply IH].
    destruct (_ >=? _); [eauto | apply IH].
Qed.

(** A pass of the loop of app.js breaks exactly when it reads a text
    with something in it. *)
Lemma attemptStep_next_iff (a : App.Attempt) (response : string) :
  (exists r, App.attemptStep a response = App.Next r) <-> App.seesText a = false.
Proof.
  unfold App.attemptStep, App.seesText, App.checkLoading.
  repeat match goal with
         | |- context [match ?x with _ => _ end] => destruct x; simpl
         end;
    split; intros H;
    first [ reflexivity
          | discriminate
          | match type of H with ex _ => destruct H as [r' H]; discriminate end
          | eauto ].
Qed.

Lemma waitLoop_exhausted (page : nat -> App.Attempt) (remaining attempts : nat)
    (response r : string) :
  App.waitLoop page remaining attempts response = App.Exhausted r ->
  forall n, (attempts <= n < attempts + remaining)%nat -> App.seesText (page n) = false.
Proof.
  revert attempts response.
  induction remaining as [|k IH]; intros attempts response Hrun n Hn; [lia |].
  simpl in Hrun.
  destruct (App.attemptStep (page attempts) response) as [r' | r'] eqn:Estep;
    [discriminate |].
  destruct (Nat.eq_dec n attempts) as [-> | Hne].
  - apply (attemptStep_next_iff _ response). eauto.
  - apply (IH _ _ Hrun). lia.
Qed.

End Timeouts.

(** ** The watcher of chat.js *)
Section ChatWatcher.

Variable startTime : Z.

Lemma waitForResponse_ok (polls : list Chat.Poll) (r : CompletionResult) :
  Chat.waitForResponse startTime polls = Some (Ok r) ->
  exists p, p ∈ polls
            /\ Chat.clock p - startTime < Chat.timeout
            /\ Chat.hasResponse p = Ok true
            /\ Chat.responseText p = Ok (content r)
            /\ Chat.reasoningContent p = Ok (reasoning r).
Proof.
  induction polls as [|p rest IH]; simpl; [discriminate |].
  destruct (Z.ltb_spec (Chat.clock p - startTime) Chat.timeout) as [Hclock |];
    [| discriminate].
  assert (Chat.waitForResponse startTime rest = Some (Ok r) ->
          exists q, q ∈ p :: rest
                    /\ Chat.clock q - startTime < Chat.timeout
                    /\ Chat.hasResponse q = Ok true
                    /\ Chat.responseText q = Ok (content r)
                    /\ Chat.reasoningContent q = Ok (reasoning r)) as Hlater.
  { intros H. destruct (IH H) as (q & Hq & Hrest). exists q. split; [now right | exact Hrest]. }
  destruct (Chat.hasResponse p) as [[|] | e] eqn:Ehas; try exact Hlater.
  destruct (Chat.responseText p) as [text | e] eqn:Etext; [| exact Hlater].
  destruct (Chat.reasoningContent p) as [reason | e] eqn:Ereason; [| exact Hlater].
  intros [= <-]. exists p. split; [left |]. auto.
Qed.

Lemma waitForResponse_throw (polls : list Chat.Poll) (message : string) :
  Chat.waitForResponse startTime polls = Some (Throw message) ->
  message = "Response timeout"
  /\ Exists (fun p => Chat.timeout <= Chat.clock p - startTime) polls.
Proof.
  induction polls as [|p rest IH]; simpl; [discriminate |].
  destruct (Z.ltb_spec (Chat.clock p - startTime) Chat.timeout) as [Hclock | Hclock].
  - assert (Chat.waitForResponse startTime rest = Some (Throw message) ->
            message = "Response timeout"
            /\ Exists (fun q => Chat.timeout <= Chat.clock q - startTime) (p :: rest))
      as Hlater.
    { intros H. destruct (IH H) as [-> Hex]. split; [reflexivity | now right]. }
    destruct (Chat.hasResponse p) as [[|] | e]; try exact Hlater.
    destruct (Chat.responseText p) as [text | e]; [| exact Hlater].
    destruct (Chat.reasoningContent p) as [reason | e]; [discriminate | exact Hlater].
  - intros [= <-]. split; [reflexivity | now left].
Qed.

Lemma waitForResponse_returns (polls : list Chat.Poll) :
  Exists (fun p => Chat.timeout <= Chat.clock p - startTime) polls ->
  is_Some (Chat.waitForResponse startTime polls).
Proof.
  induction 1 as [p rest Hp | p rest _ IH]; simpl.
  - destruct (Z.ltb_spec (Chat.clock p - startTime) Chat.timeout); [lia | eauto].
  - destruct (_ <? _); [| eauto].
    destruct (Chat.hasResponse p) as [[|] | e]; try exact IH.
    destruct (Chat.responseText p) as [text | e]; [| exact IH].
    destruct (Chat.reasoningContent p) as [reason | e]; [eauto | exact IH].
Qed.

End ChatWatcher.

(** ** The wait loop of app.js *)
Section AppWaitLoop.

(** A pass that reads a text with something in it leaves the loop with
    that text, cleaned. *)
Lemma attemptStep_break (a : App.Attempt) (response : string) :
  App.seesText a = true ->
  App.attemptStep a response = App.Break (App.clean (App.textRead a))
  /\ App.hasText (App.textRead a) = true.
Proof.
  unfold App.attemptStep, App.seesText, App.checkLoading, App.textRead.
  destruct (App.copyButton a) as [[|] | e]; try discriminate.
  - destruct (App.responseText a) as [r | e]; [| discriminate].
    destruct (App.hasText r) eqn:Er; [auto |]. simpl.
    destruct (App.loadingIndicators a) as [n | e]; [| discriminate].
    destruct (App.tempResponseText a) as [t | e]; [| discriminate].
    destruct (n =? 0)%nat; [| discriminate]. simpl.
    intros Ht. rewrite Ht. auto.
  - destruct (App.loadingIndicators a) as [n | e]; [| discriminate].
    destruct (App.tempResponseText a) as [t | e]; [| discriminate].
    destruct (n =? 0)%nat; [| discriminate]. simpl.
    intros Ht. rewrite Ht. auto.
Qed.

(** The loop is left at the first pass that reads such a text. *)
Lemma waitLoop_breaks (page : nat -> App.Attempt) (remaining attempts n : nat)
    (response : string) :
  (attempts <= n < attempts + remaining)%nat ->
  (forall m, (attempts <= m < n)%nat -> App.seesText (page m) = false) ->
  App.seesText (page n) = true ->
  App.waitLoop page remaining attempts response
  = App.Broke (App.clean (App.textRead (page n))).
Proof.
  revert attempts response.
  induction remaining as [|k IH]; intros attempts response Hn Hquiet Hsees; [lia |].
  simpl. destruct (Nat.eq_dec n attempts) as [-> | Hne].
  - now rewrite (proj1 (attemptStep_break _ response Hsees)).
  - assert (App.seesText (page attempts) = false) as Hnot by (apply Hquiet; lia).
    apply (attemptStep_next_iff _ response) in Hnot as [r ->].
    apply IH; [lia | | exact Hsees].
    intros m Hm. apply Hquiet. lia.
Qed.

End AppWaitLoop.

(** ** What the extractor of server.js reads *)
Section Extraction.

Variable startTime : Z.

(** The extractor returns the text the page shows, and only when the
    last response element has its copy button. *)
Lemma extractCompleted_shown (responses : list Server.ResponseElement) (c : string) :
  Server.extractCompleted responses = Some c
  <-> exists lastResponse,
        last responses = Some lastResponse
        /\ Server.hasCopyButton lastResponse = true
        /\ Server.shownText responses = Some c.
Proof.
  unfold Server.extractCompleted, Server.shownText.
  destruct (last responses) as [lastResponse |]; [| split; [discriminate |]].
  - destruct (Server.hasCopyButton lastResponse) eqn:E; split.
    + intros [= <-]. eauto.
    + now intros (r & [= <-] & _ & H).
    + discriminate.
    + intros (r & [= <-] & Hbutton & _). congruence.
  - now intros (r & H & _).
Qed.

Lemma extracted_shown (polls : list Server.Poll) (c : string) :
  c ∈ Server.extracted startTime polls -> c ∈ Server.shown startTime polls.
Proof.
  induction polls as [|p rest IH]; simpl; [auto |].
  destruct (_ <? _); [| auto].
  destruct (Server.page p) as [responses | e]; [| auto].
  destruct (Server.extractCompleted responses) as [c' |] eqn:E.
  - apply extractCompleted_shown in E as (r & _ & _ & ->).
    destruct (JS.truthy c'); [| exact IH].
    intros Hin. inversion Hin; subst; [left | right; now apply IH].
  - intros Hin. apply IH in Hin.
    destruct (Server.shownText responses) as [text |]; [| exact Hin].
    destruct (JS.truthy text); [now right | exact Hin].
Qed.

(** A page whose last response element never has its copy button gives
    the extractor nothing. *)
Lemma pollLoop_without_copy_button (polls : list Server.Poll) (lastContent : string)
    (noChangeCount : Z) (e : Server.LoopEnd) :
  Forall Server.withoutCopyButton polls ->
  Server.pollLoop startTime polls lastContent noChangeCount = Some e ->
  e = Server.TimedOut lastContent.
Proof.
  induction 1 as [| p rest (responses & Hpage & Hbutton) _ IH]; simpl; [discriminate |].
  destruct (_ <? _); [| now intros [= <-]].
  rewrite Hpage. unfold Server.extractCompleted.
  destruct (last responses) as [lastResponse |]; [| exact IH].
  now rewrite (Hbutton lastResponse eq_refl).
Qed.

End Extraction.

(** C1, as amended. When the overall timeout of
    [handleNonStreamingResponse] (server.js) elapses before the idle
    count has completed the answer: if its extractor read any
    non-empty text before the deadline, the operation answers 200 with
    the last text it read, and it answers 500 "Response timeout"
    exactly when it read none. The extractor reads the text the page
    shows only when the last response element carries its copy button:
    on a page that never carries it the answer is 500 "Response
    timeout", whatever text the page showed. The operation returns as
    soon as the clock is read past the deadline. [waitForResponse] of
    chat.js raises "Response timeout" at the deadline when no poll
    found the copy button. In [simulateBrowserInteraction] of app.js
    the wait loop is left at the first of its 120 passes that reads a
    text with something in it, with that text cleaned, so the passes
    run out only when none read such a text, and the error is raised
    only with an empty response. The 200 answer of server.js carries
    the text as [choices[0].message.content]. *)
Theorem timeout_returns_partial_content :
  (forall chatId created model startTime polls lastContent,
      Server.pollLoop startTime polls EmptyString 0 = Some (Server.TimedOut lastContent) ->
      (forall c, last (Server.extracted startTime polls) = Some c ->
         Server.handleNonStreamingResponse chatId created model startTime polls
         = Some (Ok (mkResponse 200 (Server.completionResponse chatId created model c))))
      /\ (Server.handleNonStreamingResponse chatId created model startTime polls
          = Some (Ok (mkResponse 500 (VObj [("error", VStr "Response timeout")])))
          <-> Server.extracted startTime polls = []))
  /\ (forall startTime polls c,
      c ∈ Server.extracted startTime polls ->
      c ∈ Server.shown startTime polls
      /\ exists p responses lastResponse,
           p ∈ polls /\ Server.page p = Ok responses
           /\ last responses = Some lastResponse
           /\ Server.hasCopyButton lastResponse = true
           /\ c = Server.stripLabels (Server.textContent lastResponse))
  /\ (forall chatId created model startTime polls,
      Forall Server.withoutCopyButton polls ->
      Exists (fun p => Server.maxWaitTime <= Server.clock p - startTime) polls ->
      Server.handleNonStreamingResponse chatId created model startTime polls
      = Some (Ok (mkResponse 500 (VObj [("error", VStr "Response timeout")]))))
  /\ (forall chatId created model startTime polls,
      Exists (fun p => Server.maxWaitTime <= Server.clock p - startTime) polls ->
      is_Some (Server.handleNonStreamingResponse chatId created model startTime polls))
  /\ (forall startTime polls,
      Forall (fun p => Chat.hasResponse p = Ok false) polls ->
      Exists (fun p => Chat.timeout <= Chat.clock p - startTime) polls ->
      Chat.waitForResponse startTime polls = Some (Throw "Response timeout"))
  /\ (forall page n,
      (n < 120)%nat ->
      (forall m, (m < n)%nat -> App.seesText (page m) = false) ->
      App.seesText (page n) = true ->
      App.hasText (App.textRead (page n)) = true
      /\ App.waitLoop page App.maxAttempts 0 EmptyString
         = App.Broke (App.clean (App.textRead (page n))))
  /\ (forall page,
      (exists r, App.waitLoop page App.maxAttempts 0 EmptyString = App.Exhausted r)
      <-> forall n, (n < 120)%nat -> App.seesText (page n) = false)
  /\ (forall e message,
      App.afterLoop e = Throw message -> App.loopResponse e = EmptyString)
  /\ (forall chatId created model c,
      Obj.get "content" (Obj.get "message"
        (Wire.choice (Server.completionResponse chatId created model c))) = VStr c).
Proof.
  split; [| split; [| split; [| split; [| split; [| split; [| split; [| split]]]]]]];
    [| | | | | | | | reflexivity].
  - intros chatId created model startTime polls lastContent Hrun.
    pose proof (pollLoop_timed_out _ _ _ _ _ Hrun) as Hlast.
    pose proof (extracted_truthy startTime polls) as Htruthy.
    unfold Server.handleNonStreamingResponse. rewrite Hrun. split.
    + intros c Hc. rewrite Hc in Hlast. simpl in Hlast. subst lastContent.
      apply last_Some in Hc as (front & Hc). rewrite Hc in Htruthy.
      apply Forall_app in Htruthy as [_ Htruthy]. inversion Htruthy as [| ? ? Hcontent _].
      now rewrite Hcontent.
    + destruct (Server.extracted startTime polls) as [|c cs] eqn:Eobs.
      * simpl in Hlast. subst lastContent. simpl. tauto.
      * assert (exists c', last (c :: cs) = Some c') as [c' Hc'].
        { destruct (last (c :: cs)) eqn:E; [eauto |].
          apply last_None in E. discriminate. }
        rewrite Hc' in Hlast. simpl in Hlast. subst lastContent.
        apply last_Some in Hc' as (front & Hc'). rewrite Hc' in Htruthy.
        apply Forall_app in Htruthy as [_ Htruthy].
        inversion Htruthy as [| ? ? Hcontent _]. rewrite Hcontent.
        split; [discriminate | discriminate].
  - intros startTime polls c Hin. split; [now apply extracted_shown |].
    induction polls as [|p rest IH]; simpl in Hin; [inversion Hin |].
    assert (c ∈ Server.extracted startTime rest ->
            exists q responses lastResponse,
              q ∈ p :: rest /\ Server.page q = Ok responses
              /\ last responses = Some lastResponse
              /\ Server.hasCopyButton lastResponse = true
              /\ c = Server.stripLabels (Server.textContent lastResponse)) as Hlater.
    { intros H. destruct (IH H) as (q & responses & lastResponse & Hq & Hrest).
      exists q, responses, lastResponse. split; [now right | exact Hrest]. }
    destruct (_ <? _); [| inversion Hin].
    destruct (Server.page p) as [responses | e] eqn:Hpage; [| inversion Hin].
    destruct (Server.extractCompleted responses) as [c' |] eqn:E; [| exact (Hlater Hin)].
    destruct (JS.truthy c'); [| exact (Hlater Hin)].
    inversion Hin as [| ? ? ? Hin']; subst; [| exact (Hlater Hin')].
    apply extractCompleted_shown in E as (lastResponse & Hlast & Hbutton & Hshown).
    unfold Server.shownText in Hshown. rewrite Hlast in Hshown. injection Hshown as <-.
    exists p, responses, lastResponse. split; [left | auto].
  - intros chatId created model startTime polls Hnone Hdeadline.
    unfold Server.handleNonStreamingResponse.
    destruct (pollLoop_returns startTime polls EmptyString 0 Hdeadline) as [e Hrun].
    rewrite Hrun.
    now rewrite (pollLoop_without_copy_button startTime polls _ _ e Hnone Hrun).
  - intros chatId created model startTime polls Hdeadline.
    unfold Server.handleNonStreamingResponse.
    destruct (pollLoop_returns startTime polls EmptyString 0 Hdeadline) as [e ->].
    destruct e as [answer | lastContent | msg]; eauto.
    destruct (JS.truthy lastContent); eauto.
  - intros startTime polls Hnone Hdeadline.
    destruct (waitForResponse_returns startTime polls Hdeadline) as [[r | message] Hrun].
    + apply waitForResponse_ok in Hrun as (p & Hin & _ & Hhas & _).
      rewrite Forall_forall in Hnone. rewrite (Hnone p Hin) in Hhas. discriminate.
    + rewrite Hrun. now apply waitForResponse_throw in Hrun as [-> _].
  - intros page n Hn Hquiet Hsees.
    split; [exact (proj2 (attemptStep_break _ EmptyString Hsees)) |].
    apply waitLoop_breaks; [unfold App.maxAttempts; lia | | exact Hsees].
    intros m Hm. apply Hquiet. lia.
  - intros page. split.
    + intros [r Hrun] n Hn. apply (waitLoop_exhausted _ _ _ _ _ Hrun).
      unfold App.maxAttempts. lia.
    + intros Hquiet.
      assert (forall remaining attempts response,
                (attempts + remaining <= 120)%nat ->
                exists r, App.waitLoop page remaining attempts response = App.Exhausted r)
        as Hloop.
      { induction remaining as [|k IH]; intros attempts response Hle; simpl; [eauto |].
        destruct (proj2 (attemptStep_next_iff (page attempts) response)) as [r ->];
          [apply Hquiet; lia |].
        apply IH. lia. }
      apply Hloop. unfold App.maxAttempts. lia.
  - intros e message. unfold App.afterLoop.
    destruct (App.loopResponse e); [reflexivity | discriminate].
Qed.

(** C1, counterexample to the claim as stated: the page shows a text
    from the first poll on, but its response element never gets its
    copy button. The text was on the page before the timeout, and
    server.js answers 500 "Response timeout". *)
Lemma timeout_discards_text_without_copy_button :
  Server.shown 0 Samples.unfinishedPolls = ["partial answer"; "partial answer, longer"]
  /\ Server.handleNonStreamingResponse "chatcmpl-1" 1 "gpt-4o" 0 Samples.unfinishedPolls
     = Some (Ok (mkResponse 500 (VObj [("error", VStr "Response timeout")]))).
Proof. split; reflexivity. Qed.

(** The scenario of 40 characters seen at second 55, on an element
    that has its copy button: the loop times out at second 60 and the
    answer carries the 40 characters. *)
Lemma timeout_returns_partial_content_witness :
  Server.pollLoop 0 Samples.latePolls EmptyString 0 = Some (Server.TimedOut Samples.fortyChars)
  /\ Server.handleNonStreamingResponse "chatcmpl-1" 1 "gpt-4o" 0 Samples.latePolls
     = Some (Ok (mkResponse 200
          (Server.completionResponse "chatcmpl-1" 1 "gpt-4o" Samples.fortyChars))).
Proof.
  split; [reflexivity |].
  apply (proj1 (proj1 timeout_returns_partial_content "chatcmpl-1" 1 "gpt-4o" 0
                  Samples.latePolls Samples.fortyChars eq_refl)).
  reflexivity.
Defined.

(* ===================================================================== *)
(** * Part III: further properties of the sources *)
(* ===================================================================== *)

(** ** The streaming watcher of server.js *)
Section StreamingWatcher.

Variables (chatId : string) (created : Z) (model : string).

Lemma startsWith_dropChars (p s : string) :
  JS.startsWith p s = true -> p +:+ JS.dropChars (String.length p) s = s.
Proof.
  revert s. induction p as [|a p IH]; intros s; [reflexivity |].
  destruct s as [|b s]; [discriminate |]. simpl.
  destruct (Ascii.eqb_spec a b) as [-> | Hne]; [| discriminate].
  simpl. intros H. now rewrite append_cons, IH.
Qed.

Lemma truthy_false (s : string) : JS.truthy s = false <-> s = EmptyString.
Proof. destruct s; simpl; split; congruence. Qed.

(** What the interval callbacks write: content chunks with non-empty
    payloads, then either nothing more or the finish chunk and the
    terminator line. When the page only appends, the finish chunk
    reports the content the loop started with followed by the
    payloads. *)
Lemma streamLoop_shape (ticks : list (result (list Server.ResponseElement)))
    (lastContent : string) (noChangeCount : Z) :
  exists payloads closing,
    Server.streamLoop chatId created model ticks lastContent noChangeCount
    = map (fun p => Data (Server.contentChunk chatId created model p)) payloads ++ closing
    /\ Forall (fun p => JS.truthy p = true) payloads
    /\ (closing = []
        \/ exists final,
             closing = [Data (Server.finishChunk chatId created model final); DONE]
             /\ (Server.growing lastContent ticks = true ->
                 final = lastContent +:+ JS.concat payloads)).
Proof.
  revert lastContent noChangeCount.
  induction ticks as [|tick rest IH]; intros lastContent noChangeCount.
  { exists [], []. repeat split; auto. }
  destruct tick as [responses | e]; [| exists [], []; repeat split; auto].
  cbn [Server.streamLoop Server.growing].
  destruct (Server.extractStreaming responses) as [[content isComplete] |]; [| apply IH].
  cbv zeta.
  destruct (String.eqb_spec content lastContent) as [-> | Hne]; cbn [negb andb].
  - (* unchanged *)
    destruct (isComplete || _).
    + exists [], [Data (Server.finishChunk chatId created model lastContent); DONE].
      split; [reflexivity |]. split; [constructor |]. right.
      eexists. split; [reflexivity |]. intros _. simpl. now rewrite append_empty_r.
    + destruct (IH lastContent (noChangeCount + 1))
        as (payloads & closing & Hrun & Htruthy & Hclosing).
      exists payloads, closing. split; [exact Hrun |]. split; [exact Htruthy |].
      destruct Hclosing as [-> | (final & -> & Hfinal)]; [now left |].
      right. exists final. split; [reflexivity |].
      intros Hgrow. apply andb_prop in Hgrow as [_ Hgrow]. auto.
  - (* changed *)
    destruct (JS.truthy (JS.dropChars (String.length lastContent) content)) eqn:Enew.
    + destruct (isComplete || _).
      * exists [JS.dropChars (String.length lastContent) content],
          [Data (Server.finishChunk chatId created model content); DONE].
        split; [reflexivity |]. split; [now repeat constructor |]. right.
        eexists. split; [reflexivity |].
        intros Hgrow. apply andb_prop in Hgrow as [Hprefix _].
        simpl. rewrite append_empty_r. now rewrite startsWith_dropChars.
      * destruct (IH content 0) as (payloads & closing & Hrun & Htruthy & Hclosing).
        exists (JS.dropChars (String.length lastContent) content :: payloads), closing.
        rewrite Hrun. split; [reflexivity |]. split; [now constructor |].
        destruct Hclosing as [-> | (final & -> & Hfinal)]; [now left |].
        right. exists final. split; [reflexivity |].
        intros Hgrow. apply andb_prop in Hgrow as [Hprefix Hgrow].
        rewrite (Hfinal Hgrow). simpl. rewrite <- append_assoc'.
        now rewrite startsWith_dropChars.
    + assert (JS.startsWith lastContent content = true -> False) as Hshrunk.
      { intros Hprefix. apply startsWith_dropChars in Hprefix.
        apply truthy_false in Enew. rewrite Enew, append_empty_r in Hprefix.
        congruence. }
      destruct (isComplete || _).
      * exists [], [Data (Server.finishChunk chatId created model lastContent); DONE].
        split; [reflexivity |]. split; [constructor |]. right.
        eexists. split; [reflexivity |]. intros _. simpl. now rewrite append_empty_r.
      * destruct (IH lastContent 0) as (payloads & closing & Hrun & Htruthy & Hclosing).
        exists payloads, closing. split; [exact Hrun |]. split; [exact Htruthy |].
        destruct Hclosing as [-> | (final & -> & Hfinal)]; [now left |].
        right. exists final. split; [reflexivity |].
        intros Hgrow. apply andb_prop in Hgrow as [Hprefix _]. now destruct Hshrunk.
Qed.

Lemma closingChunk_all_data (events : list sse) :
  Forall (fun e => exists chunk, e = Data chunk) events ->
  Wire.closingChunk events = None.
Proof.
  intros Hdata. unfold Wire.closingChunk.
  destruct (rev events) as [|e rest] eqn:Erev; [reflexivity |].
  assert (e ∈ events) as Hin.
  { apply list_elem_of_In, in_rev. rewrite Erev. now left. }
  rewrite Forall_forall in Hdata. destruct (Hdata e Hin) as [chunk ->]. reflexivity.
Qed.

Lemma payloads_server_contentChunks (payloads : list string) :
  Wire.contentPayloads
    (Wire.dataChunks
       (map (fun p => Data (Server.contentChunk chatId created model p)) payloads))
  = payloads.
Proof.
  induction payloads as [|c cs IH]; [reflexivity |].
  change (c :: Wire.contentPayloads (Wire.dataChunks
            (map (fun p => Data (Server.contentChunk chatId created model p)) cs))
          = c :: cs).
  now rewrite IH.
Qed.

End StreamingWatcher.

(** X1. Whatever the page does, [handleStreamingResponse] writes the
    role chunk, then content chunks with non-empty payloads, and then
    either nothing more (the 60 s timer or a throw ended the stream) or
    exactly one finish chunk followed by the terminator line: nothing
    is written after [data: [DONE]], and no finish chunk comes without
    it. *)
Theorem server_stream_finishes_at_most_once
    (chatId : string) (created : Z) (model : string)
    (ticks : list (result (list Server.ResponseElement))) :
  exists payloads closing,
    Server.handleStreamingResponse chatId created model ticks
    = Data (Server.initialChunk chatId created model)
      :: map (fun p => Data (Server.contentChunk chatId created model p)) payloads
      ++ closing
    /\ Forall (fun p => JS.truthy p = true) payloads
    /\ (closing = []
        \/ exists final,
             closing = [Data (Server.finishChunk chatId created model final); DONE]).
Proof.
  destruct (streamLoop_shape chatId created model ticks EmptyString 0)
    as (payloads & closing & Hrun & Htruthy & Hclosing).
  exists payloads, closing. unfold Server.handleStreamingResponse. rewrite Hrun.
  split; [reflexivity |]. split; [exact Htruthy |].
  destruct Hclosing as [-> | (final & -> & _)]; [now left | right; eauto].
Qed.

(** X2. When the page only ever appends to the answer, the deltas
    [handleStreamingResponse] has streamed by the time it finishes
    concatenate to the content its finish chunk accounts for: the
    finish chunk is the one built for the concatenation of the
    payloads, so [completion_tokens] is the length of what was sent. *)
Theorem server_stream_reassembles
    (chatId : string) (created : Z) (model : string)
    (ticks : list (result (list Server.ResponseElement))) (final : value) :
  Server.growing EmptyString ticks = true ->
  let events := Server.handleStreamingResponse chatId created model ticks in
  Wire.closingChunk events = Some final ->
  final = Server.finishChunk chatId created model
            (JS.concat (Wire.contentPayloads (Wire.dataChunks events)))
  /\ Obj.get "completion_tokens" (Obj.get "usage" final)
     = VNum (JS.strlen (JS.concat (Wire.contentPayloads (Wire.dataChunks events)))).
Proof.
  intros Hgrow events. subst events.
  destruct (streamLoop_shape chatId created model ticks EmptyString 0)
    as (payloads & closing & Hrun & _ & Hclosing).
  unfold Server.handleStreamingResponse. rewrite Hrun.
  destruct Hclosing as [-> | (last & -> & Hlast)].
  - rewrite app_nil_r. intros Hclose. exfalso.
    rewrite closingChunk_all_data in Hclose; [discriminate |].
    constructor; [eauto |]. apply Forall_forall. intros e He.
    apply list_elem_of_In, in_map_iff in He as (p & <- & _). eauto.
  - rewrite closingChunk_cons_end. intros [= <-].
    change (Wire.dataChunks (?x :: ?l)) with (Wire.dataChunks ([x] ++ l)).
    rewrite !dataChunks_app, !contentPayloads_app, payloads_server_contentChunks.
    change (Wire.contentPayloads (Wire.dataChunks
              [Data (Server.initialChunk chatId created model)])) with (@nil string).
    change (Wire.contentPayloads (Wire.dataChunks
              [Data (Server.finishChunk chatId created model last); DONE]))
      with (@nil string).
    rewrite app_nil_r. simpl app. rewrite (Hlast Hgrow), append_nil.
    split; reflexivity.
Qed.

(** An answer that grows from "He" to "Hello" is streamed as "He" and
    "llo", and accounted for as "Hello". *)
Lemma server_stream_reassembles_witness :
  let events :=
    Server.handleStreamingResponse "chatcmpl-1" 1 "gpt-4o" Samples.growingTicks in
  Server.growing EmptyString Samples.growingTicks = true
  /\ Wire.contentPayloads (Wire.dataChunks events) = ["He"; "llo"]
  /\ Server.finishChunk "chatcmpl-1" 1 "gpt-4o" "Hello"
     = Server.finishChunk "chatcmpl-1" 1 "gpt-4o"
         (JS.concat (Wire.contentPayloads (Wire.dataChunks events))).
Proof.
  cbv zeta. split; [reflexivity |]. split; [reflexivity |].
  exact (proj1 (server_stream_reassembles "chatcmpl-1" 1 "gpt-4o" Samples.growingTicks
                  (Server.finishChunk "chatcmpl-1" 1 "gpt-4o" "Hello") eq_refl eq_refl)).
Defined.

(** ** Idle detection in the polling loops *)
Section IdleDetection.

Variable startTime : Z.

Lemma pollLoop_completed_after (polls : list Server.Poll) (lastContent : string)
    (noChangeCount : Z) (answer : string) :
  0 <= noChangeCount ->
  Server.pollLoop startTime polls lastContent noChangeCount = Some (Server.Completed answer) ->
  JS.truthy answer = true
  /\ Server.maxNoChangeCount - noChangeCount <= Z.of_nat (length polls).
Proof.
  revert lastContent noChangeCount.
  induction polls as [|p rest IH]; intros lastContent n Hn; simpl; [discriminate |].
  destruct (_ <? _); [| discriminate].
  destruct (Server.page p) as [responses | e]; [| discriminate].
  unfold Server.maxNoChangeCount in *.
  destruct (Server.extractCompleted responses) as [c |].
  2:{ intros Hrun; apply IH in Hrun as [Ht Hl]; [split; [assumption | lia] | lia]. }
  destruct (JS.truthy c) eqn:Etruthy.
  2:{ intros Hrun; apply IH in Hrun as [Ht Hl]; [split; [assumption | lia] | lia]. }
  destruct (String.eqb c lastContent).
  - destruct (Z.geb_spec (n + 1) 10).
    + intros [= <-]. split; [assumption | lia].
    + intros Hrun; apply IH in Hrun as [Ht Hl]; [split; [assumption | lia] | lia].
  - intros Hrun; apply IH in Hrun as [Ht Hl]; [split; [assumption | lia] | lia].
Qed.

Lemma pollLoop_completed_from_start (polls : list Server.Poll) (answer : string) :
  Server.pollLoop startTime polls EmptyString 0 = Some (Server.Completed answer) ->
  (11 <= length polls)%nat.
Proof.
  induction polls as [|p rest IH]; simpl; [discriminate |].
  destruct (_ <? _); [| discriminate].
  destruct (Server.page p) as [responses | e]; [| discriminate].
  destruct (Server.extractCompleted responses) as [c |];
    [| intros H; apply IH in H; lia].
  destruct (JS.truthy c) eqn:Etruthy; [| intros H; apply IH in H; lia].
  destruct (String.eqb_spec c EmptyString) as [-> | Hne]; [discriminate |].
  intros H. apply pollLoop_completed_after in H as [_ H]; [| lia].
  unfold Server.maxNoChangeCount in H. lia.
Qed.

(** From any state of the loop, polls at which the extractor gives
    [c] often enough, and nothing else, complete the answer with [c]:
    eleven times, or what is missing to eleven when the loop is in a
    run of [c] already. *)
Lemma pollLoop_run (c : string) (more rest : list Server.Poll) (k : nat)
    (lastContent : string) (noChangeCount : Z) :
  0 <= noChangeCount ->
  Server.extracted startTime more = replicate k c ->
  (1 <= k)%nat ->
  (if String.eqb c lastContent
   then Server.maxNoChangeCount - noChangeCount <= Z.of_nat k
   else (11 <= k)%nat) ->
  Server.pollLoop startTime (more ++ rest) lastContent noChangeCount
  = Some (Server.Completed c).
Proof.
  unfold Server.maxNoChangeCount.
  revert k lastContent noChangeCount.
  induction more as [|p ps IH]; intros k lastContent n Hn Hrun Hk Hneeded.
  - destruct k; [lia | discriminate].
  - simpl in Hrun. simpl.
    destruct (_ <? _); [| destruct k; [lia | discriminate]].
    destruct (Server.page p) as [responses | e]; [| destruct k; [lia | discriminate]].
    destruct (Server.extractCompleted responses) as [c' |]; [| now apply (IH k)].
    destruct (JS.truthy c'); [| now apply (IH k)].
    destruct k as [|k]; [lia |]. injection Hrun as -> Hrun.
    destruct (String.eqb_spec c lastContent) as [<- | Hne].
    + destruct (Z.geb_spec (n + 1) Server.maxNoChangeCount) as [Hdone | Hmore];
        [reflexivity |].
      unfold Server.maxNoChangeCount in Hmore.
      apply (IH k); [lia | exact Hrun | lia |]. rewrite String.eqb_refl. lia.
    + apply (IH k); [lia | exact Hrun | lia |]. rewrite String.eqb_refl. lia.
Qed.

(** The same, after any polls through which the loop kept running. *)
Lemma pollLoop_run_later (front more rest : list Server.Poll) (c lastContent : string)
    (noChangeCount : Z) :
  0 <= noChangeCount ->
  Server.pollLoop startTime front lastContent noChangeCount = None ->
  Server.extracted startTime more = replicate 11 c ->
  Server.pollLoop startTime (front ++ more ++ rest) lastContent noChangeCount
  = Some (Server.Completed c).
Proof.
  intros Hn Hrunning Hrun.
  revert lastContent noChangeCount Hn Hrunning.
  induction front as [|p ps IH]; intros lastContent n Hn Hrunning.
  - apply (pollLoop_run c more rest 11); [assumption | assumption | lia |].
    unfold Server.maxNoChangeCount. destruct (String.eqb c lastContent); lia.
  - simpl in *. destruct (_ <? _); [| discriminate].
    destruct (Server.page p) as [responses | e]; [| discriminate].
    destruct (Server.extractCompleted responses) as [c' |]; [| now apply IH].
    destruct (JS.truthy c'); [| now apply IH].
    destruct (String.eqb c' lastContent).
    + destruct (_ >=? _); [discriminate |]. apply IH; [lia | exact Hrunning].
    + apply IH; [lia | exact Hrunning].
Qed.

(** The contents the extractor gave a loop that completed end with a
    run of the answer: eleven of them, or what was missing to eleven
    when the loop started in the middle of a run. *)
Lemma pollLoop_completed_run (polls : list Server.Poll) (lastContent : string)
    (noChangeCount : Z) (answer : string) :
  0 <= noChangeCount < Server.maxNoChangeCount ->
  Server.pollLoop startTime polls lastContent noChangeCount = Some (Server.Completed answer) ->
  exists used rest,
    polls = used ++ rest
    /\ ((exists front, Server.extracted startTime used = front ++ replicate 11 answer)
        \/ (lastContent = answer
            /\ exists k, Z.of_nat k = Server.maxNoChangeCount - noChangeCount
                         /\ Server.extracted startTime used = replicate k answer)).
Proof.
  unfold Server.maxNoChangeCount.
  revert lastContent noChangeCount.
  induction polls as [|p rest IH]; intros lastContent n Hn; simpl; [discriminate |].
  destruct (Z.ltb_spec (Server.clock p - startTime) Server.maxWaitTime) as [Hclock |];
    [| discriminate].
  apply Z.ltb_lt in Hclock.
  destruct (Server.page p) as [responses | e] eqn:Hpage; [| discriminate].
  assert (forall c used,
            Server.extractCompleted responses = Some c -> JS.truthy c = true ->
            Server.extracted startTime (p :: used) = c :: Server.extracted startTime used)
    as Hcons.
  { intros c used Hext Ht. simpl. now rewrite Hclock, Hpage, Hext, Ht. }
  assert (forall used,
            (Server.extractCompleted responses = None
             \/ exists c, Server.extractCompleted responses = Some c /\ JS.truthy c = false) ->
            Server.extracted startTime (p :: used) = Server.extracted startTime used)
    as Hskip.
  { intros used [Hext | (c & Hext & Ht)]; simpl; rewrite Hclock, Hpage, Hext;
      [reflexivity | now rewrite Ht]. }
  destruct (Server.extractCompleted responses) as [c |] eqn:Hext.
  2:{ intros Hrun. destruct (IH _ _ Hn Hrun) as (used & rest' & -> & Hcases).
      exists (p :: used), rest'. split; [reflexivity |].
      rewrite Hskip by now left. exact Hcases. }
  destruct (JS.truthy c) eqn:Htruthy.
  2:{ intros Hrun. destruct (IH _ _ Hn Hrun) as (used & rest' & -> & Hcases).
      exists (p :: used), rest'. split; [reflexivity |].
      rewrite Hskip by (right; eauto). exact Hcases. }
  destruct (String.eqb_spec c lastContent) as [-> | Hne].
  - destruct (Z.geb_spec (n + 1) Server.maxNoChangeCount) as [Hdone | Hmore];
      unfold Server.maxNoChangeCount in *.
    + intros [= <-]. exists [p], rest. split; [reflexivity |]. right.
      split; [reflexivity |]. exists 1%nat. split; [lia |].
      simpl. now rewrite Hclock, Hpage, Hext, Htruthy.
    + intros Hrun.
      destruct (IH lastContent (n + 1) ltac:(lia) Hrun) as (used & rest' & -> & Hcases).
      exists (p :: used), rest'. split; [reflexivity |].
      rewrite (Hcons lastContent used) by auto.
      destruct Hcases as [[front Hfront] | [<- (k & Hk & Hrun')]].
      * left. exists (lastContent :: front). now rewrite Hfront.
      * right. split; [reflexivity |]. exists (S k). split; [lia |].
        now rewrite Hrun'.
  - intros Hrun. destruct (IH c 0 ltac:(lia) Hrun) as (used & rest' & -> & Hcases).
    exists (p :: used), rest'. split; [reflexivity |].
    rewrite (Hcons c used) by auto.
    left. destruct Hcases as [[front Hfront] | [<- (k & Hk & Hrun')]].
    + exists (c :: front). now rewrite Hfront.
    + exists []. rewrite Hrun'. assert (k = 10%nat) as -> by lia. reflexivity.
Qed.

End IdleDetection.

(** X3. Idle detection of [handleNonStreamingResponse]. At any point
    of its run, polls at which its extractor gives the same non-empty
    content eleven times, and nothing else in between, complete the
    answer with that content, whatever comes after. Conversely the
    loop completes an answer only when the last eleven contents its
    extractor gave it were all that answer (polls at which it gives
    nothing are passed over, a different content starts the count
    again): so never on fewer than eleven polls, nor with an empty
    answer. *)
Theorem idle_detection_needs_ten_unchanged_polls (startTime : Z) :
  (forall front more rest c,
      Server.pollLoop startTime front EmptyString 0 = None ->
      Server.extracted startTime more = replicate 11 c ->
      Server.pollLoop startTime (front ++ more ++ rest) EmptyString 0
      = Some (Server.Completed c))
  /\ (forall polls answer,
      Server.pollLoop startTime polls EmptyString 0 = Some (Server.Completed answer) ->
      JS.truthy answer = true
      /\ (11 <= length polls)%nat
      /\ exists used rest front,
           polls = used ++ rest
           /\ Server.extracted startTime used = front ++ replicate 11 answer).
Proof.
  split.
  - intros front more rest c Hrunning Hrun. now apply pollLoop_run_later.
  - intros polls answer Hrun.
    assert (JS.truthy answer = true) as Htruthy
      by now apply (pollLoop_completed_after startTime polls EmptyString 0 answer).
    split; [exact Htruthy |]. split.
    + now apply (pollLoop_completed_from_start startTime polls answer).
    + destruct (pollLoop_completed_run startTime polls EmptyString 0 answer
                  ltac:(unfold Server.maxNoChangeCount; lia) Hrun)
        as (used & rest & Hsplit & [[front Hfront] | [<- _]]).
      * eauto.
      * discriminate.
Qed.

(** A poll that finds "Hel", then eleven polls half a second apart
    that find "Hello": the answer is completed with "Hello". *)
Lemma idle_detection_needs_ten_unchanged_polls_witness :
  Server.pollLoop 0
    (Server.mkPoll 250 (Ok [Server.mkResponseElement "HelCopy" true])
     :: Samples.settledPolls) EmptyString 0
  = Some (Server.Completed "Hello")
  /\ exists used rest front,
       Server.mkPoll 250 (Ok [Server.mkResponseElement "HelCopy" true])
       :: Samples.settledPolls = used ++ rest
       /\ Server.extracted 0 used = front ++ replicate 11 "Hello".
Proof.
  assert (Server.pollLoop 0
            (Server.mkPoll 250 (Ok [Server.mkResponseElement "HelCopy" true])
             :: Samples.settledPolls) EmptyString 0
          = Some (Server.Completed "Hello")) as Hrun.
  { rewrite <- (app_nil_r Samples.settledPolls).
    apply (proj1 (idle_detection_needs_ten_unchanged_polls 0)
             [Server.mkPoll 250 (Ok [Server.mkResponseElement "HelCopy" true])]
             Samples.settledPolls [] "Hello"); reflexivity. }
  split; [exact Hrun |].
  exact (proj2 (proj2 (proj2 (idle_detection_needs_ten_unchanged_polls 0) _ "Hello" Hrun))).
Defined.

(** X4. [waitForResponse] of chat.js returns a result only from a poll
    made before the deadline at which the copy button was there and
    both texts were read, and the result is those two texts; every
    exception it lets out is "Response timeout", raised once the clock
    is read at or past the deadline, and a text on a page without copy
    button is never returned. The call returns as soon as the clock is
    read past the deadline. *)
Theorem chat_wait_returns_only_finished_answers (startTime : Z) (polls : list Chat.Poll) :
  (forall r,
      Chat.waitForResponse startTime polls = Some (Ok r) ->
      exists p, p ∈ polls
                /\ Chat.clock p - startTime < Chat.timeout
                /\ Chat.hasResponse p = Ok true
                /\ Chat.responseText p = Ok (content r)
                /\ Chat.reasoningContent p = Ok (reasoning r))
  /\ (forall message,
      Chat.waitForResponse startTime polls = Some (Throw message) ->
      message = "Response timeout"
      /\ Exists (fun p => Chat.timeout <= Chat.clock p - startTime) polls)
  /\ (Forall (fun p => Chat.hasResponse p = Ok false) polls ->
      Exists (fun p => Chat.timeout <= Chat.clock p - startTime) polls ->
      Chat.waitForResponse startTime polls = Some (Throw "Response timeout")).
Proof.
  split; [apply waitForResponse_ok |]. split; [apply waitForResponse_throw |].
  intros Hnone Hdeadline.
  destruct (waitForResponse_returns startTime polls Hdeadline) as [[r | message] Hrun].
  - apply waitForResponse_ok in Hrun as (p & Hin & _ & Hhas & _).
    rewrite Forall_forall in Hnone. rewrite (Hnone p Hin) in Hhas. discriminate.
  - rewrite Hrun. now apply waitForResponse_throw in Hrun as [-> _].
Qed.

(** A page that shows a text but never its copy button: the wait ends
    in "Response timeout". *)
Lemma chat_wait_returns_only_finished_answers_witness :
  Chat.waitForResponse 0
    [Chat.mkPoll 500 (Ok false) (Ok (Some "partial")) (Ok None);
     Chat.mkPoll 60000 (Ok false) (Ok (Some "partial answer")) (Ok None)]
  = Some (Throw "Response timeout").
Proof.
  apply (proj2 (proj2 (chat_wait_returns_only_finished_answers 0 _))).
  - repeat constructor.
  - right. left. simpl. unfold Chat.timeout. lia.
Defined.

(** ** The message encoding *)
Section MessageEncoding.

Lemma includesChar_append (c : ascii) (s t : string) :
  JS.includesChar c (s +:+ t) = JS.includesChar c s || JS.includesChar c t.
Proof.
  induction s as [|d s IH]; [reflexivity |].
  rewrite append_cons. simpl. now rewrite IH, orb_assoc.
Qed.

Lemma split_without_separator (sep : ascii) (w : string) :
  JS.includesChar sep w = false -> JS.split sep w = [w].
Proof.
  induction w as [|d w IH]; [reflexivity |]. simpl.
  destruct (Ascii.eqb d sep); [discriminate |]. simpl. intros H. now rewrite IH.
Qed.

Lemma split_at_separator (sep : ascii) (w rest : string) :
  JS.includesChar sep w = false ->
  JS.split sep (w +:+ String sep rest) = w :: JS.split sep rest.
Proof.
  induction w as [|d w IH]; cbn [JS.includesChar].
  - intros _. rewrite append_nil. cbn [JS.split]. now rewrite Ascii.eqb_refl.
  - destruct (Ascii.eqb d sep) eqn:E; [discriminate |]. cbn [orb]. intros H.
    rewrite append_cons. cbn [JS.split]. now rewrite E, IH.
Qed.

(** Splitting what [join] built gives the pieces back, when no piece
    holds the separator. *)
Lemma split_join (sep : ascii) (pieces : list string) :
  pieces <> [] ->
  Forall (fun w => JS.includesChar sep w = false) pieces ->
  JS.split sep (JS.join (String sep EmptyString) pieces) = pieces.
Proof.
  induction pieces as [|w ws IH]; [congruence |]. intros _ Hfree.
  apply Forall_cons in Hfree as [Hw Hws].
  destruct ws as [|w' ws]; [now apply split_without_separator |].
  rewrite join_cons by discriminate.
  change (String sep EmptyString +:+ ?t) with (String sep t).
  rewrite split_at_separator by assumption.
  now rewrite IH.
Qed.

Lemma role_content_unique (r1 r2 c1 c2 : string) :
  JS.includesChar ":" r1 = false -> JS.includesChar ":" r2 = false ->
  r1 +:+ ":" +:+ c1 = r2 +:+ ":" +:+ c2 -> r1 = r2 /\ c1 = c2.
Proof.
  revert r2. induction r1 as [|a r1 IH]; intros [|b r2] H1 H2 Heq.
  - now inversion Heq.
  - rewrite append_nil, append_cons in Heq. inversion Heq; subst.
    simpl in H2. discriminate.
  - rewrite append_nil, append_cons in Heq. inversion Heq; subst.
    simpl in H1. discriminate.
  - rewrite !append_cons in Heq. inversion Heq; subst.
    simpl in H1, H2. apply orb_false_elim in H1 as [_ H1], H2 as [_ H2].
    destruct (IH r2 H1 H2) as [-> ->]; auto.
Qed.

Lemma messagePiece_free (msg : Message) :
  separatorFree msg = true -> JS.includesChar ";" (messagePiece msg) = false.
Proof.
  unfold separatorFree, messagePiece. intros H.
  apply andb_prop in H as [H Hcontent]. apply andb_prop in H as [_ Hrole].
  rewrite !includesChar_append.
  apply negb_true_iff in Hrole, Hcontent. now rewrite Hrole, Hcontent.
Qed.

Lemma pieces_unique (a b : list Message) :
  Forall (fun m => separatorFree m = true) a ->
  Forall (fun m => separatorFree m = true) b ->
  map messagePiece a = map messagePiece b -> a = b.
Proof.
  revert b. induction a as [|x xs IH]; intros [|y ys] Ha Hb Heq; try discriminate;
    [reflexivity |].
  apply Forall_cons in Ha as [Hx Hxs], Hb as [Hy Hys].
  simpl in Heq. injection Heq as Hhead Htail.
  unfold separatorFree in Hx, Hy.
  apply andb_prop in Hx as [Hx _], Hy as [Hy _].
  apply andb_prop in Hx as [Hx _], Hy as [Hy _].
  apply negb_true_iff in Hx, Hy.
  destruct (role_content_unique _ _ _ _ Hx Hy Hhead) as [Hrole Hcontent].
  destruct x, y; simpl in *; subst. f_equal. now apply IH.
Qed.

Lemma formatMessages_pieces (msgs : list Message) :
  msgs <> [] ->
  Forall (fun m => separatorFree m = true) msgs ->
  JS.split ";" (formatMessages msgs) = map messagePiece msgs.
Proof.
  intros Hne Hfree. unfold formatMessages.
  apply (split_join ";" (map messagePiece msgs)).
  - destruct msgs; [congruence | discriminate].
  - apply Forall_forall. intros w Hw.
    apply list_elem_of_In, in_map_iff in Hw as (m & <- & Hm).
    apply messagePiece_free. rewrite Forall_forall in Hfree. apply Hfree.
    now apply list_elem_of_In.
Qed.

End MessageEncoding.

(** X5. The message encoding [formatMessages] (app.js, chat.js and the
    handler of server.js) loses nothing on separator-free messages:
    when no role holds [:] or [;] and no content holds [;], splitting
    the encoded string on [;] gives back one ["role:content"] piece
    per message, and two such message lists with the same encoding are
    equal. Without that condition different lists can share an
    encoding. *)
Theorem formatMessages_injective_without_separators :
  (forall msgs,
      msgs <> [] ->
      Forall (fun m => separatorFree m = true) msgs ->
      JS.split ";" (formatMessages msgs)
      = map (fun m => role m +:+ ":" +:+ msg_content m) msgs)
  /\ (forall a b,
      Forall (fun m => separatorFree m = true) a ->
      Forall (fun m => separatorFree m = true) b ->
      formatMessages a = formatMessages b -> a = b)
  /\ (exists a b, a <> b /\ formatMessages a = formatMessages b).
Proof.
  split; [exact formatMessages_pieces |]. split.
  - intros a b Ha Hb Heq. apply pieces_unique; try assumption.
    assert (forall m, separatorFree m = true -> messagePiece m <> EmptyString) as Hpiece.
    { intros m _. unfold messagePiece. destruct (role m); discriminate. }
    destruct a as [|x xs], b as [|y ys]; [reflexivity | | |].
    + exfalso. apply (f_equal (JS.split ";")) in Heq.
      rewrite (formatMessages_pieces (y :: ys)) in Heq by (discriminate || assumption).
      simpl in Heq. injection Heq as Hhead _.
      apply Forall_cons in Hb as [Hy _]. now apply (Hpiece y Hy).
    + exfalso. apply (f_equal (JS.split ";")) in Heq.
      rewrite (formatMessages_pieces (x :: xs)) in Heq by (discriminate || assumption).
      simpl in Heq. injection Heq as Hhead _.
      apply Forall_cons in Ha as [Hx _]. now apply (Hpiece x Hx).
    + rewrite <- (formatMessages_pieces (x :: xs)) by (discriminate || assumption).
      rewrite <- (formatMessages_pieces (y :: ys)) by (discriminate || assumption).
      now rewrite Heq.
  - exists [mkMessage "user" "a;user:b"], [mkMessage "user" "a"; mkMessage "user" "b"].
    split; [discriminate | reflexivity].
Qed.

(** A two-message conversation is recovered from its encoding. *)
Lemma formatMessages_injective_without_separators_witness :
  formatMessages [mkMessage "system" "Be brief."; mkMessage "user" "hi: there"]
  = "system:Be brief.;user:hi: there"
  /\ JS.split ";" (formatMessages
       [mkMessage "system" "Be brief."; mkMessage "user" "hi: there"])
     = ["system:Be brief."; "user:hi: there"].
Proof.
  split; [reflexivity |].
  apply (proj1 formatMessages_injective_without_separators
           [mkMessage "system" "Be brief."; mkMessage "user" "hi: there"]).
  - discriminate.
  - repeat constructor.
Defined.

(** ** The store of database.js *)
Section DatabaseStore.

Lemma getCache_setCache_other (db : Database.State) (key key' : string) (v : value)
    (expiresAt now : Z) :
  key <> key' ->
  Database.getCache key' now (Database.setCache key v expiresAt db)
  = Database.getCache key' now db.
Proof.
  intros Hne. unfold Database.getCache, Database.setCache. simpl.
  now rewrite lookup_insert_ne.
Qed.

Lemma getCache_setCache_same (db : Database.State) (key : string) (v : value)
    (expiresAt now : Z) :
  Database.getCache key now (Database.setCache key v expiresAt db)
  = if expiresAt >? now then Some v else None.
Proof.
  unfold Database.getCache, Database.setCache. simpl. now rewrite lookup_insert_eq.
Qed.

Lemma saveModels_valid (cfg : Config) (t nowRead now : Z) (R : list Database.Model)
    (db db' : Database.State) :
  Database.saveModels cfg t R db = Settles db' ->
  Database.isModelsCacheValid cfg nowRead now db'
  = (nowRead <? t + MODEL_CACHE_DAYS cfg * 24 * 60 * 60 * 1000)
    && (now <? t + MODEL_CACHE_DAYS cfg * 24 * 60 * 60 * 1000).
Proof.
  intros Hrun. apply saveModels_settled in Hrun as [_ ->].
  unfold Database.isModelsCacheValid.
  rewrite getCache_setCache_same.
  rewrite Z.gtb_ltb.
  destruct (nowRead <? _); reflexivity.
Qed.

End DatabaseStore.

(** X6. The key-expiry store of database.js: a value written with
    [setCache] is read back by [getCache] at every time before its
    expiry, a second write to the key replaces the first, and a write
    changes neither what is read under another key nor the models
    table. *)
Theorem cache_write_then_read (db : Database.State) (key : string) (v : value)
    (expiresAt : Z) :
  (forall now, now < expiresAt ->
     Database.getCache key now (Database.setCache key v expiresAt db) = Some v)
  /\ (forall v' expiresAt',
        Database.setCache key v' expiresAt' (Database.setCache key v expiresAt db)
        = Database.setCache key v' expiresAt' db)
  /\ (forall key' now, key <> key' ->
        Database.getCache key' now (Database.setCache key v expiresAt db)
        = Database.getCache key' now db)
  /\ Database.models (Database.setCache key v expiresAt db) = Database.models db.
Proof.
  split; [| split; [| split]].
  - intros now Hnow. rewrite getCache_setCache_same.
    destruct (Z.gtb_spec expiresAt now); [reflexivity | lia].
  - intros v' expiresAt'. unfold Database.setCache. simpl. now rewrite insert_insert_eq.
  - intros key' now Hne. now apply getCache_setCache_other.
  - reflexivity.
Qed.

(** A value that expires at 100 is read back at 99. *)
Lemma cache_write_then_read_witness :
  Database.getCache "k" 99 (Database.setCache "k" (VStr "v") 100 Samples.database)
  = Some (VStr "v").
Proof.
  apply (proj1 (cache_write_then_read Samples.database "k" (VStr "v") 100)). lia.
Defined.

(** X7. [saveModels] of database.js at time [t] completes exactly when
    the ids of the records are distinct: a repeated id makes its
    INSERT fail and the process dies before the cache timestamp is
    written. After a save that completed, the models cache is valid
    exactly while both clocks of [isModelsCacheValid] read less than
    [t] plus [MODEL_CACHE_DAYS] days; [findModelGroup] then gives, for
    every saved record, its group, and nothing for an id that was not
    saved. *)
Theorem saved_models_are_valid_for_the_ttl
    (cfg : Config) (t : Z) (R : list Database.Model) (db : Database.State) :
  ((exists db', Database.saveModels cfg t R db = Settles db')
   <-> NoDup (map Database.id R))
  /\ (Database.saveModels cfg t R db = Dies <-> ~ NoDup (map Database.id R))
  /\ (forall db',
        Database.saveModels cfg t R db = Settles db' ->
        (forall nowRead now,
            Database.isModelsCacheValid cfg nowRead now db' = true
            <-> nowRead < t + MODEL_CACHE_DAYS cfg * 86400000
                /\ now < t + MODEL_CACHE_DAYS cfg * 86400000)
        /\ (forall m, m ∈ R ->
              Database.findModelGroup (Database.id m) db' = Some (Database.group m))
        /\ (forall i, i ∉ map Database.id R -> Database.findModelGroup i db' = None)).
Proof.
  pose proof (saveModels_settles cfg t R db) as Hiff.
  split; [exact Hiff |]. split.
  - destruct (Database.saveModels cfg t R db) as [db' |].
    + split; [discriminate |]. intros Hdup. exfalso. apply Hdup, Hiff. eauto.
    + split; [| reflexivity]. intros _ Hnodup.
      apply Hiff in Hnodup as [db' H]. discriminate.
  - intros db' Hrun. split; [| split].
    + intros nowRead now.
      rewrite (saveModels_valid cfg t nowRead now R db db' Hrun), andb_true_iff, !Z.ltb_lt.
      lia.
    + intros m Hin. unfold Database.findModelGroup.
      rewrite (saveModels_lookup cfg t R db db' _ Hrun).
      rewrite (find_id_NoDup Database.id R m); [reflexivity | | exact Hin].
      apply Hiff. eauto.
    + intros i Hnot. unfold Database.findModelGroup.
      rewrite (saveModels_lookup cfg t R db db' _ Hrun).
      destruct (List.find _ R) as [m |] eqn:Efind; [| reflexivity].
      exfalso. apply Hnot. apply (find_id_is_Some Database.id). rewrite Efind. eauto.
Qed.

(** Saved at time 1000 with the default 7 days, the catalog finds the
    group of its model and is valid at 604800999. *)
Lemma saved_models_are_valid_for_the_ttl_witness :
  exists db,
    Database.saveModels default_config 1000
      [Database.mkModel "gpt-4o" "chatgpt"] Samples.staleDatabase = Settles db
    /\ Database.isModelsCacheValid default_config 604800999 604800999 db = true
    /\ Database.findModelGroup "gpt-4o" db = Some "chatgpt"
    /\ Database.findModelGroup "retired-model" db = None.
Proof.
  pose proof (saved_models_are_valid_for_the_ttl default_config 1000
                [Database.mkModel "gpt-4o" "chatgpt"] Samples.staleDatabase)
    as (Hsettles & _ & Hsaved).
  destruct (proj2 Hsettles) as [db Hrun].
  { repeat constructor. intros H. inversion H. }
  destruct (Hsaved db Hrun) as (Hvalid & Hfound & Hgone).
  exists db. split; [exact Hrun |]. split; [| split].
  - apply Hvalid. simpl. lia.
  - apply (Hfound (Database.mkModel "gpt-4o" "chatgpt")). left.
  - apply Hgone. intros H. inversion H as [| ? ? ? H']; subst. inversion H'.
Defined.

(** ** The model list of models.js *)
Section ModelList.

Lemma formatModelsResponse_ids (now : Z) (owned : list (string * value)) :
  Listing.ids (ModelManager.formatModelsResponse now owned)
  = map (fun m => VStr m.1) owned.
Proof.
  unfold Listing.ids, Listing.entries, ModelManager.formatModelsResponse.
  change (Obj.get "data" (VObj ?fields)) with (Obj.lookup_field "data" fields).
  cbn [Obj.lookup_field String.eqb Ascii.eqb Bool.eqb]. rewrite map_map. reflexivity.
Qed.

Lemma listed_rows_ids (now : Z) (db : Database.State) (i : string) :
  VStr i ∈ Listing.ids (ModelManager.formatModelsResponse now
                          (map ModelManager.ownerOfRow (Database.getModels db)))
  <-> is_Some (Database.models db !! i).
Proof.
  rewrite formatModelsResponse_ids, map_map. unfold Database.getModels. split.
  - intros Hin. apply list_elem_of_In, in_map_iff in Hin as ([j row] & [= <-] & Hin).
    apply list_elem_of_In, elem_of_map_to_list in Hin. eauto.
  - intros [row Hrow]. apply list_elem_of_In, in_map_iff.
    exists (i, row). split; [reflexivity |].
    now apply list_elem_of_In, elem_of_map_to_list.
Qed.

Lemma getModelsList_hit (cfg : Config) (site : string -> Fetched)
    (clk : ModelManager.Clock) (db : Database.State) :
  Database.isModelsCacheValid cfg (ModelManager.atCacheRead clk)
    (ModelManager.atCacheCheck clk) db = true ->
  Database.models db <> ∅ ->
  ModelManager.getModelsList cfg site clk false db
  = Settles (db, ModelManager.formatModelsResponse (ModelManager.atFormat clk)
                   (map ModelManager.ownerOfRow (Database.getModels db))).
Proof.
  intros Hvalid Hne. unfold ModelManager.getModelsList. rewrite Hvalid. simpl.
  destruct (Database.getModels db) as [|r rs] eqn:Erows; [| reflexivity].
  exfalso. apply Hne. now apply map_to_list_empty_iff.
Qed.

Lemma insertModels_non_empty (now : Z) (R : list Database.Model)
    (table : gmap string Database.ModelRow) :
  Database.insertModels now R ∅ = Settles table -> R <> [] -> table <> ∅.
Proof.
  destruct R as [|m ms]; [congruence |]. intros Hrun _ Hempty.
  apply (f_equal (fun t => t !! Database.id m)) in Hempty.
  rewrite (database_insertModels_lookup _ _ _ _ _ Hrun), !lookup_empty in Hempty.
  simpl in Hempty. rewrite String.eqb_refl in Hempty. discriminate.
Qed.

(** A forced call that fetches something ends as its [saveModels]
    does. *)
Lemma getModelsList_forced (cfg : Config) (site : string -> Fetched)
    (clk : ModelManager.Clock) (db : Database.State) :
  ModelManager.fetchAllModels cfg site <> [] ->
  ModelManager.getModelsList cfg site clk true db
  = match Database.saveModels cfg (ModelManager.atSave clk)
            (ModelManager.fetchAllModels cfg site) db with
    | Settles db' =>
        Settles (db', ModelManager.formatModelsResponse (ModelManager.atFormat clk)
                        (map ModelManager.ownerOfModel (ModelManager.fetchAllModels cfg site)))
    | Dies => Dies
    end.
Proof.
  intros Hfetched. unfold ModelManager.getModelsList, ModelManager.fetchFreshModels.
  simpl negb. cbn [andb].
  destruct (ModelManager.fetchAllModels cfg site); [congruence | reflexivity].
Qed.

End ModelList.

(** X8. [getModelsList] of models.js. With a valid cache timestamp and
    a non-empty models table, an unforced call answers from the table:
    it leaves the database as it is, does not depend on the remote
    site, and lists exactly the stored ids. A forced call that fetches
    at least one model completes exactly when the fetched ids are
    distinct (a repeated id makes [saveModels] fail); once it has
    completed, every later unforced call whose clocks read less than
    the save time plus [MODEL_CACHE_DAYS] days is answered from the
    table and lists exactly the fetched ids. *)
Theorem model_list_is_served_from_the_cache (cfg : Config) :
  (forall site site' clk db,
      Database.isModelsCacheValid cfg (ModelManager.atCacheRead clk)
        (ModelManager.atCacheCheck clk) db = true ->
      Database.models db <> ∅ ->
      exists response,
        ModelManager.getModelsList cfg site clk false db = Settles (db, response)
        /\ ModelManager.getModelsList cfg site' clk false db = Settles (db, response)
        /\ (forall i, VStr i ∈ Listing.ids response <-> is_Some (Database.models db !! i)))
  /\ (forall site clk db,
      ModelManager.fetchAllModels cfg site <> [] ->
      ((exists refreshed, ModelManager.getModelsList cfg site clk true db = Settles refreshed)
       <-> NoDup (map Database.id (ModelManager.fetchAllModels cfg site)))
      /\ forall db' answer site' clk',
           ModelManager.getModelsList cfg site clk true db = Settles (db', answer) ->
           ModelManager.atCacheRead clk'
             < ModelManager.atSave clk + MODEL_CACHE_DAYS cfg * 86400000 ->
           ModelManager.atCacheCheck clk'
             < ModelManager.atSave clk + MODEL_CACHE_DAYS cfg * 86400000 ->
           exists response,
             ModelManager.getModelsList cfg site' clk' false db' = Settles (db', response)
             /\ (forall i,
                   VStr i ∈ Listing.ids response
                   <-> i ∈ map Database.id (ModelManager.fetchAllModels cfg site))).
Proof.
  split.
  - intros site site' clk db Hvalid Hne.
    rewrite !getModelsList_hit by assumption.
    eexists. split; [reflexivity |]. split; [reflexivity |].
    intros i. apply listed_rows_ids.
  - intros site clk db Hfetched.
    rewrite (getModelsList_forced cfg site clk db Hfetched).
    pose proof (saveModels_settles cfg (ModelManager.atSave clk)
                  (ModelManager.fetchAllModels cfg site) db) as Hiff.
    destruct (Database.saveModels cfg (ModelManager.atSave clk)
                (ModelManager.fetchAllModels cfg site) db) as [saved |] eqn:Esave.
    + split; [split; [intros _; apply Hiff; eauto | eauto] |].
      intros db' answer site' clk' [= <- <-] Hread Hcheck.
      assert (Database.isModelsCacheValid cfg (ModelManager.atCacheRead clk')
                (ModelManager.atCacheCheck clk') saved = true) as Hvalid.
      { rewrite (saveModels_valid cfg _ _ _ _ db saved Esave), andb_true_iff, !Z.ltb_lt.
        lia. }
      pose proof (saveModels_settled cfg _ _ db saved Esave) as [Htable _].
      assert (Database.models saved <> ∅) as Hne
        by (now apply (insertModels_non_empty _ _ _ Htable)).
      rewrite getModelsList_hit by assumption.
      eexists. split; [reflexivity |].
      intros i. rewrite listed_rows_ids.
      rewrite (saveModels_lookup cfg _ _ db saved i Esave), fmap_is_Some.
      apply (find_id_is_Some Database.id).
    + split; [| discriminate].
      split; [intros [refreshed H]; discriminate |].
      intros Hnodup. apply Hiff in Hnodup as [db' H]. discriminate.
Qed.

(** After a forced refresh at time 1000 that finds [gpt-4o], a listing
    asked for at time 5000 of a site that is down is answered from the
    table. *)
Lemma model_list_is_served_from_the_cache_witness :
  exists db' answer response,
    ModelManager.getModelsList default_config Samples.oneModelSite
      (Samples.clockAt 1000) true Samples.staleDatabase = Settles (db', answer)
    /\ ModelManager.getModelsList default_config Samples.downSite
         (Samples.clockAt 5000) false db' = Settles (db', response)
    /\ (VStr "gpt-4o" ∈ Listing.ids response).
Proof.
  destruct (proj2 (model_list_is_served_from_the_cache default_config)
              Samples.oneModelSite (Samples.clockAt 1000) Samples.staleDatabase
              ltac:(discriminate)) as [Hsettles Hlater].
  destruct (proj2 Hsettles) as [[db' answer] Hrun].
  { repeat constructor. intros H. inversion H. }
  destruct (Hlater db' answer Samples.downSite (Samples.clockAt 5000) Hrun)
    as (response & Hserved & Hids); [simpl; lia | simpl; lia |].
  exists db', answer, response. split; [exact Hrun |]. split; [exact Hserved |].
  apply Hids. left.
Defined.

(** ** Where fetched models come from *)
Section Provenance.

Variables (cfg : Config) (site : string -> Fetched).

Lemma page_model_provenance (p : string) (m : Database.Model) :
  m ∈ ModelManager.fetchModelsFromPage site p ->
  fails site p = false
  /\ JS.truthy (Database.id m) = true
  /\ Database.group m = JS.toLowerCase p
  /\ exists options o,
       site p = Page options /\ o ∈ default [] options /\ Database.id m = attrValue o.
Proof.
  unfold ModelManager.fetchModelsFromPage, fails.
  destruct (site p) as [e | select]; [intros H; inversion H |].
  intros Hin. apply list_elem_of_omap in Hin as (o & Ho & Hm). cbv zeta in Hm.
  destruct (JS.truthy (attrValue o)) eqn:Ev; [| discriminate].
  injection Hm as <-. cbn [Database.id Database.group]. eauto 8.
Qed.

Lemma path_model_provenance (p : string) (m : App.Model) :
  m ∈ App.fetchModelsFromPath site p ->
  fails site p = false
  /\ JS.truthy (App.id m) = true
  /\ App.group m = JS.toLowerCase p
  /\ App.model_path m = p
  /\ exists options o,
       site p = Page (Some options) /\ o ∈ options /\ App.id m = JS.trim (attrValue o).
Proof.
  unfold App.fetchModelsFromPath, fails.
  destruct (site p) as [e | [options |]]; try (intros H; inversion H; fail).
  intros Hin. apply list_elem_of_omap in Hin as (o & Ho & Hm). cbv zeta in Hm.
  destruct (JS.truthy (attrValue o) && JS.truthy (JS.trim (attrValue o))) eqn:Ev;
    [| discriminate].
  apply andb_prop in Ev as [_ Ev]. injection Hm as <-.
  cbn [App.id App.group App.model_path].
  split; [reflexivity |]. split; [exact Ev |]. split; [reflexivity |].
  split; [reflexivity |]. exists options, o. auto.
Qed.

(** An option whose value has something in it is fetched. *)
Lemma page_model_fetched (p : string) (options : option (list OptionElement))
    (o : OptionElement) :
  site p = Page options -> o ∈ default [] options ->
  JS.truthy (attrValue o) = true ->
  Database.mkModel (attrValue o) (JS.toLowerCase p)
    ∈ ModelManager.fetchModelsFromPage site p.
Proof.
  intros Hpage Ho Hv. unfold ModelManager.fetchModelsFromPage. rewrite Hpage.
  apply list_elem_of_omap. exists o. split; [exact Ho |]. cbv zeta. now rewrite Hv.
Qed.

Lemma trim_truthy (v : string) : JS.truthy (JS.trim v) = true -> JS.truthy v = true.
Proof. destruct v; [discriminate | reflexivity]. Qed.

Lemma path_model_fetched (p : string) (options : list OptionElement) (o : OptionElement) :
  site p = Page (Some options) -> o ∈ options ->
  JS.truthy (JS.trim (attrValue o)) = true ->
  App.mkModel (JS.trim (attrValue o)) (JS.toLowerCase p) p
    ∈ App.fetchModelsFromPath site p.
Proof.
  intros Hpage Ho Hv. unfold App.fetchModelsFromPath. rewrite Hpage.
  apply list_elem_of_omap. exists o. split; [exact Ho |]. cbv zeta.
  now rewrite Hv, (trim_truthy _ Hv).
Qed.

Lemma union_member {A} (fetch : string -> list A) (paths : list string) (m : A) :
  m ∈ mjoin (map fetch paths) <-> exists p, p ∈ paths /\ m ∈ fetch p.
Proof.
  rewrite list_elem_of_join. split.
  - intros (l & Hm & Hl).
    apply list_elem_of_In, in_map_iff in Hl as (p & <- & Hp).
    exists p. split; [now apply list_elem_of_In | exact Hm].
  - intros (p & Hp & Hm). exists (fetch p). split; [exact Hm |].
    apply list_elem_of_In, in_map. now apply list_elem_of_In.
Qed.

End Provenance.

(** X9. What a refresh fetches (models.js and app.js). An option of
    the model selector of a configured path is fetched exactly when
    its value (its [value] attribute, or its text when it has none)
    has something in it, after trimming in app.js; its id is that
    value, trimmed in app.js. So every model fetched has a non-empty
    id and belongs to a configured path whose fetch did not throw: its
    group is that path in lower case, and in app.js its path is that
    path. After a [fetchAllModels] of app.js that completed with
    models, every row [findModelById] can return carries a configured
    path, its lower case as group name and the time of the refresh. *)
Theorem fetched_models_belong_to_configured_paths (cfg : Config) (site : string -> Fetched) :
  (forall m,
     m ∈ ModelManager.fetchAllModels cfg site
     <-> exists p options o,
           p ∈ MODEL_PATHS cfg /\ site p = Page options /\ o ∈ default [] options
           /\ JS.truthy (attrValue o) = true
           /\ m = Database.mkModel (attrValue o) (JS.toLowerCase p))
  /\ (forall m,
     m ∈ mjoin (map (App.fetchModelsFromPath site) (MODEL_PATHS cfg))
     <-> exists p options o,
           p ∈ MODEL_PATHS cfg /\ site p = Page (Some options) /\ o ∈ options
           /\ JS.truthy (JS.trim (attrValue o)) = true
           /\ m = App.mkModel (JS.trim (attrValue o)) (JS.toLowerCase p) p)
  /\ (forall m, m ∈ ModelManager.fetchAllModels cfg site ->
     JS.truthy (Database.id m) = true
     /\ exists p, p ∈ MODEL_PATHS cfg /\ fails site p = false
                  /\ Database.group m = JS.toLowerCase p)
  /\ (forall now db db' R,
        App.fetchAllModels cfg site now db = Settles (db', Ok R) ->
        R = mjoin (map (App.fetchModelsFromPath site) (MODEL_PATHS cfg))
        /\ (forall m, m ∈ R ->
              JS.truthy (App.id m) = true
              /\ App.model_path m ∈ MODEL_PATHS cfg
              /\ fails site (App.model_path m) = false
              /\ App.group m = JS.toLowerCase (App.model_path m))
        /\ (forall i row, App.findModelById i db' = Some row ->
              JS.truthy i = true
              /\ App.path row ∈ MODEL_PATHS cfg
              /\ App.group_name row = JS.toLowerCase (App.path row)
              /\ App.created_at row = now)).
Proof.
  split; [| split; [| split]].
  - intros m. unfold ModelManager.fetchAllModels. rewrite union_member. split.
    + intros (p & Hp & Hm).
      apply page_model_provenance in Hm as (_ & Hid & Hgroup & options & o & Hpage & Ho & Hv).
      exists p, options, o. rewrite Hv in Hid. repeat split; try assumption.
      destruct m as [i g]. cbn in *. now subst.
    + intros (p & options & o & Hp & Hpage & Ho & Hv & ->).
      exists p. split; [exact Hp |]. now apply (page_model_fetched site p options).
  - intros m. rewrite union_member. split.
    + intros (p & Hp & Hm).
      apply path_model_provenance
        in Hm as (_ & Hid & Hgroup & Hpath & options & o & Hpage & Ho & Hv).
      exists p, options, o. rewrite Hv in Hid. repeat split; try assumption.
      destruct m as [i g q]. cbn in *. now subst.
    + intros (p & options & o & Hp & Hpage & Ho & Hv & ->).
      exists p. split; [exact Hp |]. now apply (path_model_fetched site p options).
  - intros m Hin. apply union_member in Hin as (p & Hp & Hm).
    apply page_model_provenance in Hm as (Hok & Hid & Hgroup & _). eauto.
  - intros now db db' R Hrun.
    destruct (app_fetchAllModels_cases cfg site now db)
      as [[_ H] | [(_ & _ & table & Htable & H) | (_ & _ & H)]];
      rewrite H in Hrun; try discriminate.
    injection Hrun as <- <-. split; [reflexivity |].
    assert (forall m, m ∈ mjoin (map (App.fetchModelsFromPath site) (MODEL_PATHS cfg)) ->
              JS.truthy (App.id m) = true
              /\ App.model_path m ∈ MODEL_PATHS cfg
              /\ fails site (App.model_path m) = false
              /\ App.group m = JS.toLowerCase (App.model_path m)) as Hmodels.
    { intros m Hin. apply union_member in Hin as (p & Hp & Hm).
      apply path_model_provenance in Hm as (Hok & Hid & Hgroup & -> & _). auto. }
    split; [exact Hmodels |].
    intros i row Hrow. unfold App.findModelById in Hrow. cbn [App.models] in Hrow.
    rewrite (app_insertModels_lookup _ _ _ _ i Htable), lookup_empty in Hrow.
    destruct (List.find _ _) as [m |] eqn:Efind; [| discriminate].
    injection Hrow as <-. apply find_some in Efind as [Hin Hid].
    apply String.eqb_eq in Hid. subst i.
    destruct (Hmodels m) as (Htruthy & Hpath & _ & Hgroup);
      [now apply list_elem_of_In |].
    auto.
Qed.

(** The model of a page whose option has no [value] attribute: models.js
    fetches it under the text of the option, app.js under the trimmed
    text. *)
Lemma fetched_models_belong_to_configured_paths_witness :
  Database.mkModel " GPT-4o mini " "chatgpt"
    ∈ ModelManager.fetchAllModels default_config Samples.textOnlySite
  /\ App.mkModel "GPT-4o mini" "chatgpt" "chatGPT"
       ∈ mjoin (map (App.fetchModelsFromPath Samples.textOnlySite)
                  (MODEL_PATHS default_config)).
Proof.
  pose proof (fetched_models_belong_to_configured_paths default_config Samples.textOnlySite)
    as (Hmodular & Happ & _).
  split.
  - apply Hmodular.
    exists "chatGPT", (Some [mkOption None " GPT-4o mini "]), (mkOption None " GPT-4o mini ").
    repeat split; [left | left].
  - apply Happ.
    exists "chatGPT", [mkOption None " GPT-4o mini "], (mkOption None " GPT-4o mini ").
    repeat split; [left | left].
Defined.

(** ** The model listing of app.js *)
Section AppListing.

Variables (cfg : Config) (site : string -> Fetched).

Lemma listModels_hit (now : Z) (db : App.State) :
  App.cacheValid now db = true ->
  App.listModels cfg site now db
  = Settles (db,
             mkResponse 200
               (VObj [("object", VStr "list");
                      ("data", VArr (map App.listingOfRow (map_to_list (App.models db))))]),
             []).
Proof. intros Hvalid. unfold App.listModels, App.getModels. now rewrite Hvalid. Qed.

(** The entries of a listing built from the rows: one for each row,
    with the creation time and the group name of the row. *)
Lemma rows_entries (table : gmap string App.ModelRow) (e : value) :
  e ∈ map App.listingOfRow (map_to_list table)
  <-> exists i row,
        table !! i = Some row
        /\ e = VObj [("id", VStr i);
                     ("object", VStr "model");
                     ("created", VNum (App.created_at row));
                     ("owned_by", VStr (App.group_name row))].
Proof.
  split.
  - intros Hin. apply list_elem_of_In, in_map_iff in Hin as ([i row] & <- & Hin).
    apply list_elem_of_In, elem_of_map_to_list in Hin. eauto.
  - intros (i & row & Hrow & ->). apply list_elem_of_In, in_map_iff.
    exists (i, row). split; [reflexivity |].
    now apply list_elem_of_In, elem_of_map_to_list.
Qed.

Lemma cacheValid_after_refresh (now now' : Z) (table : gmap string App.ModelRow)
    (db : App.State) :
  App.cacheValid now'
    {| App.models := table;
       App.cache_metadata :=
         <["models" := App.mkMetaRow now (now + MODEL_CACHE_DAYS cfg * 24 * 60 * 60)]>
           (App.cache_metadata db) |}
  = (now' <? now + MODEL_CACHE_DAYS cfg * 24 * 60 * 60).
Proof.
  unfold App.cacheValid. simpl. rewrite lookup_insert_eq. simpl. apply Z.gtb_ltb.
Qed.

End AppListing.

(** X10. GET /v1/models of app.js. With a valid cache the listing is
    built from the rows of the table and touches nothing: it has one
    entry for each row, with the id, the creation time and, as
    [owned_by], the group name of that row. With an expired or missing
    cache the catalog is refreshed once; when no path yields a model
    the answer is 500 "Failed to fetch models" and the database is as
    before; when the refresh collects models with distinct ids, the
    answer lists the fetched ids in order but, built from the fetched
    objects instead of the rows, with [owned_by] and [created]
    undefined, while every listing asked for later, within
    [MODEL_CACHE_DAYS] days, has for each fetched model an entry owned
    by its group and created at the time of the refresh. *)
Theorem app_listing_after_refresh_has_no_owner (cfg : Config) (site : string -> Fetched) :
  (forall now db,
      App.cacheValid now db = true ->
      exists listing,
        App.listModels cfg site now db = Settles (db, mkResponse 200 listing, [])
        /\ forall e,
             e ∈ Listing.entries listing
             <-> exists i row,
                   App.models db !! i = Some row
                   /\ e = VObj [("id", VStr i);
                                ("object", VStr "model");
                                ("created", VNum (App.created_at row));
                                ("owned_by", VStr (App.group_name row))])
  /\ (forall now db,
      App.cacheValid now db = false ->
      mjoin (map (App.fetchModelsFromPath site) (MODEL_PATHS cfg)) = [] ->
      App.listModels cfg site now db
      = Settles (db,
                 mkResponse 500
                   (App.errorBody "Failed to fetch models" "internal_server_error"),
                 [CatalogRefresh]))
  /\ (forall now db,
      App.cacheValid now db = false ->
      let R := mjoin (map (App.fetchModelsFromPath site) (MODEL_PATHS cfg)) in
      R <> [] -> NoDup (map App.id R) ->
      exists db' listing,
        App.listModels cfg site now db = Settles (db', mkResponse 200 listing, [CatalogRefresh])
        /\ Listing.entries listing
           = map (fun m => VObj [("id", VStr (App.id m));
                                 ("object", VStr "model");
                                 ("created", VUndefined);
                                 ("owned_by", VUndefined)]) R
        /\ (forall site' now',
              now' < now + MODEL_CACHE_DAYS cfg * 86400 ->
              exists later,
                App.listModels cfg site' now' db' = Settles (db', mkResponse 200 later, [])
                /\ forall e,
                     e ∈ Listing.entries later
                     <-> exists m,
                           m ∈ R
                           /\ e = VObj [("id", VStr (App.id m));
                                        ("object", VStr "model");
                                        ("created", VNum now);
                                        ("owned_by", VStr (App.group m))])).
Proof.
  split; [| split].
  - intros now db Hvalid. eexists. split; [now apply listModels_hit |].
    intros e. apply rows_entries.
  - intros now db Hvalid Hempty. unfold App.listModels, App.getModels.
    now rewrite Hvalid, (app_fetchAllModels_empty site cfg now db Hempty).
  - intros now db Hvalid R Hfound Hnodup. subst R.
    destruct (app_fetchAllModels_found site cfg now db Hfound Hnodup)
      as (db' & Hrun & Htable & Hmeta).
    exists db'. eexists. split; [| split].
    + unfold App.listModels, App.getModels. rewrite Hvalid, Hrun. reflexivity.
    + reflexivity.
    + intros site' now' Hnow. eexists. split.
      * apply listModels_hit. destruct db' as [table meta]. cbn in Hmeta. subst meta.
        rewrite cacheValid_after_refresh. apply Z.ltb_lt. lia.
      * intros e.
        change (Listing.entries (VObj [("object", VStr "list"); ("data", VArr ?items)]))
          with items.
        rewrite rows_entries. split.
        -- intros (i & row & Hrow & ->).
           rewrite (app_insertModels_lookup _ _ _ _ i Htable), lookup_empty in Hrow.
           destruct (List.find _ _) as [m |] eqn:Efind; [| discriminate].
           injection Hrow as <-. apply find_some in Efind as [Hin Hid].
           apply String.eqb_eq in Hid. subst i.
           exists m. split; [now apply list_elem_of_In | reflexivity].
        -- intros (m & Hin & ->).
           exists (App.id m), (App.mkModelRow (App.group m) (App.model_path m) now).
           split; [| reflexivity].
           rewrite (app_insertModels_lookup _ _ _ _ _ Htable), lookup_empty.
           now rewrite (find_id_NoDup App.id _ m).
Qed.

(** The listing of an empty app.js server names [gpt-4o] without an
    owner; asked again one second later it names its owner. *)
Lemma app_listing_after_refresh_has_no_owner_witness :
  exists db' listing later,
    App.listModels default_config Samples.oneModelSite 1000 (App.mkState ∅ ∅)
    = Settles (db', mkResponse 200 listing, [CatalogRefresh])
    /\ Listing.owners listing = [VUndefined]
    /\ App.listModels default_config Samples.downSite 1001 db'
       = Settles (db', mkResponse 200 later, [])
    /\ (VObj [("id", VStr "gpt-4o"); ("object", VStr "model");
              ("created", VNum 1000); ("owned_by", VStr "chatgpt")]
        ∈ Listing.entries later).
Proof.
  destruct (proj2 (proj2 (app_listing_after_refresh_has_no_owner default_config
                            Samples.oneModelSite)) 1000 (App.mkState ∅ ∅))
    as (db' & listing & Hrun & Hentries & Hlater).
  - reflexivity.
  - discriminate.
  - repeat constructor. intros H. inversion H.
  - destruct (Hlater Samples.downSite 1001) as (later & Hserved & Hlisted); [simpl; lia |].
    exists db', listing, later. split; [exact Hrun |]. split.
    + unfold Listing.owners. rewrite Hentries. reflexivity.
    + split; [exact Hserved |]. apply Hlisted.
      exists (App.mkModel "gpt-4o" "chatgpt" "chatGPT"). split; [left | reflexivity].
Defined.

(** ** Authentication *)
Section Authentication.

Lemma startsWith_append (p t : string) : JS.startsWith p (p +:+ t) = true.
Proof.
  induction p as [|a p IH]; [reflexivity |].
  rewrite append_cons. simpl. now rewrite Ascii.eqb_refl, IH.
Qed.

Lemma dropChars_append (p t : string) : JS.dropChars (String.length p) (p +:+ t) = t.
Proof. induction p as [|a p IH]; [reflexivity |]. rewrite append_cons. exact IH. Qed.

Lemma bearer_header (authHeader : string) :
  JS.startsWith "Bearer " authHeader = true
  <-> authHeader = "Bearer " +:+ JS.dropChars 7 authHeader.
Proof.
  split.
  - intros H. symmetry. exact (startsWith_dropChars "Bearer " authHeader H).
  - intros ->. apply startsWith_append.
Qed.

Lemma includes_spec (tokens : list string) (token : string) :
  existsb (String.eqb token) tokens = true <-> token ∈ tokens.
Proof.
  rewrite existsb_exists. split.
  - intros (t & Hin & Heq). apply String.eqb_eq in Heq as ->. now apply list_elem_of_In.
  - intros Hin. exists token. split; [now apply list_elem_of_In | apply String.eqb_refl].
Qed.

(** The shape shared by the three middlewares. *)
Lemma admits_spec (check : list string -> option string -> Auth.Verdict)
    (missing : string) :
  (forall tokens authorization,
      check tokens authorization
      = match authorization with
        | None => Auth.unauthorized missing
        | Some authHeader =>
            if negb (JS.truthy authHeader) || negb (JS.startsWith "Bearer " authHeader)
            then Auth.unauthorized missing
            else if existsb (String.eqb (JS.dropChars 7 authHeader)) tokens
                 then Auth.Next else Auth.unauthorized "Invalid token"
        end) ->
  forall tokens authorization,
    (check tokens authorization = Auth.Next
     <-> exists token, authorization = Some ("Bearer " +:+ token) /\ token ∈ tokens)
    /\ (check tokens authorization = Auth.Next
        \/ exists message,
             check tokens authorization
             = Auth.Reject (mkResponse 401 (VObj [("error", VStr message)]))).
Proof.
  intros Hshape tokens authorization. rewrite Hshape. clear Hshape. split.
  - split.
    + destruct authorization as [authHeader |]; [| discriminate].
      destruct (JS.truthy authHeader); [| discriminate].
      destruct (JS.startsWith "Bearer " authHeader) eqn:Eprefix; [| discriminate].
      simpl. destruct (existsb _ tokens) eqn:Etoken; [| discriminate].
      intros _. exists (JS.dropChars 7 authHeader). split.
      * f_equal. now apply bearer_header.
      * now apply includes_spec.
    + intros (token & -> & Hin).
      assert (JS.truthy ("Bearer " +:+ token) = true) as -> by reflexivity.
      rewrite startsWith_append. simpl negb. cbn [orb].
      change (JS.dropChars 7 ("Bearer " +:+ token))
        with (JS.dropChars (String.length "Bearer ") ("Bearer " +:+ token)).
      rewrite (dropChars_append "Bearer " token).
      apply includes_spec in Hin. now rewrite Hin.
  - destruct authorization as [authHeader |]; [| right; eexists; reflexivity].
    destruct (_ || _); [right; eexists; reflexivity |].
    destruct (existsb _ tokens); [now left | right; eexists; reflexivity].
Qed.

End Authentication.

(** X11. The three authentication middlewares ([authMiddleware] of
    app.js, [authenticate] of server.js, [authenticateRequest] of
    utils.js) let a request through exactly when its Authorization
    header is ["Bearer "] followed by one of the configured tokens, and
    answer every other request with status 401. A non-empty
    [AUTH_TOKENS] setting made of comma-free tokens joined with commas
    configures exactly those tokens. *)
Theorem bearer_token_is_required (tokens : list string) (authorization : option string) :
  ((Auth.authMiddleware tokens authorization = Auth.Next
    <-> exists token, authorization = Some ("Bearer " +:+ token) /\ token ∈ tokens)
   /\ (Auth.authenticate tokens authorization = Auth.Next
       <-> exists token, authorization = Some ("Bearer " +:+ token) /\ token ∈ tokens)
   /\ (Auth.authenticateRequest tokens authorization = Auth.Next
       <-> exists token, authorization = Some ("Bearer " +:+ token) /\ token ∈ tokens))
  /\ ((Auth.authMiddleware tokens authorization = Auth.Next
       \/ exists message,
            Auth.authMiddleware tokens authorization
            = Auth.Reject (mkResponse 401 (VObj [("error", VStr message)])))
      /\ (Auth.authenticate tokens authorization = Auth.Next
          \/ exists message,
               Auth.authenticate tokens authorization
               = Auth.Reject (mkResponse 401 (VObj [("error", VStr message)])))
      /\ (Auth.authenticateRequest tokens authorization = Auth.Next
          \/ exists message,
               Auth.authenticateRequest tokens authorization
               = Auth.Reject (mkResponse 401 (VObj [("error", VStr message)]))))
  /\ (tokens <> [] ->
      Forall (fun t => JS.includesChar "," t = false) tokens ->
      JS.truthy (JS.join "," tokens) = true ->
      Auth.AUTH_TOKENS (Some (JS.join "," tokens)) = tokens).
Proof.
  pose proof (admits_spec Auth.authMiddleware "Missing or invalid authorization header"
                ltac:(reflexivity) tokens authorization) as [Happ Happ'].
  pose proof (admits_spec Auth.authenticate "Unauthorized"
                ltac:(reflexivity) tokens authorization) as [Hserver Hserver'].
  pose proof (admits_spec Auth.authenticateRequest "Unauthorized"
                ltac:(reflexivity) tokens authorization) as [Hutils Hutils'].
  split; [auto |]. split; [auto |].
  intros Hne Hfree Htruthy. unfold Auth.AUTH_TOKENS. rewrite Htruthy.
  now apply (split_join "," tokens).
Qed.

(** With the setting ["sk-a,sk-b"], the header ["Bearer sk-b"] is let
    through. *)
Lemma bearer_token_is_required_witness :
  Auth.AUTH_TOKENS (Some "sk-a,sk-b") = ["sk-a"; "sk-b"]
  /\ Auth.authMiddleware (Auth.AUTH_TOKENS (Some "sk-a,sk-b")) (Some "Bearer sk-b")
     = Auth.Next.
Proof.
  split.
  - apply (proj2 (proj2 (bearer_token_is_required ["sk-a"; "sk-b"] None)));
      [discriminate | repeat constructor | reflexivity].
  - apply (proj1 (proj1 (bearer_token_is_required (Auth.AUTH_TOKENS (Some "sk-a,sk-b"))
                           (Some "Bearer sk-b")))).
    exists "sk-b". split; [reflexivity |]. right. left.
Defined.

(** ** The cached model list of server.js *)
Section ServerModelList.

Variable cfg : Config.

Lemma server_getModels_miss (site : string -> Fetched) (now : Z) (db : Server.State) :
  Server.readCache "model_list" now db = None ->
  let discovered := Server.discoverModels cfg site now db in
  Server.getModels cfg site now db
  = (if (0 <? length discovered.2)%nat
     then {| Server.models := Server.models discovered.1;
             Server.model_cache :=
               <["model_list" := Server.mkCacheRow discovered.2
                                   (now + MODEL_CACHE_DAYS cfg * 24 * 60 * 60 * 1000)]>
                 (Server.model_cache discovered.1) |}
     else discovered.1,
     discovered.2, [CatalogRefresh]).
Proof.
  intros Hmiss. unfold Server.getModels. rewrite Hmiss.
  now destruct (Server.discoverModels cfg site now db).
Qed.

Lemma discoverModels_cache (site : string -> Fetched) (now : Z) (db : Server.State) :
  Server.model_cache (Server.discoverModels cfg site now db).1 = Server.model_cache db.
Proof.
  unfold Server.discoverModels.
  now destruct (Server.discoverPaths site now (MODEL_PATHS cfg) (Server.models db)).
Qed.

End ServerModelList.

(** X12. [getModels] of server.js. A refresh that discovers at least
    one model caches the discovered list for [MODEL_CACHE_DAYS] days:
    every later call before that time returns the same list without
    any discovery and without touching the database, whatever the site
    does. A refresh that discovers nothing caches nothing, so the next
    call discovers again. *)
Theorem server_model_list_is_cached (cfg : Config) (site : string -> Fetched) (now : Z)
    (db : Server.State) :
  Server.readCache "model_list" now db = None ->
  let refreshed := Server.getModels cfg site now db in
  refreshed.2 = [CatalogRefresh]
  /\ (refreshed.1.2 <> [] ->
      forall site' now', now' < now + MODEL_CACHE_DAYS cfg * 86400000 ->
        Server.getModels cfg site' now' refreshed.1.1 = (refreshed.1.1, refreshed.1.2, []))
  /\ (refreshed.1.2 = [] ->
      Server.model_cache refreshed.1.1 = Server.model_cache db
      /\ forall site' now', Server.readCache "model_list" now' db = None ->
           (Server.getModels cfg site' now' refreshed.1.1).2 = [CatalogRefresh]).
Proof.
  intros Hmiss refreshed. subst refreshed.
  rewrite (server_getModels_miss cfg site now db Hmiss). cbv zeta. cbn [fst snd].
  pose proof (discoverModels_cache cfg site now db) as Hcache.
  destruct (Server.discoverModels cfg site now db) as [db1 found]. cbn [fst snd] in *.
  split; [reflexivity |]. split.
  - intros Hfound site' now' Hnow.
    destruct found as [|m ms]; [congruence |]. cbn [length Nat.ltb Nat.leb].
    unfold Server.getModels, Server.readCache. cbn [Server.model_cache].
    rewrite lookup_insert_eq. cbn [Server.expires_at Server.cache_value].
    destruct (Z.gtb_spec (now + MODEL_CACHE_DAYS cfg * 24 * 60 * 60 * 1000) now');
      [reflexivity | lia].
  - intros ->. cbn [length Nat.ltb Nat.leb]. split; [exact Hcache |].
    intros site' now' Hmiss'. rewrite server_getModels_effects.
    unfold Server.readCache in *. rewrite Hcache. now rewrite Hmiss'.
Qed.

(** A refresh of an empty server.js at time 1000 finds [gpt-4o]; asked
    again at time 5000, with the site down, it answers from the cache. *)
Lemma server_model_list_is_cached_witness :
  let refreshed := Server.getModels default_config Samples.oneModelSite 1000
                     Samples.emptyServerDb in
  Server.readCache "model_list" 1000 Samples.emptyServerDb = None
  /\ map Server.id refreshed.1.2 = ["gpt-4o"]
  /\ Server.getModels default_config Samples.downSite 5000 refreshed.1.1
     = (refreshed.1.1, refreshed.1.2, []).
Proof.
  assert (Server.readCache "model_list" 1000 Samples.emptyServerDb = None) as Hmiss
    by reflexivity.
  cbv zeta. split; [exact Hmiss |]. split; [reflexivity |].
  apply (proj1 (proj2 (server_model_list_is_cached default_config Samples.oneModelSite 1000
                         Samples.emptyServerDb Hmiss))).
  - discriminate.
  - simpl. lia.
Defined.

(** ** An unknown model in the modular server *)
Section ModularLookup.

Variables (cfg : Config) (site : string -> Fetched) (clk : ModelManager.Clock).

(** A forced [getModelsList] completes when the fetched ids are
    distinct. *)
Lemma getModelsList_forced_settles (db : Database.State) :
  NoDup (map Database.id (ModelManager.fetchAllModels cfg site)) ->
  exists refreshed, ModelManager.getModelsList cfg site clk true db = Settles refreshed.
Proof.
  intros Hnodup. unfold ModelManager.getModelsList, ModelManager.fetchFreshModels.
  simpl negb. cbn [andb].
  destruct (0 <? length _)%nat; [| eauto].
  apply (saveModels_settles cfg (ModelManager.atSave clk) _ db) in Hnodup as [db' ->].
  eauto.
Qed.

(** The lookup of [processChat] refreshes exactly when the first
    lookup misses; a hit leaves the database as it is. *)
Lemma lookupGroup_cases (modelId : string) (db : Database.State)
    (found : Database.State * option string * list Effect) :
  Chat.lookupGroup cfg site clk modelId db = Settles found ->
  found.1.2 = Chat.knownGroup modelId found.1.1
  /\ (found.2 = [] /\ found.1.1 = db /\ is_Some (Chat.knownGroup modelId db)
      \/ found.2 = [CatalogRefresh] /\ Chat.knownGroup modelId db = None).
Proof.
  unfold Chat.lookupGroup.
  destruct (Chat.knownGroup modelId db) as [g |] eqn:E.
  - intros [= <-]. cbn [fst snd]. split; [now rewrite E |]. left. eauto.
  - destruct (ModelManager.getModelsList cfg site clk true db) as [[db' answer] |];
      [| discriminate].
    intros [= <-]. cbn [fst snd]. split; [reflexivity |]. now right.
Qed.

Lemma lookupGroup_settles (modelId : string) (db : Database.State) :
  NoDup (map Database.id (ModelManager.fetchAllModels cfg site)) ->
  exists found, Chat.lookupGroup cfg site clk modelId db = Settles found.
Proof.
  intros Hnodup. unfold Chat.lookupGroup.
  destruct (Chat.knownGroup modelId db); [eauto |].
  destruct (getModelsList_forced_settles db Hnodup) as [[db' answer] ->]. eauto.
Qed.

End ModularLookup.

(** X13. The modular server (index.js with chat.js) on a request whose
    model has no group once the lookup of [processChat] has completed
    (it completes whenever the ids its refresh fetches are distinct):
    the catalog was refreshed exactly once, no chat page was driven,
    and the route answers with the error [Model <id> not found], where
    [<id>] reads [undefined] for a request without model, as a server
    error: a non-streaming request gets status 500 with [error.type]
    equal to ["error"] (through [errorHandler]), a streaming request
    gets status 200 and a single data line holding the error object,
    without the [data: [DONE]] line. Conversely a chat page is driven
    only for a model id that has a group in the database the request
    leaves. *)
Theorem modular_server_unknown_model_is_a_server_error
    (cfg : Config) (site : string -> Fetched) (clk : ModelManager.Clock)
    (b : Chat.Browser) (messageId : string) (timestamp : Z) (req : Request)
    (db : Database.State) :
  let message := "Model " +:+ JS.template (model req) +:+ " not found" in
  (NoDup (map Database.id (ModelManager.fetchAllModels cfg site)) ->
   exists handled,
     Index.postChatCompletions cfg site clk b messageId timestamp req db = Settles handled)
  /\ forall handled,
       Index.postChatCompletions cfg site clk b messageId timestamp req db = Settles handled ->
       ((forall modelId, model req = Some modelId ->
                         Chat.knownGroup modelId handled.1.1 = None) ->
        handled.2 = [CatalogRefresh]
        /\ handled.1.2
           = Some (if stream req
                   then EventStream 200
                          [Data (VObj [("error", VObj [("message", VStr message);
                                                       ("type", VStr "error")])])]
                   else Json (mkResponse 500
                          (VObj [("error", VObj [("message", VStr message);
                                                 ("type", VStr "error");
                                                 ("code", VNull)])]))))
       /\ (BrowserAutomation ∈ handled.2 ->
           exists modelId,
             model req = Some modelId /\ is_Some (Chat.knownGroup modelId handled.1.1)).
Proof.
  cbv zeta. unfold Index.postChatCompletions, Chat.processChat.
  destruct (model req) as [modelId |].
  - split.
    + intros Hnodup.
      destruct (lookupGroup_settles cfg site clk modelId db Hnodup)
        as [[[db' [g |]] effects] ->]; [| eauto].
      destruct (messages req); eauto.
    + intros handled.
      pose proof (lookupGroup_cases cfg site clk modelId db) as Hcases.
      destruct (Chat.lookupGroup cfg site clk modelId db) as [[[db' found] effects] |];
        [| discriminate].
      destruct (Hcases _ eq_refl) as [Hfound Heffects]. cbn [fst snd] in Hfound, Heffects.
      destruct found as [g |].
      * assert (is_Some (Chat.knownGroup modelId db')) as Hknown
          by (rewrite <- Hfound; eauto).
        destruct (messages req) as [msgs |]; intros [= <-]; cbn [fst snd]; split;
          try (intros Hnone; rewrite (Hnone modelId eq_refl) in Hknown;
               now destruct Hknown);
          intros _; eauto.
      * intros [= <-]. cbn [fst snd]. split.
        -- intros _. destruct Heffects as [(_ & Hdb & Hhit) | (Heff & _)].
           ++ subst db'. rewrite <- Hfound in Hhit. now destruct Hhit.
           ++ split; [exact Heff |]. destruct (stream req); reflexivity.
        -- intros Hin. exfalso.
           destruct Heffects as [(Heff & _) | (Heff & _)]; rewrite Heff in Hin.
           ++ inversion Hin.
           ++ apply list_elem_of_singleton in Hin. discriminate.
  - split.
    + intros Hnodup.
      destruct (getModelsList_forced_settles cfg site clk db Hnodup) as [[db' answer] ->].
      eauto.
    + intros handled.
      destruct (ModelManager.getModelsList cfg site clk true db) as [[db' answer] |];
        [| discriminate].
      intros [= <-]. cbn [fst snd]. split.
      * intros _. split; [reflexivity |]. destruct (stream req); reflexivity.
      * intros Hin. apply list_elem_of_singleton in Hin. discriminate.
Qed.

(** A model the site does not offer, and a request without model,
    asked of the modular server: one refresh, no chat page, status
    500. *)
Lemma modular_server_unknown_model_is_a_server_error_witness :
  exists db',
    Index.postChatCompletions default_config Samples.oneModelSite (Samples.clockAt 1000)
      Samples.silentChatBrowser "id-1" 1 Samples.modelessRequest Samples.database
    = Settles (db',
               Some (Json (mkResponse 500
                  (VObj [("error", VObj [("message", VStr "Model undefined not found");
                                         ("type", VStr "error");
                                         ("code", VNull)])]))),
               [CatalogRefresh]).
Proof.
  pose proof (modular_server_unknown_model_is_a_server_error default_config
                Samples.oneModelSite (Samples.clockAt 1000) Samples.silentChatBrowser
                "id-1" 1 Samples.modelessRequest Samples.database) as [Hsettles Hhandled].
  destruct Hsettles as [[[db' reply] effects] Hrun].
  { repeat constructor. intros H. inversion H. }
  destruct (Hhandled _ Hrun) as [Hmiss _]. cbn [fst snd] in Hmiss.
  destruct Hmiss as [-> ->]; [discriminate |].
  exists db'. exact Hrun.
Defined.

(** ** Reasoning text in the encoders of chat.js *)
Section Reasoning.

Variables (messageId : string) (timestamp : Z) (model : string).

Lemma reasoningPayloads_app (a b : list value) :
  Wire.reasoningPayloads (a ++ b) = Wire.reasoningPayloads a ++ Wire.reasoningPayloads b.
Proof. apply omap_app. Qed.

Lemma reasoning_of_reasoningChunks (chunks : list string) :
  Wire.reasoningPayloads (map (Chat.reasoningChunk messageId timestamp model) chunks) = chunks.
Proof.
  induction chunks as [|c cs IH]; [reflexivity |].
  change (c :: Wire.reasoningPayloads
                 (map (Chat.reasoningChunk messageId timestamp model) cs) = c :: cs).
  now rewrite IH.
Qed.

Lemma reasoning_of_contentChunks (chunks : list string) :
  Wire.reasoningPayloads (map (Chat.contentChunk messageId timestamp model) chunks) = [].
Proof. induction chunks as [|c cs IH]; [reflexivity | exact IH]. Qed.

(** The reasoning chunks [formatStreamResponse] builds carry the
    reasoning text, whether or not there is one. *)
Lemma reasoningChunks_concat (response : CompletionResult) :
  JS.concat (if Chat.hasReasoning response
             then default [] (Chat.splitIntoChunks (default EmptyString (reasoning response)) 10)
             else [])
  = default EmptyString (reasoning response).
Proof.
  unfold Chat.hasReasoning. destruct (reasoning response) as [r |]; [| reflexivity].
  destruct r as [|c r]; [reflexivity |].
  change (JS.concat (default [] (Chat.splitIntoChunks (String c r) 10)) = String c r).
  destruct (splitIntoChunks_total (String c r) 10 ltac:(lia)) as (chunks & -> & Hcat & _).
  exact Hcat.
Qed.

End Reasoning.

(** X14. The two encoders of chat.js carry the same texts. The stream
    [formatStreamResponse] builds for a completion with a content is a
    reasoning part followed by a content part: the reasoning part (the
    role chunk and the reasoning chunks) carries no content and its
    [reasoning_content] payloads concatenate to the reasoning text
    (the empty text when the page has none), the content part carries
    no reasoning and its content payloads concatenate to the content.
    The response [formatNonStreamResponse] builds has that content as
    [message.content], and that reasoning as
    [message.reasoning_content] exactly when it is not empty. *)
Theorem chat_encoders_carry_the_same_texts
    (messageId : string) (timestamp : Z) (model text : string) (thoughts : option string) :
  let response := mkCompletion (Some text) thoughts in
  let message :=
    Obj.get "message"
      (Wire.choice (Chat.formatNonStreamResponse messageId timestamp response model)) in
  (exists reasoningPart contentPart,
      Chat.formatStreamResponse messageId timestamp response model
      = Ok (reasoningPart ++ contentPart)
      /\ Wire.contentPayloads reasoningPart = []
      /\ JS.concat (Wire.reasoningPayloads reasoningPart) = default EmptyString thoughts
      /\ Wire.reasoningPayloads contentPart = []
      /\ JS.concat (Wire.contentPayloads contentPart) = text)
  /\ Obj.get "content" message = VStr text
  /\ Obj.get "reasoning_content" message
     = match thoughts with
       | Some r => if JS.truthy r then VStr r else VUndefined
       | None => VUndefined
       end.
Proof.
  cbv zeta. split; [| split].
  - pose proof (reasoningChunks_concat (mkCompletion (Some text) thoughts)) as Hthoughts.
    cbn [reasoning] in Hthoughts.
    destruct (splitIntoChunks_total text 10 ltac:(lia)) as (chunks & Hrun & Hcat & _).
    unfold Chat.formatStreamResponse. cbn [content reasoning]. rewrite Hrun. cbn [default].
    set (rs := if Chat.hasReasoning _ then _ else _) in *.
    exists ([Chat.roleChunk messageId timestamp model (mkCompletion (Some text) thoughts)]
            ++ map (Chat.reasoningChunk messageId timestamp model) rs),
           (map (Chat.contentChunk messageId timestamp model) chunks
            ++ [Chat.finalChunk messageId timestamp model]).
    split; [now rewrite <- !app_assoc |]. split; [| split; [| split]].
    + rewrite contentPayloads_app, payloads_reasoningChunks. reflexivity.
    + rewrite reasoningPayloads_app, reasoning_of_reasoningChunks.
      assert (JS.concat (Wire.reasoningPayloads
                [Chat.roleChunk messageId timestamp model (mkCompletion (Some text) thoughts)])
              = EmptyString) as Hrole.
      { unfold Chat.roleChunk.
        destruct (Chat.hasReasoning (mkCompletion (Some text) thoughts)); reflexivity. }
      rewrite concat_app, Hrole, Hthoughts. reflexivity.
    + rewrite reasoningPayloads_app, reasoning_of_contentChunks. reflexivity.
    + rewrite contentPayloads_app, payloads_contentChunks.
      change (Wire.contentPayloads [Chat.finalChunk messageId timestamp model])
        with [EmptyString].
      rewrite concat_app. simpl JS.concat. now rewrite !append_empty_r.
  - reflexivity.
  - unfold Chat.formatNonStreamResponse, Chat.hasReasoning. cbn [reasoning content].
    destruct thoughts as [[|c r] |]; reflexivity.
Qed.

(** X15. The wait loop of [simulateBrowserInteraction] (app.js) is left
    at the first of its 120 passes that reads a text with something in
    it (at the first read, made when the copy button is there, or at
    the second, made when no loading indicator is), with that text
    without a closing [Copy] or [Copied!] label and trimmed. When the
    page was reached and the message sent, the interaction returns
    that cleaned text if it is not empty; if it is empty (the page
    showed nothing but the label) the interaction throws
    [No response received within timeout period] although no pass was
    left to wait. *)
Theorem app_wait_ends_at_the_first_text (b : App.Browser) (temperature : option Q) (n : nat) :
  (n < App.maxAttempts)%nat ->
  (forall m, (m < n)%nat -> App.seesText (App.attemptAt b m) = false) ->
  App.seesText (App.attemptAt b n) = true ->
  let answer := App.clean (App.textRead (App.attemptAt b n)) in
  App.hasText (App.textRead (App.attemptAt b n)) = true
  /\ App.waitLoop (App.attemptAt b) App.maxAttempts 0 EmptyString = App.Broke answer
  /\ (App.navigate b = Ok tt -> App.probe b = Ok tt -> App.send b = Ok tt ->
      App.outcome (App.simulateBrowserInteraction b temperature)
      = if JS.truthy answer then Ok answer
        else Throw "No response received within timeout period").
Proof.
  intros Hn Hquiet Hsees. cbv zeta.
  assert (App.waitLoop (App.attemptAt b) App.maxAttempts 0 EmptyString
          = App.Broke (App.clean (App.textRead (App.attemptAt b n)))) as Hrun.
  { apply waitLoop_breaks; [lia | | exact Hsees]. intros m Hm. apply Hquiet. lia. }
  split; [exact (proj2 (attemptStep_break _ EmptyString Hsees)) |].
  split; [exact Hrun |].
  intros Hnav Hprobe Hsend. unfold App.simulateBrowserInteraction.
  rewrite Hnav, Hprobe, Hsend.
  destruct (App.probesTemperature temperature); cbn [App.outcome]; now rewrite Hrun.
Qed.

(** A page that shows only the label of the copy button at the second
    pass: the loop is left there and the interaction throws. *)
Lemma app_wait_ends_at_the_first_text_witness :
  App.waitLoop (App.attemptAt Samples.labelOnlyBrowser) App.maxAttempts 0 EmptyString
  = App.Broke EmptyString
  /\ App.outcome (App.simulateBrowserInteraction Samples.labelOnlyBrowser None)
     = Throw "No response received within timeout period".
Proof.
  assert (forall m, (m < 1)%nat ->
            App.seesText (App.attemptAt Samples.labelOnlyBrowser m) = false) as Hquiet.
  { intros m Hm. assert (m = 0%nat) as -> by lia. reflexivity. }
  destruct (app_wait_ends_at_the_first_text Samples.labelOnlyBrowser None 1
              ltac:(unfold App.maxAttempts; lia) Hquiet eq_refl) as (_ & Hrun & Hout).
  split; [exact Hrun |]. exact (Hout eq_refl eq_refl eq_refl).
Defined.

(** ** Completed answers *)
Section CompletedAnswers.

(** The idle count completes only a content that passed the test
    [if (responseContent)]. *)
Lemma pollLoop_completed_truthy (startTime : Z) (polls : list Server.Poll)
    (lastContent : string) (noChangeCount : Z) (answer : string) :
  Server.pollLoop startTime polls lastContent noChangeCount = Some (Server.Completed answer) ->
  JS.truthy answer = true.
Proof.
  revert lastContent noChangeCount.
  induction polls as [|p rest IH]; intros lastContent noChangeCount; simpl; [discriminate |].
  destruct (_ <? _); [| discriminate].
  destruct (Server.page p) as [responses | e]; [| discriminate].
  destruct (Server.extractCompleted responses) as [c |]; [| apply IH].
  destruct (JS.truthy c) eqn:Ec; [| apply IH].
  destruct (String.eqb c lastContent); [| apply IH].
  destruct (_ >=? _); [| apply IH].
  now intros [= <-].
Qed.

Lemma server_watcher_ok (chatId : string) (created : Z) (model : string)
    (startTime : Z) (polls : list Server.Poll) (response : http_response) :
  Server.handleNonStreamingResponse chatId created model startTime polls = Some (Ok response) ->
  status response = 200 ->
  exists answer,
    JS.truthy answer = true
    /\ body response = Server.completionResponse chatId created model answer.
Proof.
  unfold Server.handleNonStreamingResponse.
  destruct (Server.pollLoop startTime polls EmptyString 0) as [[answer | lastContent | e] |] eqn:E;
    try discriminate.
  - intros [= <-] _. exists answer. split; [| reflexivity].
    exact (pollLoop_completed_truthy _ _ _ _ _ E).
  - destruct (JS.truthy lastContent) eqn:Et; intros [= <-]; [eauto | discriminate].
Qed.

Lemma app_interaction_ok (b : App.Browser) (temperature : option Q) (r : string) :
  App.outcome (App.simulateBrowserInteraction b temperature) = Ok r -> JS.truthy r = true.
Proof.
  unfold App.simulateBrowserInteraction.
  destruct (App.navigate b); [| discriminate].
  destruct (if App.probesTemperature temperature then App.probe b else Ok tt); [| discriminate].
  destruct (App.send b); [| discriminate].
  cbn [App.outcome]. unfold App.afterLoop.
  destruct (JS.truthy (App.loopResponse _)) eqn:Et; [| discriminate].
  now intros [= <-].
Qed.

End CompletedAnswers.

(** X16. Neither app.js nor server.js answers a chat completion with
    status 200 and an empty text. Whenever the non-streaming route of
    server.js ([handleChatCompletion]) or of app.js answers 200, the
    body is the completion object of a text that is not empty; in
    server.js that text passed [if (responseContent)] or
    [if (lastContent)], in app.js the test [if (!response)] after the
    wait loop. *)
Theorem completion_with_status_200_is_never_empty
    (cfg : Config) (site : string -> Fetched) (now : Z) (requestId : string) (created : Z)
    (req : Request) (response : http_response) :
  status response = 200 ->
  (forall b db,
      (Server.handleChatCompletion cfg site b now requestId created req db).1.2
      = Some (Json response) ->
      exists modelId answer,
        model req = Some modelId
        /\ JS.truthy answer = true
        /\ body response = Server.completionResponse requestId created modelId answer)
  /\ (forall b db handled,
      App.chatCompletions cfg site b now requestId created req db = Settles handled ->
      handled.1.2 = Json response ->
      exists modelId msgs answer,
        model req = Some modelId
        /\ messages req = Some msgs
        /\ JS.truthy answer = true
        /\ body response
           = App.completionResponse requestId created modelId (formatMessages msgs) answer).
Proof.
  intros Hstatus.
  assert (forall modelId, requestedModel req = Some modelId -> model req = Some modelId)
    as Hrequested.
  { intros modelId. unfold requestedModel.
    destruct (model req) as [m |]; [| discriminate].
    destruct (JS.truthy m); [congruence | discriminate]. }
  split.
  - intros b db. unfold Server.handleChatCompletion.
    destruct (messages req) as [msgs |]; cbn [fst snd];
      [| intros [= <-]; discriminate].
    destruct (requestedModel req) as [modelId |] eqn:Emodel; cbn [fst snd];
      [| intros [= <-]; discriminate].
    destruct (Server.getModels cfg site now db) as [[db' listed] effects].
    destruct (Server.findModel modelId listed) as [modelInfo |]; cbn [fst snd];
      [| intros [= <-]; discriminate].
    unfold Server.driveBrowser.
    destruct (Server.prepare b); cbn [Server.reply];
      [| intros [= <-]; discriminate].
    destruct (Server.probe b); cbn [Server.reply];
      [| intros [= <-]; discriminate].
    destruct (Server.send b); cbn [Server.reply];
      [| intros [= <-]; discriminate].
    destruct (stream req); cbn [Server.reply]; [discriminate |].
    destruct (Server.handleNonStreamingResponse requestId created modelId
                (Server.startTime b) (Server.polls b)) as [[sent | e] |] eqn:E;
      [| intros [= <-]; discriminate | discriminate].
    intros [= ->]. destruct (server_watcher_ok _ _ _ _ _ _ E Hstatus) as (answer & Ht & Hb).
    exists modelId, answer. auto.
  - intros b db handled. unfold App.chatCompletions.
    destruct (messages req) as [[|m msgs] |];
      try (intros [= <-]; cbn [fst snd]; intros [= <-]; discriminate).
    destruct (requestedModel req) as [modelId |] eqn:Emodel;
      [| intros [= <-]; cbn [fst snd]; intros [= <-]; discriminate].
    destruct (App.lookupModel cfg site now modelId db) as [[[db' [info |]] effects] |];
      [| intros [= <-]; cbn [fst snd]; intros [= <-]; discriminate | discriminate].
    intros [= <-]. cbn [fst snd].
    destruct (stream req); [discriminate |].
    unfold App.nonStreamingBranch.
    destruct (App.outcome (App.simulateBrowserInteraction b (temperature req)))
      as [answer | e] eqn:E; intros [= <-]; [| discriminate].
    exists modelId, (m :: msgs), answer. split; [auto |]. split; [reflexivity |].
    split; [| reflexivity]. exact (app_interaction_ok _ _ _ E).
Qed.

(** A page of app.js that shows "Hello" and its copy button: the
    answer 200 carries "Hello". *)
Lemma completion_with_status_200_is_never_empty_witness :
  exists response answer,
    App.chatCompletions default_config Samples.downSite Samples.wideAppBrowser
      1000 "chatcmpl-1" 1 Samples.plainRequest Samples.appDb
    = Settles (Samples.appDb, Json response, [BrowserAutomation])
    /\ status response = 200
    /\ JS.truthy answer = true
    /\ body response = App.completionResponse "chatcmpl-1" 1 "gpt-4o" "user:hi" answer.
Proof.
  set (response := mkResponse 200
                     (App.completionResponse "chatcmpl-1" 1 "gpt-4o" "user:hi" "Hello")).
  assert (App.chatCompletions default_config Samples.downSite Samples.wideAppBrowser
            1000 "chatcmpl-1" 1 Samples.plainRequest Samples.appDb
          = Settles (Samples.appDb, Json response, [BrowserAutomation]))
    as Hreply by (vm_compute; reflexivity).
  destruct (proj2 (completion_with_status_200_is_never_empty default_config Samples.downSite
                     1000 "chatcmpl-1" 1 Samples.plainRequest response eq_refl)
              Samples.wideAppBrowser Samples.appDb _ Hreply eq_refl)
    as (modelId & msgs & answer & Hmodel & Hmsgs & Htruthy & Hbody).
  exists response, answer. injection Hmsgs as <-. injection Hmodel as <-. auto.
Defined.

(** ** A request the modular server can serve *)
Section ModularServing.

Lemma dataChunks_Data (chunks : list value) : Wire.dataChunks (map Data chunks) = chunks.
Proof.
  induction chunks as [|c cs IH]; [reflexivity |].
  change (c :: Wire.dataChunks (map Data cs) = c :: cs). now rewrite IH.
Qed.

(** The stream of [formatStreamResponse], read back as its two texts. *)
Lemma formatStreamResponse_texts (messageId : string) (timestamp : Z) (model text : string)
    (thoughts : option string) :
  exists chunks,
    Chat.formatStreamResponse messageId timestamp (mkCompletion (Some text) thoughts) model
    = Ok chunks
    /\ JS.concat (Wire.contentPayloads chunks) = text
    /\ JS.concat (Wire.reasoningPayloads chunks) = default EmptyString thoughts.
Proof.
  pose proof (reasoningChunks_concat (mkCompletion (Some text) thoughts)) as Hthoughts.
  cbn [reasoning] in Hthoughts.
  destruct (splitIntoChunks_total text 10 ltac:(lia)) as (chunks & Hrun & Hcat & _).
  unfold Chat.formatStreamResponse. cbn [content reasoning]. rewrite Hrun. cbn [default].
  set (rs := if Chat.hasReasoning _ then _ else _) in *.
  eexists. split; [reflexivity |]. split.
  - rewrite !contentPayloads_app, payloads_reasoningChunks, payloads_contentChunks.
    change (Wire.contentPayloads [Chat.finalChunk messageId timestamp model])
      with [EmptyString].
    change (Wire.contentPayloads [Chat.roleChunk messageId timestamp model
              (mkCompletion (Some text) thoughts)]) with (@nil string).
    cbn [app]. rewrite concat_app. simpl JS.concat. now rewrite !append_empty_r.
  - rewrite !reasoningPayloads_app, reasoning_of_reasoningChunks, reasoning_of_contentChunks.
    change (Wire.reasoningPayloads [Chat.finalChunk messageId timestamp model])
      with (@nil string).
    rewrite !app_nil_r, concat_app, Hthoughts.
    unfold Chat.roleChunk.
    destruct (Chat.hasReasoning (mkCompletion (Some text) thoughts)); reflexivity.
Qed.

End ModularServing.

(** X18. The modular server (index.js with chat.js) on a request it
    can serve: the model has a group in the database, the request has
    messages and the chat page gives a completion with a content. The
    catalog is not refreshed and the database is left as it is, one
    chat page is driven, and the client gets the texts of the page: a
    streaming request gets status 200, one data line per chunk and
    then the [data: [DONE]] line, the content payloads concatenating
    to the content and the reasoning payloads to the reasoning; a
    non-streaming request gets status 200 and the content as
    [choices[0].message.content]. *)
Theorem modular_server_answers_with_the_texts_of_the_page
    (cfg : Config) (site : string -> Fetched) (clk : ModelManager.Clock)
    (b : Chat.Browser) (messageId : string) (timestamp : Z) (req : Request)
    (db : Database.State) (modelId text : string) (thoughts : option string) :
  model req = Some modelId ->
  is_Some (Chat.knownGroup modelId db) ->
  is_Some (messages req) ->
  Chat.answer (Chat.sendToBrowser b (temperature req))
  = Some (Ok (mkCompletion (Some text) thoughts)) ->
  exists reply,
    Index.postChatCompletions cfg site clk b messageId timestamp req db
    = Settles (db, Some reply, [BrowserAutomation])
    /\ if stream req
       then exists chunks,
              reply = EventStream 200 (map Data chunks ++ [DONE])
              /\ JS.concat (Wire.contentPayloads chunks) = text
              /\ JS.concat (Wire.reasoningPayloads chunks) = default EmptyString thoughts
       else exists response,
              reply = Json (mkResponse 200 response)
              /\ Obj.get "content" (Obj.get "message" (Wire.choice response)) = VStr text.
Proof.
  intros Hmodel [g Hknown] [msgs Hmsgs] Hsent.
  unfold Index.postChatCompletions, Chat.processChat, Chat.lookupGroup.
  rewrite Hmodel, Hknown, Hmsgs, Hsent. cbn [fst snd app].
  destruct (stream req).
  - destruct (formatStreamResponse_texts messageId timestamp modelId text thoughts)
      as (chunks & -> & Hcontent & Hthoughts).
    eexists. split; [reflexivity |]. exists chunks. auto.
  - eexists. split; [reflexivity |]. eexists. split; reflexivity.
Qed.

(** The page of chat.js that shows "Hello" at its first poll, asked for
    a stream: role chunk, one content chunk, final chunk, terminator. *)
Lemma modular_server_answers_with_the_texts_of_the_page_witness :
  exists chunks,
    Index.postChatCompletions default_config Samples.downSite (Samples.clockAt 1000)
      Samples.narrowChatBrowser "id-1" 1 Samples.streamingRequest Samples.database
    = Settles (Samples.database, Some (EventStream 200 (map Data chunks ++ [DONE])),
               [BrowserAutomation])
    /\ length chunks = 3%nat
    /\ JS.concat (Wire.contentPayloads chunks) = "Hello".
Proof.
  destruct (modular_server_answers_with_the_texts_of_the_page default_config Samples.downSite
              (Samples.clockAt 1000) Samples.narrowChatBrowser "id-1" 1
              Samples.streamingRequest Samples.database "gpt-4o" "Hello" None
              eq_refl ltac:(eexists; reflexivity) ltac:(eexists; reflexivity) eq_refl)
    as (reply & Hrun & chunks & -> & Hcontent & _).
  exists chunks. split; [exact Hrun |]. split; [| exact Hcontent].
  vm_compute in Hrun. injection Hrun as Hchunks.
  destruct chunks as [|c1 [|c2 [|c3 [|c4 rest]]]]; try discriminate. reflexivity.
Defined.

(** ** The page path of a discovered model *)
Section ServerPaths.

Variables (site : string -> Fetched) (timestamp : Z).

Lemma discoverPath_group (table : gmap string Server.ModelRow) (p : string) (m : Server.Model) :
  m ∈ (Server.discoverPath site timestamp table p).2 ->
  Server.group m = JS.toLowerCase p /\ fails site p = false.
Proof.
  unfold Server.discoverPath, fails.
  destruct (site p) as [e | select]; cbn [snd]; [intros H; inversion H |].
  intros Hin. apply list_elem_of_In, in_map_iff in Hin as (o & <- & _). auto.
Qed.

Lemma discoverPaths_group (paths : list string) (table : gmap string Server.ModelRow)
    (m : Server.Model) :
  m ∈ mjoin (Server.discoverPaths site timestamp paths table).2 ->
  exists q, q ∈ paths /\ Server.group m = JS.toLowerCase q /\ fails site q = false.
Proof.
  revert table. induction paths as [|p ps IH]; intros table; [intros H; inversion H |].
  simpl.
  pose proof (discoverPath_group table p m) as Hhere.
  destruct (Server.discoverPath site timestamp table p) as [table1 found].
  pose proof (IH table1) as Hlater.
  destruct (Server.discoverPaths site timestamp ps table1) as [table2 results].
  cbn [fst snd mjoin list_join] in *. rewrite elem_of_app.
  intros [Hin | Hin].
  - destruct (Hhere Hin) as [Hgroup Hok]. exists p. split; [left | auto].
  - destruct (Hlater Hin) as (q & Hq & Hrest). exists q. split; [now right | exact Hrest].
Qed.

End ServerPaths.

(** X19. In server.js every model that [getModels] returns from a
    discovery has a page path: its group is the lower-cased name of a
    configured path whose discovery did not throw, so the lookup
    [MODEL_PATHS.find(p => p.toLowerCase() === modelInfo.group)] of
    [handleChatCompletion] gives a configured path with that
    lower-cased name, never [undefined]. *)
Theorem discovered_model_has_a_page_path (cfg : Config) (site : string -> Fetched) (now : Z)
    (db : Server.State) (m : Server.Model) :
  Server.readCache "model_list" now db = None ->
  m ∈ (Server.getModels cfg site now db).1.2 ->
  (exists q, q ∈ MODEL_PATHS cfg /\ fails site q = false
             /\ Server.group m = JS.toLowerCase q)
  /\ exists p, Server.findPath cfg m = Some p
               /\ p ∈ MODEL_PATHS cfg
               /\ JS.toLowerCase p = Server.group m.
Proof.
  intros Hmiss. rewrite (server_getModels_miss cfg site now db Hmiss). cbn [fst snd].
  unfold Server.discoverModels.
  pose proof (discoverPaths_group site now (MODEL_PATHS cfg) (Server.models db) m) as Hgroup.
  destruct (Server.discoverPaths site now (MODEL_PATHS cfg) (Server.models db))
    as [table results].
  cbn [fst snd] in *. intros Hin.
  destruct (Hgroup Hin) as (q & Hq & Hlower & Hok).
  split; [eauto |].
  assert (is_Some (Server.findPath cfg m)) as [p Hp].
  { unfold Server.findPath. apply (find_id_is_Some JS.toLowerCase).
    rewrite Hlower. apply list_elem_of_In, in_map. now apply list_elem_of_In. }
  exists p. split; [exact Hp |].
  apply find_some in Hp as [Hin' Heq]. apply String.eqb_eq in Heq.
  split; [now apply list_elem_of_In | exact Heq].
Qed.

(** The model the sample site offers on its chatGPT page. *)
Lemma discovered_model_has_a_page_path_witness :
  Server.findPath default_config (Server.mkModel "gpt-4o" "GPT-4o" "chatgpt") = Some "chatGPT"
  /\ exists p, Server.findPath default_config (Server.mkModel "gpt-4o" "GPT-4o" "chatgpt")
               = Some p
               /\ p ∈ MODEL_PATHS default_config
               /\ JS.toLowerCase p = "chatgpt".
Proof.
  split; [reflexivity |].
  apply (discovered_model_has_a_page_path default_config Samples.oneModelSite 1000
           Samples.emptyServerDb (Server.mkModel "gpt-4o" "GPT-4o" "chatgpt")).
  - reflexivity.
  - apply list_elem_of_singleton. reflexivity.
Defined.

(** ** A model id offered by more than one path *)
Section SharedIds.

Lemma mjoin_app {A} (a b : list (list A)) : mjoin (a ++ b) = mjoin a ++ mjoin b.
Proof.
  induction a as [|x xs IH]; [reflexivity |].
  simpl. rewrite IH. apply app_assoc.
Qed.

(** Two paths that give a record with the same key make the keys of
    the union repeat. *)
Lemma shared_key_repeats {A} (key : A -> string) (fetch : string -> list A)
    (before middle after : list string) (p q i : string) :
  i ∈ map key (fetch p) -> i ∈ map key (fetch q) ->
  ~ NoDup (map key (mjoin (map fetch (before ++ p :: middle ++ q :: after)))).
Proof.
  intros Hp Hq Hnodup.
  rewrite map_app, mjoin_app, map_app in Hnodup.
  apply NoDup_app in Hnodup as (_ & _ & Hnodup).
  cbn [map mjoin list_join] in Hnodup. rewrite map_app in Hnodup.
  apply NoDup_app in Hnodup as (_ & Hdisjoint & _).
  apply (Hdisjoint i Hp).
  rewrite map_app, mjoin_app, map_app. apply elem_of_app. right.
  cbn [map mjoin list_join]. rewrite map_app. apply elem_of_app. now left.
Qed.

Lemma find_app_first {A} (f : A -> bool) (a b : list A) :
  List.find f (a ++ b)
  = match List.find f a with
    | Some x => Some x
    | None => List.find f b
    end.
Proof.
  induction a as [|x xs IH]; [reflexivity |]. simpl. now destruct (f x).
Qed.

Lemma find_id_None {A} (key : A -> string) (l : list A) (i : string) :
  i ∉ map key l -> List.find (fun m => String.eqb (key m) i) l = None.
Proof.
  intros Hnot. destruct (List.find _ l) as [m |] eqn:E; [| reflexivity].
  exfalso. apply Hnot, (find_id_is_Some key). rewrite E. eauto.
Qed.

(** In the union of the paths' results, the first record with a given
    key is one of the first path that has such a record. *)
Lemma find_first_path {A} (key : A -> string) (fetch : string -> list A)
    (before after : list string) (p i : string) :
  (forall q, q ∈ before -> i ∉ map key (fetch q)) ->
  i ∈ map key (fetch p) ->
  exists m,
    List.find (fun m => String.eqb (key m) i) (mjoin (map fetch (before ++ p :: after)))
    = Some m
    /\ m ∈ fetch p.
Proof.
  intros Hbefore Hp. induction before as [|q qs IH]; cbn [app map mjoin list_join].
  - rewrite find_app_first.
    apply (find_id_is_Some key) in Hp as [m Hm]. rewrite Hm.
    exists m. split; [reflexivity |].
    apply find_some in Hm as [Hin _]. now apply list_elem_of_In.
  - rewrite find_app_first, find_id_None by (apply Hbefore; left).
    apply IH. intros q' Hq'. apply Hbefore. now right.
Qed.

(** What [discoverModels] lists for a path does not depend on the
    table it writes to. *)
Lemma discoverPath_listed (site : string -> Fetched) (timestamp : Z)
    (table table' : gmap string Server.ModelRow) (p : string) :
  (Server.discoverPath site timestamp table p).2
  = (Server.discoverPath site timestamp table' p).2.
Proof. unfold Server.discoverPath. now destruct (site p). Qed.

Lemma discoverPaths_listed (site : string -> Fetched) (timestamp : Z)
    (paths : list string) (table : gmap string Server.ModelRow) :
  mjoin (Server.discoverPaths site timestamp paths table).2
  = mjoin (map (fun p => (Server.discoverPath site timestamp ∅ p).2) paths).
Proof.
  revert table. induction paths as [|p ps IH]; intros table; [reflexivity |].
  simpl.
  pose proof (discoverPath_listed site timestamp table ∅ p) as Hhere.
  destruct (Server.discoverPath site timestamp table p) as [table1 found].
  pose proof (IH table1) as Hlater.
  destruct (Server.discoverPaths site timestamp ps table1) as [table2 results].
  simpl in *. now rewrite Hhere, Hlater.
Qed.

Lemma discoverModels_listed (cfg : Config) (site : string -> Fetched) (timestamp : Z)
    (db : Server.State) :
  (Server.discoverModels cfg site timestamp db).2
  = mjoin (map (fun p => (Server.discoverPath site timestamp ∅ p).2) (MODEL_PATHS cfg)).
Proof.
  unfold Server.discoverModels.
  pose proof (discoverPaths_listed site timestamp (MODEL_PATHS cfg) (Server.models db))
    as Hlisted.
  now destruct (Server.discoverPaths site timestamp (MODEL_PATHS cfg) (Server.models db)).
Qed.

End SharedIds.

(** X17. A model id that two configured paths offer. In the modular
    server and in app.js, whose refresh writes every fetched record
    with a plain INSERT, the refresh does not complete: the INSERT of
    the second record fails, nothing listens for the error and the
    process dies; so does a chat request for a model the modular
    server does not know, and a listing of app.js asked for with an
    expired cache. In server.js, which writes with INSERT OR REPLACE
    and looks a model up in the discovered list, the id is routed to
    the first path that offers it: after a discovery, [models.find]
    gives the record of that path and the path lookup gives a
    configured path with the same lower-cased name. *)
Theorem model_offered_by_several_paths
    (cfg : Config) (site : string -> Fetched) (i p q : string)
    (before middle after : list string) :
  MODEL_PATHS cfg = before ++ p :: middle ++ q :: after ->
  (i ∈ map Database.id (ModelManager.fetchModelsFromPage site p) ->
   i ∈ map Database.id (ModelManager.fetchModelsFromPage site q) ->
   forall clk db,
     ModelManager.getModelsList cfg site clk true db = Dies
     /\ forall b messageId timestamp req modelId,
          model req = Some modelId -> Chat.knownGroup modelId db = None ->
          Index.postChatCompletions cfg site clk b messageId timestamp req db = Dies)
  /\ (i ∈ map App.id (App.fetchModelsFromPath site p) ->
      i ∈ map App.id (App.fetchModelsFromPath site q) ->
      forall now db,
        App.fetchAllModels cfg site now db = Dies
        /\ (App.cacheValid now db = false -> App.listModels cfg site now db = Dies))
  /\ (forall now db,
      (forall r, r ∈ before -> i ∉ map Server.id (Server.discoverPath site now ∅ r).2) ->
      i ∈ map Server.id (Server.discoverPath site now ∅ p).2 ->
      Server.readCache "model_list" now db = None ->
      exists modelInfo path,
        Server.findModel i (Server.getModels cfg site now db).1.2 = Some modelInfo
        /\ Server.group modelInfo = JS.toLowerCase p
        /\ Server.findPath cfg modelInfo = Some path
        /\ JS.toLowerCase path = JS.toLowerCase p).
Proof.
  intros Hpaths. split; [| split].
  - intros Hp Hq clk db.
    assert (~ NoDup (map Database.id (ModelManager.fetchAllModels cfg site))) as Hdup.
    { unfold ModelManager.fetchAllModels. rewrite Hpaths.
      now apply (shared_key_repeats Database.id _ before middle after p q i). }
    assert (ModelManager.getModelsList cfg site clk true db = Dies) as Hdies.
    { unfold ModelManager.getModelsList, ModelManager.fetchFreshModels.
      simpl negb. cbn [andb].
      destruct (ModelManager.fetchAllModels cfg site) as [|m ms] eqn:Efetched.
      - exfalso. apply Hdup. constructor.
      - cbn [length Nat.ltb Nat.leb].
        pose proof (saveModels_settles cfg (ModelManager.atSave clk) (m :: ms) db) as Hiff.
        destruct (Database.saveModels cfg (ModelManager.atSave clk) (m :: ms) db);
          [| reflexivity].
        exfalso. apply Hdup, Hiff. eauto. }
    split; [exact Hdies |].
    intros b messageId timestamp req modelId Hmodel Hmiss.
    unfold Index.postChatCompletions, Chat.processChat, Chat.lookupGroup.
    now rewrite Hmodel, Hmiss, Hdies.
  - intros Hp Hq now db.
    assert (~ NoDup (map App.id (mjoin (map (App.fetchModelsFromPath site)
                                          (MODEL_PATHS cfg))))) as Hdup.
    { rewrite Hpaths.
      now apply (shared_key_repeats App.id _ before middle after p q i). }
    assert (App.fetchAllModels cfg site now db = Dies) as Hdies.
    { destruct (app_fetchAllModels_cases cfg site now db)
        as [[Hnil _] | [(_ & Hnodup & _) | (_ & _ & H)]];
        [| contradiction | exact H].
      exfalso. apply Hdup. rewrite Hnil. constructor. }
    split; [exact Hdies |].
    intros Hvalid. unfold App.listModels, App.getModels. now rewrite Hvalid, Hdies.
  - intros now db Hbefore Hp Hmiss.
    rewrite (server_getModels_miss cfg site now db Hmiss). cbn zeta. cbn [fst snd].
    rewrite discoverModels_listed, Hpaths.
    destruct (find_first_path Server.id (fun r => (Server.discoverPath site now ∅ r).2)
                before (middle ++ q :: after) p i Hbefore Hp) as (m & Hfind & Hm).
    apply discoverPath_group in Hm as [Hgroup _].
    assert (is_Some (Server.findPath cfg m)) as [path Hpath].
    { unfold Server.findPath. apply (find_id_is_Some JS.toLowerCase).
      rewrite Hgroup, Hpaths. apply list_elem_of_In, in_map, in_or_app. right. left.
      reflexivity. }
    exists m, path. split; [exact Hfind |]. split; [exact Hgroup |].
    split; [exact Hpath |].
    apply find_some in Hpath as [_ Heq]. apply String.eqb_eq in Heq. congruence.
Qed.

(** The id [shared-model] is offered by the deepseek and the qwen
    pages: the refreshes of the modular server and of app.js do not
    complete, and server.js routes the id to deepseek. *)
Lemma model_offered_by_several_paths_witness :
  ModelManager.getModelsList default_config Samples.sharedModelSite
    (Samples.clockAt 1000) true Samples.database = Dies
  /\ App.fetchAllModels default_config Samples.sharedModelSite 1000 Samples.appDb = Dies
  /\ exists modelInfo,
       Server.findModel "shared-model"
         (Server.getModels default_config Samples.sharedModelSite 1000
            Samples.emptyServerDb).1.2 = Some modelInfo
       /\ Server.group modelInfo = "deepseek"
       /\ Server.findPath default_config modelInfo = Some "deepseek".
Proof.
  destruct (model_offered_by_several_paths default_config
              Samples.sharedModelSite "shared-model" "deepseek" "qwen" ["chatGPT"] []
              ["Claude-3"; "Gemini"; "grok"; "bytedance-seed"; "gpt-oss"; "llama"]
              eq_refl) as (Hmodular & Happ & Hserver).
  split; [| split].
  - apply Hmodular; apply list_elem_of_singleton; reflexivity.
  - apply Happ; apply list_elem_of_singleton; reflexivity.
  - destruct (Hserver 1000 Samples.emptyServerDb)
      as (modelInfo & path & Hfind & Hgroup & Hpath & Hlower).
    + intros r Hr. apply list_elem_of_singleton in Hr as ->.
      intros Hin. apply list_elem_of_singleton in Hin. discriminate.
    + apply list_elem_of_singleton. reflexivity.
    + reflexivity.
    + exists modelInfo. split; [exact Hfind |]. split; [exact Hgroup |].
      rewrite Hpath. f_equal.
      vm_compute in Hfind. injection Hfind as <-. vm_compute in Hpath. now injection Hpath.
Defined.
